(** * Retrieval-augmented ticket responder: shallow embedding and properties

    The development follows the Python sources of the ticketing system:

    - [Py]          the fragment of the Python runtime the code relies on
                    (exceptions, slices, the [float] type, [min]/[max]/[sum]);
    - [Numpy]       [np.dot] and [np.linalg.norm] on one-dimensional arrays;
    - [Embeddings]  backend/app/rag/embeddings.py ([EmbeddingService]);
    - [Retriever]   backend/app/rag/retriever.py ([TicketRetriever]);
    - [Generator]   backend/app/rag/generator.py ([ResponseGenerator]);
    - [Ragpipe]     ragpipe.py ([RAGPipeline]);
    - [Similarity], [Retrieval], [Synthesis], [Categorization], [Context],
      [Routes], [Pipeline], [Jsonl], [App]
                    further properties of these files, of the
                    generate-response route, of the ticket log read
                    character by character, and of app.py.

    Python floats are IEEE-754 binary64 values; they are modelled by Rocq's
    primitive floats, which are the same format with the same rounding. *)

From Stdlib Require Import ZArith List Floats Lia Bool Ascii.
From stdpp Require Import base option list sorting gmap strings pretty.

Set Warnings "-inexact-float".

(* ===================================================================== *)
(** ** The Python runtime fragment *)
(* ===================================================================== *)

Module Py.

(** Exceptions raised by the code paths below.  All of them derive from
    Python's [Exception], so an [except Exception] clause catches each. *)
Inductive exn : Type :=
| ValueError
| IndexError
| KeyError
| AttributeError
| ConnectionError
| JSONDecodeError
| APIError.

(** The outcome of evaluating an expression that may raise. *)
Inductive result (A : Type) : Type :=
| Ok (a : A)
| Raise (e : exn).
Arguments Ok {A} a.
Arguments Raise {A} e.

#[global] Instance result_ret : MRet result := fun A a => Ok a.
#[global] Instance result_bind : MBind result := fun A B f m =>
  match m with
  | Ok a => f a
  | Raise e => Raise e
  end.

(** [try: body except Exception as e: handler e]. *)
Definition try_except {A} (body : result A) (handler : exn -> result A) : result A :=
  match body with
  | Ok a => Ok a
  | Raise e => handler e
  end.

Definition raises {A} (r : result A) : Prop := exists e, r = Raise e.
Definition returns {A} (r : result A) : Prop := exists a, r = Ok a.

Lemma returns_not_raises {A} (r : result A) : returns r -> ~ raises r.
Proof. intros [a ->] [e He]. discriminate. Qed.

(** *** Slices

    [l[start:stop]] on a sequence: a negative index counts from the end,
    and both indices are clipped to the sequence. *)
Definition clip_index (len i : Z) : Z :=
  if (i <? 0)%Z then Z.max 0 (i + len) else Z.min i len.

Definition slice {A} (l : list A) (start stop : Z) : list A :=
  let len := Z.of_nat (length l) in
  let lo := clip_index len start in
  let hi := clip_index len stop in
  take (Z.to_nat (hi - lo)) (drop (Z.to_nat lo) l).

(** [l[:stop]]. *)
Definition slice_to {A} (l : list A) (stop : Z) : list A := slice l 0 stop.

Lemma slice_to_nonneg {A} (l : list A) (n : Z) :
  (0 <= n)%Z -> slice_to l n = take (Z.to_nat n) l.
Proof.
  intros Hn. unfold slice_to, slice, clip_index.
  destruct (Z.ltb_spec 0 0); [lia|].
  destruct (Z.ltb_spec n 0); [lia|].
  replace (Z.min 0 (Z.of_nat (length l))) with 0%Z by lia.
  change (Z.to_nat 0) with 0%nat. rewrite drop_0, Z.sub_0_r.
  destruct (Z.le_ge_cases n (Z.of_nat (length l))).
  - rewrite Z.min_l by lia. reflexivity.
  - rewrite Z.min_r by lia. rewrite Nat2Z.id.
    rewrite !take_ge by lia. reflexivity.
Qed.

Lemma slice_to_negative {A} (l : list A) (n : Z) :
  (n < 0)%Z -> slice_to l n = take (length l - Z.to_nat (- n)) l.
Proof.
  intros Hn. unfold slice_to, slice, clip_index.
  destruct (Z.ltb_spec 0 0); [lia|].
  destruct (Z.ltb_spec n 0); [|lia].
  replace (Z.min 0 (Z.of_nat (length l))) with 0%Z by lia.
  change (Z.to_nat 0) with 0%nat. rewrite drop_0. f_equal. lia.
Qed.

Lemma slice_length_le {A} (l : list A) (start stop : Z) :
  (0 <= start <= stop)%Z ->
  (Z.of_nat (length (slice l start stop)) <= stop - start)%Z.
Proof.
  intros H. unfold slice, clip_index.
  destruct (Z.ltb_spec start 0); [lia|].
  destruct (Z.ltb_spec stop 0); [lia|].
  rewrite length_take, length_drop. lia.
Qed.

Lemma slice_nil {A} (start stop : Z) : slice (@nil A) start stop = [].
Proof. unfold slice. rewrite drop_nil, take_nil. reflexivity. Qed.

Lemma slice_sublist {A} (l : list A) (start stop : Z) : slice l start stop `sublist_of` l.
Proof. unfold slice. etransitivity; [apply sublist_take|apply sublist_drop]. Qed.

Lemma slice_elem_of {A} (l : list A) (start stop : Z) (x : A) :
  x ∈ slice l start stop -> x ∈ l.
Proof. intros H. eapply elem_of_sublist; [exact H|apply slice_sublist]. Qed.

Lemma slice_StronglySorted {A} (R : A -> A -> Prop) (l : list A) (start stop : Z) :
  StronglySorted R l -> StronglySorted R (slice l start stop).
Proof.
  intros H. unfold slice.
  generalize (Z.to_nat (clip_index (Z.of_nat (length l)) stop -
                        clip_index (Z.of_nat (length l)) start)) as n.
  generalize (Z.to_nat (clip_index (Z.of_nat (length l)) start)) as lo.
  intros lo n.
  rewrite <- (take_drop lo l) in H. apply StronglySorted_app_1_r in H.
  rewrite <- (take_drop n (drop lo l)) in H. apply StronglySorted_app_1_l in H.
  exact H.
Qed.

(** *** Floats *)

(** The builtin [max(a, b)]: [b] replaces [a] only when [b > a]. *)
Definition max (a b : float) : float := if (a <? b)%float then b else a.

(** The builtin [min(a, b)]: [b] replaces [a] only when [b < a]. *)
Definition min (a b : float) : float := if (b <? a)%float then b else a.

(** The builtin [sum] over floats: left to right, from the integer [0]
    (which converts to [+0.0] at the first addition). *)
Definition sum (l : list float) : float := fold_left PrimFloat.add l 0%float.

(** Conversion of a sequence length to [float], as [/] performs it on an
    [int] operand: rounded to nearest, exact below 2^53.  The conversion
    goes through a 63-bit integer and stands for Python's on lengths below
    2^63. *)
Definition float_of_len (n : nat) : float := of_uint63 (Uint63.of_Z (Z.of_nat n)).

(** *** Sorting

    [l.sort(key=key, reverse=True)]: a stable sort into descending key
    order; keys are compared with [<] only, and elements whose keys do
    not compare as smaller keep their relative order.  It is written here
    as an insertion sort; on keys without NaN, which is all the code
    below ever sorts, the result of a stable descending sort does not
    depend on the method ([Ranking.ranked_unique]). *)
Section Sort.
Context {A : Type} (key : A -> float).

Fixpoint insert_desc (x : A) (l : list A) : list A :=
  match l with
  | [] => [x]
  | y :: l' => if (key x <? key y)%float then y :: insert_desc x l' else x :: l
  end.

Definition sort_desc (l : list A) : list A := foldr insert_desc [] l.
End Sort.

End Py.

Export Py.

(* ===================================================================== *)
(** ** Facts about binary64 comparison and arithmetic *)
(* ===================================================================== *)

Module FloatFacts.

Ltac fold_compare :=
  repeat match goal with
  | |- context [PosDef.Pos.compare_cont Eq ?a ?b] =>
      change (PosDef.Pos.compare_cont Eq a b) with (Pos.compare a b)
  end.

(** *** On the specification type *)

Definition SFnan (x : spec_float) : bool :=
  match x with S754_nan => true | _ => false end.

(** Zero (of either sign) or a finite non-zero value. *)
Definition SFfin (x : spec_float) : bool :=
  match x with S754_zero _ | S754_finite _ _ _ => true | _ => false end.

Definition SFzero (x : spec_float) : bool :=
  match x with S754_zero _ => true | _ => false end.

(** Not NaN and not negative: a zero of either sign, a positive finite
    value or [+inf]. *)
Definition SFnonneg (x : spec_float) : bool :=
  match x with
  | S754_zero _ | S754_infinity false | S754_finite false _ _ => true
  | _ => false
  end.

(** Finite and strictly positive. *)
Definition SFposfin (x : spec_float) : bool :=
  match x with S754_finite false _ _ => true | _ => false end.

Lemma SFcompare_None x y :
  SFcompare x y = None <-> SFnan x = true \/ SFnan y = true.
Proof.
  destruct x as [sx|sx| |sx mx ex], y as [sy|sy| |sy my ey]; simpl;
    intuition congruence.
Qed.

Lemma SFcompare_antisym x y :
  SFcompare y x = option_map CompOpp (SFcompare x y).
Proof.
  destruct x as [[]|[]| |[] mx ex], y as [[]|[]| |[] my ey]; simpl; try reflexivity;
    fold_compare; rewrite (Z.compare_antisym ex ey), (Pos.compare_antisym mx my);
    destruct (ex ?= ey)%Z; simpl; try reflexivity;
    destruct (mx ?= my)%positive; reflexivity.
Qed.

Lemma SFcompare_refl x : SFnan x = false -> SFcompare x x = Some Eq.
Proof.
  destruct x as [[]|[]| |[] m e]; simpl; try congruence; intros _;
    fold_compare; rewrite Z.compare_refl, Pos.compare_refl; reflexivity.
Qed.

Lemma SFleb_total x y :
  SFnan x = false -> SFnan y = false -> SFltb x y = false -> SFleb y x = true.
Proof.
  unfold SFltb, SFleb. rewrite (SFcompare_antisym x y).
  destruct (SFcompare x y) as [[]|] eqn:E; simpl; try congruence.
  apply SFcompare_None in E. intros; destruct E; congruence.
Qed.

Lemma SFleb_trans x y z :
  SFleb x y = true -> SFleb y z = true -> SFleb x z = true.
Proof.
  unfold SFleb.
  destruct x as [[]|[]| |[] mx ex], y as [[]|[]| |[] my ey], z as [[]|[]| |[] mz ez];
    simpl; try congruence; fold_compare;
    destruct (Z.compare_spec ex ey), (Z.compare_spec ey ez), (Z.compare_spec ex ez);
    try congruence; try lia; subst; fold_compare;
    destruct (Pos.compare_spec mx my), (Pos.compare_spec my mz), (Pos.compare_spec mx mz);
    simpl; try congruence; try lia.
Qed.

Lemma SFleb_notnan x y : SFleb x y = true -> SFnan x = false /\ SFnan y = false.
Proof.
  unfold SFleb. destruct (SFcompare x y) eqn:E; [|discriminate]. intros _.
  destruct (SFnan x) eqn:Hx, (SFnan y) eqn:Hy; try (split; reflexivity);
    assert (SFcompare x y = None) by (apply SFcompare_None; auto); congruence.
Qed.

Lemma SFltb_leb x y : SFltb x y = true -> SFleb x y = true.
Proof. unfold SFltb, SFleb. destruct (SFcompare x y) as [[]|]; congruence. Qed.

Lemma SFeqb_leb x y : SFeqb x y = true -> SFleb x y = true.
Proof. unfold SFeqb, SFleb. destruct (SFcompare x y) as [[]|]; congruence. Qed.

Lemma SFeqb_sym x y : SFeqb x y = SFeqb y x.
Proof.
  unfold SFeqb. rewrite (SFcompare_antisym x y).
  destruct (SFcompare x y) as [[]|]; reflexivity.
Qed.

Lemma SFltb_asym x y : SFltb x y = true -> SFltb y x = false.
Proof.
  unfold SFltb. rewrite (SFcompare_antisym x y).
  destruct (SFcompare x y) as [[]|]; simpl; congruence.
Qed.

(** [x <= y] splits into [x < y] or [x == y]. *)
Lemma SFleb_split x y : SFleb x y = SFltb x y || SFeqb x y.
Proof. unfold SFleb, SFltb, SFeqb. destruct (SFcompare x y) as [[]|]; reflexivity. Qed.

(** *** On primitive floats, through the specification of each operation *)

Open Scope float_scope.

Lemma is_nan_spec x : is_nan x = SFnan (Prim2SF x).
Proof.
  unfold is_nan. rewrite FloatAxioms.eqb_spec. unfold SFeqb.
  destruct (SFnan (Prim2SF x)) eqn:E.
  - destruct (Prim2SF x); try discriminate. reflexivity.
  - rewrite SFcompare_refl by exact E. reflexivity.
Qed.

Lemma is_finite_spec x : is_finite x = SFfin (Prim2SF x).
Proof.
  unfold is_finite, is_infinity. rewrite is_nan_spec, FloatAxioms.eqb_spec, FloatAxioms.abs_spec.
  change (Prim2SF infinity) with (S754_infinity false).
  destruct (Prim2SF x) as [[]|[]| |[] m e]; reflexivity.
Qed.

Lemma eqb_zero_spec x : (x =? 0) = SFzero (Prim2SF x).
Proof.
  rewrite FloatAxioms.eqb_spec. change (Prim2SF 0) with (S754_zero false).
  destruct (Prim2SF x) as [[]|[]| |[] m e]; reflexivity.
Qed.

Lemma leb_trans x y z : (x <=? y) = true -> (y <=? z) = true -> (x <=? z) = true.
Proof. rewrite !FloatAxioms.leb_spec. apply SFleb_trans. Qed.

Lemma leb_notnan x y : (x <=? y) = true -> is_nan x = false /\ is_nan y = false.
Proof. rewrite FloatAxioms.leb_spec, !is_nan_spec. apply SFleb_notnan. Qed.

Lemma leb_total x y :
  is_nan x = false -> is_nan y = false -> (x <? y) = false -> (y <=? x) = true.
Proof. rewrite !is_nan_spec, FloatAxioms.ltb_spec, FloatAxioms.leb_spec. apply SFleb_total. Qed.

Lemma ltb_leb x y : (x <? y) = true -> (x <=? y) = true.
Proof. rewrite FloatAxioms.ltb_spec, FloatAxioms.leb_spec. apply SFltb_leb. Qed.

Lemma eqb_leb x y : (x =? y) = true -> (x <=? y) = true.
Proof. rewrite FloatAxioms.eqb_spec, FloatAxioms.leb_spec. apply SFeqb_leb. Qed.

Lemma eqb_sym x y : (x =? y) = (y =? x).
Proof. rewrite !FloatAxioms.eqb_spec. apply SFeqb_sym. Qed.

Lemma leb_split x y : (x <=? y) = (x <? y) || (x =? y).
Proof. rewrite FloatAxioms.leb_spec, FloatAxioms.ltb_spec, FloatAxioms.eqb_spec. apply SFleb_split. Qed.

Lemma ltb_asym x y : (x <? y) = true -> (y <? x) = false.
Proof. rewrite !FloatAxioms.ltb_spec. apply SFltb_asym. Qed.

Lemma ltb_irrefl_eqb x y : (x =? y) = true -> (x <? y) = false.
Proof.
  rewrite FloatAxioms.eqb_spec, FloatAxioms.ltb_spec. unfold SFeqb, SFltb.
  destruct (SFcompare _ _) as [[]|]; congruence.
Qed.

(** A zero times a finite value is a zero; with an infinite or NaN
    factor the product is NaN instead. *)
Lemma mul_zero_finite x y :
  (x =? 0) = true -> is_finite y = true -> (x * y =? 0) = true.
Proof.
  rewrite !eqb_zero_spec, is_finite_spec, FloatAxioms.mul_spec.
  destruct (Prim2SF x) as [sx|sx| |sx mx ex], (Prim2SF y) as [sy|sy| |sy my ey];
    simpl; congruence.
Qed.

Lemma mul_finite_zero x y :
  is_finite x = true -> (y =? 0) = true -> (x * y =? 0) = true.
Proof.
  rewrite !eqb_zero_spec, is_finite_spec, FloatAxioms.mul_spec.
  destruct (Prim2SF x) as [sx|sx| |sx mx ex], (Prim2SF y) as [sy|sy| |sy my ey];
    simpl; congruence.
Qed.

Lemma mul_zero_nonfinite x y :
  (x =? 0) = true -> is_finite y = false -> is_nan (x * y) = true.
Proof.
  rewrite eqb_zero_spec, is_finite_spec, is_nan_spec, FloatAxioms.mul_spec.
  destruct (Prim2SF x) as [sx|sx| |sx mx ex], (Prim2SF y) as [sy|sy| |sy my ey];
    simpl; congruence.
Qed.

Lemma mul_nonfinite_zero x y :
  is_finite x = false -> (y =? 0) = true -> is_nan (x * y) = true.
Proof.
  rewrite eqb_zero_spec, is_finite_spec, is_nan_spec, FloatAxioms.mul_spec.
  destruct (Prim2SF x) as [sx|sx| |sx mx ex], (Prim2SF y) as [sy|sy| |sy my ey];
    simpl; congruence.
Qed.

Lemma nan_eqb x y : is_nan x = true -> (x =? y) = false.
Proof.
  rewrite is_nan_spec, FloatAxioms.eqb_spec. destruct (Prim2SF x); try discriminate. reflexivity.
Qed.

Lemma div_nan_r x y : is_nan y = true -> is_nan (x / y) = true.
Proof.
  rewrite !is_nan_spec, FloatAxioms.div_spec.
  destruct (Prim2SF y); try discriminate. destruct (Prim2SF x); reflexivity.
Qed.

Lemma is_nan_eq x : is_nan x = true -> x = nan.
Proof.
  rewrite is_nan_spec. intros H. apply Prim2SF_inj.
  destruct (Prim2SF x); try discriminate. reflexivity.
Qed.

(** [min(max(c, 0.0), 1.0)] lands in [[0.0, 1.0]] exactly when [c] is
    not NaN; a NaN passes through both comparisons unchanged. *)
Lemma clamp_range c :
  is_nan c = false ->
  (0 <=? Py.min (Py.max c 0) 1) = true /\ (Py.min (Py.max c 0) 1 <=? 1) = true.
Proof.
  intros Hc. unfold Py.min, Py.max.
  destruct (c <? 0) eqn:E0.
  - change (1 <? 0) with false. cbv iota. split; reflexivity.
  - destruct (1 <? c) eqn:E1.
    + split; reflexivity.
    + split.
      * apply leb_total; [exact Hc|reflexivity|exact E0].
      * apply leb_total; [reflexivity|exact Hc|exact E1].
Qed.

Lemma clamp_nan c : is_nan c = true -> Py.min (Py.max c 0) 1 = nan.
Proof.
  intros Hc. apply is_nan_eq in Hc. subst c. reflexivity.
Qed.

Lemma clamp_not_nan c : is_nan (Py.min (Py.max c 0) 1) = is_nan c.
Proof.
  destruct (is_nan c) eqn:Hc.
  - rewrite clamp_nan by exact Hc. reflexivity.
  - destruct (clamp_range c Hc) as [H _]. apply leb_notnan in H as [_ H]. exact H.
Qed.

Close Scope float_scope.

End FloatFacts.

(* ===================================================================== *)
(** ** Rounding: signs and finiteness of binary64 results *)
(* ===================================================================== *)

Module Rounding.

Import FloatFacts.
Open Scope Z_scope.

(** The confidence score adds, multiplies and divides floats that are
    not negative.  This module follows the rounding step of the binary64
    specification far enough to show that such results are never NaN and
    never negative, and that the length of a list converts to a finite
    positive float. *)

(** *** Shifting the significand *)

Lemma digits2_pos_size p : digits2_pos p = Pos.size p.
Proof. induction p; simpl; congruence. Qed.

Lemma Zdigits2_log2 m : 0 < m -> Zdigits2 m = Z.log2 m + 1.
Proof.
  destruct m as [|p|p]; try lia. intros _. cbn [Zdigits2].
  rewrite digits2_pos_size. destruct p; cbn [Z.log2 Pos.size]; lia.
Qed.

Lemma shr_1_m mrs : 0 <= shr_m mrs -> shr_m (shr_1 mrs) = Z.div2 (shr_m mrs).
Proof. destruct mrs as [[|[p|p|]|p] r s]; simpl; try lia; reflexivity. Qed.

Lemma iter_shr_1_m n mrs :
  0 <= shr_m mrs ->
  shr_m (SpecFloat.iter_pos shr_1 n mrs) = Z.shiftr (shr_m mrs) (Zpos n).
Proof.
  revert mrs. induction n as [n IH|n IH|]; intros mrs H; cbn [SpecFloat.iter_pos].
  - assert (H1 : 0 <= shr_m (shr_1 mrs)).
    { rewrite shr_1_m by exact H. apply Z.div2_nonneg, H. }
    assert (H2 : 0 <= shr_m (SpecFloat.iter_pos shr_1 n (shr_1 mrs))).
    { rewrite IH by exact H1. apply Z.shiftr_nonneg, H1. }
    rewrite IH by exact H2. rewrite IH by exact H1.
    rewrite shr_1_m by exact H. rewrite Z.div2_spec.
    rewrite !Z.shiftr_shiftr by lia. f_equal. lia.
  - assert (H2 : 0 <= shr_m (SpecFloat.iter_pos shr_1 n mrs)).
    { rewrite IH by exact H. apply Z.shiftr_nonneg, H. }
    rewrite IH by exact H2. rewrite IH by exact H.
    rewrite Z.shiftr_shiftr by lia. f_equal. lia.
  - rewrite shr_1_m by exact H. apply Z.div2_spec.
Qed.

Lemma shr_record_of_loc_m m l : shr_m (shr_record_of_loc m l) = m.
Proof. destruct l as [|[]]; reflexivity. Qed.

Lemma shr_spec mrs e n :
  0 <= shr_m mrs ->
  shr_m (fst (shr mrs e n)) = Z.shiftr (shr_m mrs) (Z.max 0 n) /\
  snd (shr mrs e n) = e + Z.max 0 n.
Proof.
  intros H. destruct n as [|p|p]; cbn [shr fst snd].
  - rewrite Z.shiftr_0_r. lia.
  - rewrite iter_shr_1_m by exact H. rewrite Z.max_r by lia. lia.
  - rewrite Z.max_l by lia. rewrite Z.shiftr_0_r. lia.
Qed.

Lemma shiftr_pos m k : 0 < m -> 0 <= k <= Z.log2 m -> 0 < Z.shiftr m k.
Proof.
  intros Hm Hk.
  assert (0 <= Z.shiftr m k) by (apply Z.shiftr_nonneg; lia).
  assert (Z.shiftr m k <> 0); [|lia].
  rewrite Z.shiftr_eq_0_iff. lia.
Qed.

(** *** Rounding to nearest even *)

Lemma round_nearest_even_bounds m l :
  m <= round_nearest_even m l <= m + 1.
Proof. destruct l as [|[]]; cbn [round_nearest_even]; try destruct (Z.even m); lia. Qed.

Lemma fexp_eq x : -1021 <= x -> fexp prec emax x = x - 53.
Proof. intros H. unfold fexp, emin, prec, emax. lia. Qed.

Lemma shr_fexp_spec m e l :
  0 < m -> -1074 <= e ->
  let k := Z.max (Zdigits2 m - 53) 0 in
  shr_m (fst (shr_fexp prec emax m e l)) = Z.shiftr m k /\
  snd (shr_fexp prec emax m e l) = e + k /\
  0 < Z.shiftr m k /\
  Z.log2 (Z.shiftr m k) = Z.log2 m - k.
Proof.
  intros Hm He k. unfold shr_fexp.
  pose proof (Zdigits2_log2 m Hm) as Hd. pose proof (Z.log2_nonneg m) as Hl.
  assert (Hk : Z.max 0 (fexp prec emax (Zdigits2 m + e) - e) = k).
  { unfold fexp, emin, prec, emax, k. lia. }
  destruct (shr_spec (shr_record_of_loc m l) e (fexp prec emax (Zdigits2 m + e) - e)) as [H1 H2].
  { rewrite shr_record_of_loc_m. lia. }
  rewrite shr_record_of_loc_m, Hk in H1. rewrite Hk in H2.
  repeat split; auto.
  - apply shiftr_pos; [exact Hm|]. unfold k. lia.
  - rewrite Z.log2_shiftr by exact Hm. unfold k. lia.
Qed.

(** A positive significand with an exponent away from both ends of the
    range rounds to a finite value. *)
Lemma binary_round_aux_finite sx m e l :
  0 < m -> -1074 <= e -> e + Z.max (Zdigits2 m - 53) 0 <= 970 ->
  exists m' e', binary_round_aux prec emax sx m e l = S754_finite sx m' e'.
Proof.
  intros Hm He Hb. unfold binary_round_aux.
  destruct (shr_fexp_spec m e l Hm He) as (H1 & H2 & H3 & H4).
  destruct (shr_fexp prec emax m e l) as [mrs' e'] eqn:E1. cbn [fst snd] in H1, H2.
  set (m1 := shr_m mrs') in *.
  set (m2 := round_nearest_even m1 (loc_of_shr_record mrs')).
  pose proof (round_nearest_even_bounds m1 (loc_of_shr_record mrs')) as Hr. fold m2 in Hr.
  rewrite <- H1 in H3, H4.
  assert (Hm2 : 0 < m2) by lia.
  assert (He' : -1074 <= e') by lia.
  destruct (shr_fexp_spec m2 e' loc_Exact Hm2 He') as (G1 & G2 & G3 & G4).
  destruct (shr_fexp prec emax m2 e' loc_Exact) as [mrs'' e''] eqn:E2. cbn [fst snd] in G1, G2.
  pose proof (Zdigits2_log2 m Hm) as Hd. pose proof (Zdigits2_log2 m2 Hm2) as Hd2.
  assert (Hl2 : Z.log2 m2 <= Z.log2 m1 + 1).
  { etransitivity; [apply Z.log2_le_mono; apply Hr|].
    change (m1 + 1) with (Z.succ m1). apply Z.log2_succ_le. }
  rewrite G1. destruct (Z.shiftr m2 _) as [|q|q] eqn:Eq; try lia.
  assert (Hle : (e'' <=? emax - prec) = true).
  { apply Z.leb_le. unfold emax, prec. lia. }
  rewrite Hle. eauto.
Qed.

Lemma shr_nonneg mrs e n : 0 <= shr_m mrs -> 0 <= shr_m (fst (shr mrs e n)).
Proof.
  intros H. destruct (shr_spec mrs e n H) as [-> _]. apply Z.shiftr_nonneg, H.
Qed.

Lemma shr_fexp_nonneg m e l : 0 <= m -> 0 <= shr_m (fst (shr_fexp prec emax m e l)).
Proof.
  intros H. unfold shr_fexp. apply shr_nonneg. rewrite shr_record_of_loc_m. exact H.
Qed.

(** Rounding a non-negative significand never yields NaN and keeps the
    sign it is given. *)
Lemma binary_round_aux_cases sx m e l :
  0 <= m ->
  match binary_round_aux prec emax sx m e l with
  | S754_zero s | S754_infinity s | S754_finite s _ _ => s = sx
  | S754_nan => False
  end.
Proof.
  intros Hm. unfold binary_round_aux.
  pose proof (shr_fexp_nonneg m e l Hm) as H1.
  destruct (shr_fexp prec emax m e l) as [mrs' e']. cbn [fst] in H1.
  pose proof (round_nearest_even_bounds (shr_m mrs') (loc_of_shr_record mrs')) as Hr.
  pose proof (shr_fexp_nonneg (round_nearest_even (shr_m mrs') (loc_of_shr_record mrs'))
                e' loc_Exact ltac:(lia)) as H2.
  destruct (shr_fexp prec emax _ e' loc_Exact) as [mrs'' e'']. cbn [fst] in H2.
  destruct (shr_m mrs'') as [|q|q]; try lia; [reflexivity|].
  destruct (e'' <=? emax - prec); reflexivity.
Qed.

Lemma binary_round_aux_nonneg m e l :
  0 <= m -> SFnonneg (binary_round_aux prec emax false m e l) = true.
Proof.
  intros Hm. pose proof (binary_round_aux_cases false m e l Hm) as H.
  destruct (binary_round_aux prec emax false m e l) as [s|s| |s q x];
    try contradiction; subst; reflexivity.
Qed.

(** *** Sums, products and quotients of floats that are not negative *)

Lemma SFadd_nonneg x y :
  SFnonneg x = true -> SFnonneg y = true -> SFnonneg (SF64add x y) = true.
Proof.
  destruct x as [[]|[]| |[] mx ex], y as [[]|[]| |[] my ey];
    cbv [SF64add SFadd SFnonneg cond_Zopp]; try congruence; intros _ _.
  rewrite <- Pos2Z.inj_add. cbv [binary_normalize binary_round].
  destruct (shl_align _ _ _) as [mz ez].
  apply binary_round_aux_nonneg. lia.
Qed.

Lemma SFmul_nonneg x y :
  SFnonneg x = true -> SFposfin y = true -> SFnonneg (SF64mul x y) = true.
Proof.
  destruct x as [[]|[]| |[] mx ex], y as [[]|[]| |[] my ey];
    cbv [SF64mul SFmul SFnonneg SFposfin xorb]; try congruence; intros _ _.
  apply binary_round_aux_nonneg. lia.
Qed.

Lemma SFdiv_nonneg x y :
  SFnonneg x = true -> SFposfin y = true -> SFnonneg (SF64div x y) = true.
Proof.
  destruct x as [[]|[]| |[] mx ex], y as [[]|[]| |[] my ey];
    cbv [SF64div SFdiv SFnonneg SFposfin xorb]; try congruence; intros _ _.
  unfold SFdiv_core_binary.
  set (m' := match _ with Z0 => Z.pos mx | Z.pos _ => _ | Z.neg _ => 0 end).
  assert (Hm' : 0 <= m').
  { unfold m'. destruct (_ - _ - _) as [|s|s]; try lia. apply Z.shiftl_nonneg. lia. }
  pose proof (Z.div_pos m' (Z.pos my) Hm' ltac:(lia)) as Hq.
  unfold Z.div in Hq. destruct (Z.div_eucl m' (Z.pos my)) as [q r].
  apply binary_round_aux_nonneg. exact Hq.
Qed.

Lemma digits2_iter_xO p k :
  Z.pos (digits2_pos (Pos.iter xO p k)) = Z.pos (digits2_pos p) + Z.pos k.
Proof.
  induction k as [|k IH] using Pos.peano_ind.
  - cbn. lia.
  - rewrite Pos.iter_succ. cbn [digits2_pos]. lia.
Qed.

(** An integer in [1, 2^63) converts to a finite positive float. *)
Lemma binary_normalize_posfin p :
  Z.pos p < 2 ^ 63 -> SFposfin (binary_normalize prec emax (Z.pos p) 0 false) = true.
Proof.
  intros Hp. cbn [binary_normalize]. unfold binary_round.
  pose proof (Zdigits2_log2 (Z.pos p) ltac:(lia)) as Hd. cbn [Zdigits2] in Hd.
  assert (Hl : Z.log2 (Z.pos p) < 63) by (apply Z.log2_lt_pow2; lia).
  pose proof (Z.log2_nonneg (Z.pos p)) as Hl0.
  rewrite fexp_eq by lia. unfold shl_align.
  destruct (Z.pos (digits2_pos p) + 0 - 53 - 0) as [|d|d] eqn:Ed.
  - destruct (binary_round_aux_finite false (Z.pos p) 0 loc_Exact) as (m' & e' & ->);
      cbn [Zdigits2]; try lia. reflexivity.
  - destruct (binary_round_aux_finite false (Z.pos p) 0 loc_Exact) as (m' & e' & ->);
      cbn [Zdigits2]; try lia. reflexivity.
  - destruct (binary_round_aux_finite false (Z.pos (Pos.iter xO p d))
                (Z.pos (digits2_pos p) + 0 - 53) loc_Exact) as (m' & e' & ->);
      cbn [Zdigits2]; try rewrite digits2_iter_xO; try lia. reflexivity.
Qed.

Close Scope Z_scope.
Open Scope float_scope.

(** *** On primitive floats *)

Definition nonneg (x : float) : Prop := SFnonneg (Prim2SF x) = true.
Definition posfin (x : float) : Prop := SFposfin (Prim2SF x) = true.

Lemma leb_0_nonneg x : (0 <=? x) = true -> nonneg x.
Proof.
  unfold nonneg. rewrite FloatAxioms.leb_spec. change (Prim2SF 0) with (S754_zero false).
  destruct (Prim2SF x) as [[]|[]| |[] m e]; cbn; congruence.
Qed.

Lemma nonneg_not_nan x : nonneg x -> is_nan x = false.
Proof.
  unfold nonneg. rewrite is_nan_spec. destruct (Prim2SF x); cbn; congruence.
Qed.

Lemma add_nonneg x y : nonneg x -> nonneg y -> nonneg (x + y).
Proof. unfold nonneg. rewrite FloatAxioms.add_spec. apply SFadd_nonneg. Qed.

Lemma mul_nonneg x y : nonneg x -> posfin y -> nonneg (x * y).
Proof. unfold nonneg, posfin. rewrite FloatAxioms.mul_spec. apply SFmul_nonneg. Qed.

Lemma div_nonneg x y : nonneg x -> posfin y -> nonneg (x / y).
Proof. unfold nonneg, posfin. rewrite FloatAxioms.div_spec. apply SFdiv_nonneg. Qed.

Lemma sum_nonneg l : Forall nonneg l -> nonneg (Py.sum l).
Proof.
  unfold Py.sum. assert (H0 : nonneg 0) by reflexivity. revert H0.
  generalize 0 as acc. induction l as [|x l IH]; intros acc Hacc Hl; [exact Hacc|].
  apply Forall_cons in Hl as [Hx Hl]. cbn [fold_left].
  apply IH; [apply add_nonneg; assumption|exact Hl].
Qed.

(** The length of a non-empty sequence converts to a finite positive
    float. *)
Lemma float_of_len_posfin n :
  (0 < n)%nat -> (Z.of_nat n < 2 ^ 63)%Z -> posfin (float_of_len n).
Proof.
  intros Hn Hb. unfold posfin, float_of_len.
  rewrite of_uint63_spec, Uint63.of_Z_spec.
  rewrite Z.mod_small by (change Uint63.wB with (2 ^ 63)%Z; lia).
  destruct (Z.of_nat n) as [|p|p] eqn:E; try lia.
  apply binary_normalize_posfin. lia.
Qed.

Close Scope float_scope.

End Rounding.

(* ===================================================================== *)
(** ** Facts about the descending stable sort and its prefixes *)
(* ===================================================================== *)

Module Ranking.

Import FloatFacts.

Section Ranking.
Context {A : Type} (key : A -> float) (pos : A -> nat).

(** [x] is ranked before [y]: its key is larger, or the keys are equal
    and [x] came earlier in the input. *)
Definition before (x y : A) : Prop :=
  (key y <? key x)%float = true \/
  ((key x =? key y)%float = true /\ pos x < pos y).

Definition comparable (x : A) : Prop := is_nan (key x) = false.

Lemma insert_desc_perm x l : insert_desc key x l ≡ₚ x :: l.
Proof.
  induction l as [|y l IH]; simpl; [reflexivity|].
  destruct (key x <? key y)%float; [|reflexivity].
  rewrite IH. apply Permutation_swap.
Qed.

Lemma sort_desc_perm l : sort_desc key l ≡ₚ l.
Proof.
  induction l as [|x l IH]; simpl; [reflexivity|].
  rewrite insert_desc_perm, IH. reflexivity.
Qed.

Lemma sort_desc_elem_of x l : x ∈ sort_desc key l <-> x ∈ l.
Proof. rewrite sort_desc_perm. reflexivity. Qed.

Lemma before_weaken x y z :
  comparable x -> comparable y ->
  (key x <? key y)%float = false -> pos x < pos z ->
  before y z -> before x z.
Proof.
  intros Hx Hy Hxy Hpos Hyz.
  assert (Hyx : (key y <=? key x)%float = true) by (apply leb_total; assumption).
  assert (Hzy : (key z <=? key y)%float = true).
  { destruct Hyz as [H|[H _]]; [apply ltb_leb, H|].
    apply eqb_leb. rewrite eqb_sym. exact H. }
  pose proof (leb_trans _ _ _ Hzy Hyx) as Hzx.
  rewrite leb_split in Hzx. apply orb_true_iff in Hzx as [H|H].
  - left. exact H.
  - right. split; [rewrite eqb_sym; exact H|exact Hpos].
Qed.

Lemma insert_desc_sorted x s :
  comparable x -> Forall comparable s ->
  Forall (fun y => pos x < pos y) s ->
  StronglySorted before s -> StronglySorted before (insert_desc key x s).
Proof.
  intros Hx. induction s as [|y s IH]; intros Hs Hpos Hsorted; simpl.
  - repeat constructor.
  - apply Forall_cons in Hs as [Hy Hs]. apply Forall_cons in Hpos as [Hxy Hpos].
    apply StronglySorted_cons in Hsorted as [Hys Hsorted].
    destruct (key x <? key y)%float eqn:Hlt.
    + apply StronglySorted_cons. split; [|apply IH; assumption].
      rewrite insert_desc_perm. constructor; [left; exact Hlt|exact Hys].
    + apply StronglySorted_cons. split.
      * constructor.
        -- assert (Hyx : (key y <=? key x)%float = true) by (apply leb_total; assumption).
           rewrite leb_split in Hyx. apply orb_true_iff in Hyx as [H|H].
           ++ left. exact H.
           ++ right. split; [rewrite eqb_sym; exact H|exact Hxy].
        -- rewrite Forall_forall in Hys, Hpos |- *. intros z Hz.
           apply (before_weaken x y z); auto.
      * apply StronglySorted_cons. split; assumption.
Qed.

(** Sorting a list whose positions increase yields the ranking order:
    descending keys, ties in input order. *)
Lemma sort_desc_sorted l :
  Forall comparable l ->
  StronglySorted (fun x y => pos x < pos y) l ->
  StronglySorted before (sort_desc key l).
Proof.
  induction l as [|x l IH]; intros Hc Hpos; simpl; [constructor|].
  apply Forall_cons in Hc as [Hx Hc]. apply StronglySorted_cons in Hpos as [Hxl Hpos].
  apply insert_desc_sorted; auto.
  - rewrite Forall_forall in Hc |- *. intros y Hy. apply Hc, sort_desc_elem_of, Hy.
  - rewrite Forall_forall in Hxl |- *. intros y Hy. apply Hxl, sort_desc_elem_of, Hy.
Qed.

Lemma before_asym x y : before x y -> before y x -> False.
Proof.
  intros [H1|[H1 P1]] [H2|[H2 P2]].
  - apply ltb_asym in H1. congruence.
  - apply ltb_irrefl_eqb in H2. congruence.
  - apply ltb_irrefl_eqb in H1. congruence.
  - lia.
Qed.

(** The ranking order determines the list: two rankings of the same
    elements are equal. *)
Lemma ranked_unique l1 l2 :
  StronglySorted before l1 -> StronglySorted before l2 -> l1 ≡ₚ l2 -> l1 = l2.
Proof.
  apply StronglySorted_unique_strong.
  intros x1 x2 _ _ H1 H2. exfalso. eapply before_asym; eauto.
Qed.


(** Without positions: keys along the sorted list never increase. *)
Definition descending (x y : A) : Prop := (key y <=? key x)%float = true.

Lemma insert_desc_descending x s :
  comparable x -> Forall comparable s ->
  StronglySorted descending s -> StronglySorted descending (insert_desc key x s).
Proof.
  intros Hx. induction s as [|y s IH]; intros Hs Hsorted; simpl.
  - repeat constructor.
  - apply Forall_cons in Hs as [Hy Hs].
    apply StronglySorted_cons in Hsorted as [Hys Hsorted].
    destruct (key x <? key y)%float eqn:Hlt.
    + apply StronglySorted_cons. split; [|apply IH; assumption].
      rewrite insert_desc_perm. constructor; [apply ltb_leb, Hlt|exact Hys].
    + assert (Hyx : descending x y) by (apply leb_total; assumption).
      apply StronglySorted_cons. split.
      * constructor; [exact Hyx|].
        rewrite Forall_forall in Hys |- *. intros z Hz.
        eapply leb_trans; [apply Hys, Hz|exact Hyx].
      * apply StronglySorted_cons. split; assumption.
Qed.

Lemma sort_desc_descending l :
  Forall comparable l -> StronglySorted descending (sort_desc key l).
Proof.
  induction l as [|x l IH]; intros Hc; simpl; [constructor|].
  apply Forall_cons in Hc as [Hx Hc].
  apply insert_desc_descending; auto.
  rewrite Forall_forall in Hc |- *. intros y Hy. apply Hc, sort_desc_elem_of, Hy.
Qed.

End Ranking.

Lemma StronglySorted_omap {A B} (R : A -> A -> Prop) (R' : B -> B -> Prop)
    (f : A -> option B) (l : list A) :
  (forall x y a b, R x y -> f x = Some a -> f y = Some b -> R' a b) ->
  StronglySorted R l -> StronglySorted R' (omap f l).
Proof.
  intros Hf. induction 1 as [|x l Hs IH Hx]; [constructor|].
  cbn [omap list_omap]. destruct (f x) as [a|] eqn:Ea; [|exact IH].
  apply StronglySorted_cons. split; [|exact IH].
  apply Forall_forall. intros b Hb.
  apply list_elem_of_omap in Hb as (y & Hy & Eb).
  eapply Hf; [|exact Ea|exact Eb]. eapply Forall_forall in Hx; eauto.
Qed.

Lemma length_omap {A B} (f : A -> option B) (l : list A) :
  length (omap f l) <= length l.
Proof.
  induction l as [|x l IH]; [reflexivity|].
  cbn [omap list_omap]. destruct (f x); simpl; lia.
Qed.

End Ranking.

(* ===================================================================== *)
(** ** numpy on one-dimensional float64 arrays *)
(* ===================================================================== *)

Module Numpy.

(** [sum_i a_i * b_i], each product rounded and the sum accumulated from
    the left.  numpy hands the sum to its BLAS, which may accumulate in
    another order or with fused operations, so the last bits of a dot
    product, and a comparison with a threshold that hinges on them, can
    differ from this evaluation.  The statements below do not rest on
    those bits: they hold for whatever values the dot product and the
    norms take, or put their conditions on these values; the examples
    use vectors of at most two components whose sums are exact or
    overflow. *)
Definition inner (a b : list float) : float :=
  fold_left (fun acc xy => (acc + fst xy * snd xy)%float) (combine a b) 0%float.

(** [np.dot(a, b)]: shapes [(n,)] and [(m,)] with [n <> m] are not
    aligned, and the call raises [ValueError]. *)
Definition dot (a b : list float) : result float :=
  if Nat.eqb (length a) (length b) then Ok (inner a b) else Raise ValueError.

(** [np.linalg.norm(a)]: the square root of [a.dot(a)]. *)
Definition linalg_norm (a : list float) : float := sqrt (inner a a).

End Numpy.

(* ===================================================================== *)
(** ** backend/app/core/config.py *)
(* ===================================================================== *)

Module Config.

(** The fields of [Settings] the retrieval code reads.  Each can be
    overridden from the environment, so the code below takes the settings
    as an argument; [settings] holds the defaults. *)
Record Settings : Type := {
  SIMILARITY_THRESHOLD : float;
  MAX_RETRIEVED_DOCS : Z;
  CONFIDENCE_THRESHOLD : float;
  ESCALATION_THRESHOLD : float
}.

Definition settings : Settings := {|
  SIMILARITY_THRESHOLD := 0.7;
  MAX_RETRIEVED_DOCS := 5;
  CONFIDENCE_THRESHOLD := 0.8;
  ESCALATION_THRESHOLD := 0.5
|}.

End Config.

Export Config.

(* ===================================================================== *)
(** ** backend/app/rag/embeddings.py *)
(* ===================================================================== *)

Module Embeddings.

Open Scope float_scope.

(** The body of the [try] block of [calculate_similarity]. *)
Definition calculate_similarity_try (embedding1 embedding2 : list float) : result float :=
  dot_product ← Numpy.dot embedding1 embedding2;
  let norm_product := Numpy.linalg_norm embedding1 * Numpy.linalg_norm embedding2 in
  if norm_product =? 0 then mret 0
  else mret (dot_product / norm_product).

(** [EmbeddingService.calculate_similarity]. *)
Definition calculate_similarity (embedding1 embedding2 : list float) : result float :=
  try_except (calculate_similarity_try embedding1 embedding2) (fun _ => mret 0).

(** An entry [{'index': i, 'similarity': s}]. *)
Record Match : Type := { index : nat; similarity : float }.

(** The loop of [find_most_similar] over [enumerate(candidate_embeddings)],
    from position [i] on, appending to [similarities]. *)
Fixpoint scan_candidates (query_embedding : list float) (threshold : float) (i : nat)
    (candidate_embeddings : list (list float)) (similarities : list Match)
    : result (list Match) :=
  match candidate_embeddings with
  | [] => mret similarities
  | candidate :: rest =>
      s ← calculate_similarity query_embedding candidate;
      scan_candidates query_embedding threshold (S i) rest
        (if threshold <=? s
         then similarities ++ [{| index := i; similarity := s |}]
         else similarities)
  end.

(** [EmbeddingService.find_most_similar]. *)
Definition find_most_similar (cfg : Settings) (query_embedding : list float)
    (candidate_embeddings : list (list float)) (threshold : option float)
    : result (list Match) :=
  let threshold := default (SIMILARITY_THRESHOLD cfg) threshold in
  similarities ← scan_candidates query_embedding threshold 0 candidate_embeddings [];
  let similarities := sort_desc similarity similarities in
  mret (slice_to similarities (MAX_RETRIEVED_DOCS cfg)).

(** *** [calculate_similarity] *)

(** The value [calculate_similarity] hands back. *)
Definition similarity_of (embedding1 embedding2 : list float) : float :=
  match calculate_similarity embedding1 embedding2 with
  | Ok s => s
  | Raise _ => 0
  end.

(** The handler turns every exception of the [try] block into [0.0], so
    the call itself never raises. *)
Lemma calculate_similarity_total (a b : list float) :
  calculate_similarity a b = Ok (similarity_of a b).
Proof.
  unfold similarity_of, calculate_similarity, try_except.
  destruct (calculate_similarity_try a b); reflexivity.
Qed.

Lemma calculate_similarity_returns (a b : list float) :
  returns (calculate_similarity a b).
Proof. eexists. apply calculate_similarity_total. Qed.

Lemma calculate_similarity_aligned (a b : list float) :
  length a = length b ->
  calculate_similarity a b =
    Ok (let norm_product := Numpy.linalg_norm a * Numpy.linalg_norm b in
        if norm_product =? 0 then 0 else Numpy.inner a b / norm_product).
Proof.
  intros Hlen. unfold calculate_similarity, calculate_similarity_try, Numpy.dot.
  rewrite Hlen, Nat.eqb_refl. simpl.
  destruct (_ =? 0); reflexivity.
Qed.

(** C4 (as the code behaves): embeddings of unequal dimensionality do not
    make [calculate_similarity] fail.  [np.dot] raises [ValueError], the
    [except Exception] clause catches it, and the call returns [0.0]. *)
Theorem calculate_similarity_dimension_mismatch (a b : list float) :
  length a <> length b -> calculate_similarity a b = Ok 0.
Proof.
  intros Hlen. unfold calculate_similarity, calculate_similarity_try, Numpy.dot.
  destruct (Nat.eqb_spec (length a) (length b)) as [E|_]; [contradiction|].
  reflexivity.
Qed.

Lemma calculate_similarity_dimension_mismatch_witness :
  calculate_similarity [1] [1; 2] = Ok 0.
Proof.
  apply (calculate_similarity_dimension_mismatch [1] [1; 2]).
  simpl. discriminate.
Defined.

(** C4 as stated fails: for the embeddings [[1.0]] and [[1.0, 2.0]], of
    dimensions 1 and 2, the call returns the number [0.0] and raises
    nothing. *)
Lemma dimension_mismatch_is_not_an_error :
  length [1] <> length [1; 2] /\
  calculate_similarity [1] [1; 2] = Ok 0 /\
  ~ raises (calculate_similarity [1] [1; 2]).
Proof.
  split; [simpl; discriminate|]. split; [reflexivity|].
  apply returns_not_raises. eexists. reflexivity.
Qed.

(** C8 (as the code behaves): [calculate_similarity] never raises; and
    for embeddings of equal dimension, when one norm is zero and the other
    norm is finite, the guard on the norm product fires and the call
    returns exactly [0.0]. *)
Theorem calculate_similarity_zero_norm (a b : list float) :
  returns (calculate_similarity a b) /\
  (length a = length b ->
   (Numpy.linalg_norm a =? 0) = true /\ is_finite (Numpy.linalg_norm b) = true \/
   is_finite (Numpy.linalg_norm a) = true /\ (Numpy.linalg_norm b =? 0) = true ->
   calculate_similarity a b = Ok 0).
Proof.
  split; [apply calculate_similarity_returns|].
  intros Hlen H. rewrite calculate_similarity_aligned by exact Hlen. cbv zeta.
  assert (Hz : (Numpy.linalg_norm a * Numpy.linalg_norm b =? 0) = true).
  { destruct H as [[Ha Hb]|[Ha Hb]].
    - apply FloatFacts.mul_zero_finite; assumption.
    - apply FloatFacts.mul_finite_zero; assumption. }
  rewrite Hz. reflexivity.
Qed.

Lemma calculate_similarity_zero_norm_witness :
  calculate_similarity [0; 0] [3; 4] = Ok 0.
Proof.
  destruct (calculate_similarity_zero_norm [0; 0] [3; 4]) as [_ H].
  apply H.
  - reflexivity.
  - left. split; reflexivity.
Defined.

(** X2: for embeddings of equal dimension, when one norm is zero and the
    other is infinite or NaN, whichever of the two embeddings has the
    zero norm, the norm product is NaN, the guard on it does not fire,
    and [calculate_similarity] returns NaN. *)
Lemma calculate_similarity_zero_norm_nonfinite (a b : list float) :
  length a = length b ->
  (Numpy.linalg_norm a =? 0) = true /\ is_finite (Numpy.linalg_norm b) = false \/
  is_finite (Numpy.linalg_norm a) = false /\ (Numpy.linalg_norm b =? 0) = true ->
  calculate_similarity a b = Ok nan.
Proof.
  intros Hlen H. rewrite calculate_similarity_aligned by exact Hlen. cbv zeta.
  assert (Hnan : is_nan (Numpy.linalg_norm a * Numpy.linalg_norm b) = true).
  { destruct H as [[Ha Hb]|[Ha Hb]].
    - apply FloatFacts.mul_zero_nonfinite; assumption.
    - apply FloatFacts.mul_nonfinite_zero; assumption. }
  rewrite (FloatFacts.nan_eqb _ 0 Hnan). f_equal.
  apply FloatFacts.is_nan_eq, FloatFacts.div_nan_r, Hnan.
Qed.

(** C8 as stated fails: [[0.0]] has norm zero and the same dimension as
    [[1e200]], whose squared norm overflows to [inf]; the norm product
    [0.0 * inf] is NaN, which is not [== 0], and the call returns NaN. *)
Lemma zero_norm_similarity_can_be_nan :
  length [0] = length [1e200] /\
  (Numpy.linalg_norm [0] =? 0) = true /\
  calculate_similarity [0] [1e200] = Ok nan /\
  calculate_similarity [0] [1e200] <> Ok 0.
Proof. repeat split; try reflexivity. vm_compute. discriminate. Qed.

(** *** [find_most_similar] *)

(** Every candidate from position [i] on, with its similarity to the query. *)
Definition scored (query_embedding : list float) (i : nat)
    (candidate_embeddings : list (list float)) : list Match :=
  imap (fun j c => {| index := i + j; similarity := similarity_of query_embedding c |})
       candidate_embeddings.

Definition meets (threshold : float) (m : Match) : Prop :=
  (threshold <=? similarity m) = true.

#[global] Instance meets_dec threshold m : Decision (meets threshold m).
Proof. unfold meets. apply _. Defined.

(** [m1] is ranked before [m2]: larger similarity, or equal similarity and
    an earlier candidate. *)
Definition ranks_before : Match -> Match -> Prop := Ranking.before similarity index.

Lemma scored_cons q i c cands :
  scored q i (c :: cands) =
    {| index := i; similarity := similarity_of q c |} :: scored q (S i) cands.
Proof.
  unfold scored. rewrite imap_cons, Nat.add_0_r. f_equal.
  apply imap_ext. intros j x _. simpl. f_equal. lia.
Qed.

(** The loop compares the query with every candidate and keeps exactly
    those that meet the threshold, in candidate order. *)
Lemma scan_candidates_eq q t i cands acc :
  scan_candidates q t i cands acc = Ok (acc ++ filter (meets t) (scored q i cands)).
Proof.
  revert i acc. induction cands as [|c cands IH]; intros i acc.
  - simpl. rewrite app_nil_r. reflexivity.
  - cbn [scan_candidates]. rewrite calculate_similarity_total. cbn [mbind result_bind].
    rewrite IH, scored_cons, filter_cons.
    destruct (decide (meets t {| index := i; similarity := similarity_of q c |})) as [H|H];
      unfold meets in H; cbn [similarity] in H.
    + rewrite H, <- app_assoc. reflexivity.
    + apply not_true_is_false in H. rewrite H. reflexivity.
Qed.

Lemma scored_lookup q i cands m :
  m ∈ scored q i cands <->
  exists j c, cands !! j = Some c /\
    m = {| index := i + j; similarity := similarity_of q c |}.
Proof.
  unfold scored. rewrite elem_of_lookup_imap.
  split; intros (j & c & H1 & H2); exists j, c; auto.
Qed.

Lemma scored_increasing q i cands :
  StronglySorted (fun x y => index x < index y) (scored q i cands).
Proof.
  revert i. induction cands as [|c cands IH]; intros i.
  - constructor.
  - rewrite scored_cons. apply StronglySorted_cons. split; [|apply IH].
    rewrite Forall_forall. intros m Hm.
    apply scored_lookup in Hm as (j & c' & _ & ->). simpl. lia.
Qed.

Lemma StronglySorted_filter {A} (R : A -> A -> Prop) (P : A -> Prop)
    `{forall x, Decision (P x)} (l : list A) :
  StronglySorted R l -> StronglySorted R (filter P l).
Proof.
  induction 1 as [|x l Hs IH Hx]; [constructor|].
  rewrite filter_cons. destruct (decide (P x)); [|exact IH].
  apply StronglySorted_cons. split; [|exact IH].
  rewrite Forall_forall in Hx |- *. intros y Hy.
  apply Hx. apply list_elem_of_filter in Hy as [_ Hy]. exact Hy.
Qed.

Lemma meets_comparable t m : meets t m -> Ranking.comparable similarity m.
Proof. intros H. apply FloatFacts.leb_notnan in H as [_ H]. exact H. Qed.

(** The closed form of [find_most_similar]: score every candidate, keep
    those meeting the threshold, sort, cut. *)
Lemma find_most_similar_eq cfg q cands th :
  find_most_similar cfg q cands th =
    Ok (slice_to
          (sort_desc similarity
             (filter (meets (default (SIMILARITY_THRESHOLD cfg) th)) (scored q 0 cands)))
          (MAX_RETRIEVED_DOCS cfg)).
Proof.
  unfold find_most_similar. rewrite scan_candidates_eq. reflexivity.
Qed.

Lemma ranked_candidates_sorted q t cands :
  StronglySorted ranks_before (sort_desc similarity (filter (meets t) (scored q 0 cands))).
Proof.
  apply Ranking.sort_desc_sorted.
  - rewrite Forall_forall. intros m Hm.
    apply list_elem_of_filter in Hm as [Hm _]. eapply meets_comparable, Hm.
  - apply StronglySorted_filter, scored_increasing.
Qed.

(** X3: with a negative [MAX_RETRIEVED_DOCS] the slice keeps all ranked
    entries but the last [-limit].  [find_most_similar] returns the stable
    descending ranking of the candidates that meet the threshold without
    its last [-limit] entries: of [k] such candidates it returns
    [k - (-limit)], and none exactly when [k <= -limit]. *)
Lemma find_most_similar_negative_limit cfg q cands th :
  (MAX_RETRIEVED_DOCS cfg < 0)%Z ->
  let kept := filter (meets (default (SIMILARITY_THRESHOLD cfg) th)) (scored q 0 cands) in
  let ranked := sort_desc similarity kept in
  let dropped := Z.to_nat (- MAX_RETRIEVED_DOCS cfg) in
  exists out,
    find_most_similar cfg q cands th = Ok out /\
    out = take (length ranked - dropped) ranked /\
    length out = (length kept - dropped)%nat /\
    (out = [] <-> (length kept <= dropped)%nat).
Proof.
  intros Hneg kept ranked dropped.
  assert (Hlen : length ranked = length kept)
    by (unfold ranked; rewrite Ranking.sort_desc_perm; reflexivity).
  exists (take (length ranked - dropped) ranked).
  assert (Hout : length (take (length ranked - dropped) ranked)
                 = (length kept - dropped)%nat)
    by (rewrite length_take; lia).
  split; [|split; [reflexivity|split; [exact Hout|]]].
  - rewrite find_most_similar_eq. fold kept. fold ranked.
    rewrite slice_to_negative by exact Hneg. reflexivity.
  - split.
    + intros Hnil. rewrite Hnil in Hout. cbn [length] in Hout. lia.
    + intros Hle. apply length_zero_iff_nil. lia.
Qed.

(** Any stable descending sort of the entries that meet the threshold
    yields the list [find_most_similar] cuts. *)
Lemma ranked_candidates_unique q t cands l :
  l ≡ₚ filter (meets t) (scored q 0 cands) ->
  StronglySorted ranks_before l ->
  l = sort_desc similarity (filter (meets t) (scored q 0 cands)).
Proof.
  intros Hperm Hsorted.
  apply (Ranking.ranked_unique similarity index); [exact Hsorted| |].
  - apply ranked_candidates_sorted.
  - rewrite Ranking.sort_desc_perm. exact Hperm.
Qed.



Close Scope float_scope.

End Embeddings.

(* ===================================================================== *)
(** ** Calls to the embedding model, recorded *)
(* ===================================================================== *)

Module Trace.

(** A computation that may raise, together with the texts it passed to
    [EmbeddingService.generate_embedding], in call order. *)
Definition traced (A : Type) : Type := (result A * list string)%type.

#[global] Instance traced_ret : MRet traced := fun A a => (Ok a, []).
#[global] Instance traced_bind : MBind traced := fun A B f m =>
  match m with
  | (Ok a, calls) => let '(r, calls') := f a in (r, calls ++ calls')
  | (Raise e, calls) => (Raise e, calls)
  end.

Definition lift {A} (r : result A) : traced A := (r, []).

(** [try: body except Exception as e: handler e]; the calls made by the
    body before it raised have happened all the same. *)
Definition try_except_traced {A} (body : traced A) (handler : exn -> traced A) : traced A :=
  match body with
  | (Ok a, calls) => (Ok a, calls)
  | (Raise e, calls) => let '(r, calls') := handler e in (r, calls ++ calls')
  end.

Definition outcome {A} (m : traced A) : result A := fst m.
Definition embedded {A} (m : traced A) : list string := snd m.

End Trace.

Export Trace.

(* ===================================================================== *)
(** ** backend/app/db/models.py: the rows the retriever reads *)
(* ===================================================================== *)

Module Ticket.
Record t : Type := { id : Z; title : string; description : string }.
End Ticket.

Module KnowledgeBase.
Record t : Type := {
  id : Z;
  title : string;
  content : string;
  category : option string;
  is_active : bool
}.
End KnowledgeBase.

Module TicketEmbedding.
Record t : Type := { ticket_id : Z; embedding_vector : list float }.
End TicketEmbedding.

Module KnowledgeEmbedding.
Record t : Type := { knowledge_id : Z; embedding_vector : list float }.
End KnowledgeEmbedding.

Module Session.
(** The tables behind a database session, each in the order a query
    returns its rows.  [id] is the primary key of [tickets] and of
    [knowledge_base].  Queries are taken to succeed; one that raised
    would end in the handler of the calling method, as a failed embedding
    does. *)
Record t : Type := {
  tickets : list Ticket.t;
  knowledge_base : list KnowledgeBase.t;
  ticket_embeddings : list TicketEmbedding.t;
  knowledge_embeddings : list KnowledgeEmbedding.t
}.

(** [db.query(Ticket).filter(Ticket.id == i).first()]. *)
Definition ticket_by_id (db : t) (i : Z) : option Ticket.t :=
  snd <$> list_find (fun tk => Ticket.id tk = i) (tickets db).

(** [db.query(KnowledgeBase).filter(KnowledgeBase.id == i).first()]. *)
Definition knowledge_by_id (db : t) (i : Z) : option KnowledgeBase.t :=
  snd <$> list_find (fun kb => KnowledgeBase.id kb = i) (knowledge_base db).
End Session.

(* ===================================================================== *)
(** ** backend/app/rag/retriever.py *)
(* ===================================================================== *)

Module Retriever.

Import Embeddings.
Open Scope float_scope.

(** [EmbeddingService]: the loaded model, or [None]. *)
Record EmbeddingService : Type := {
  model : option (string -> result (list float))
}.

(** [EmbeddingService.generate_embedding]: an exception of the model is
    logged and raised again. *)
Definition generate_embedding (svc : EmbeddingService) (text : string) : traced (list float) :=
  (match model svc with
   | None => Raise ValueError
   | Some encode => try_except (encode text) (fun e => Raise e)
   end, [text]).

(** Python truthiness of an optional integer argument. *)
Definition truthy (x : option Z) : bool :=
  match x with
  | Some n => negb (n =? 0)%Z
  | None => false
  end.

Module TicketSim.
(** [{'ticket_id': _, 'similarity': _, 'ticket_embedding': _}]. *)
Record t : Type := {
  ticket_id : Z;
  similarity : float;
  ticket_embedding : TicketEmbedding.t
}.
End TicketSim.

Module TicketHit.
(** [{'ticket': _, 'similarity': _}]. *)
Record t : Type := { ticket : Ticket.t; similarity : float }.
End TicketHit.

Module KnowledgeSim.
(** [{'knowledge_id': _, 'similarity': _, 'knowledge_embedding': _}]. *)
Record t : Type := {
  knowledge_id : Z;
  similarity : float;
  knowledge_embedding : KnowledgeEmbedding.t
}.
End KnowledgeSim.

Module KnowledgeHit.
(** [{'knowledge': _, 'similarity': _}]. *)
Record t : Type := { knowledge : KnowledgeBase.t; similarity : float }.
End KnowledgeHit.

(** [db.query(TicketEmbedding).join(Ticket)], then
    [.filter(Ticket.id != exclude_ticket_id)] when that argument is
    truthy, then [.all()]. *)
Definition ticket_embeddings_query (db : Session.t) (exclude_ticket_id : option Z)
    : list TicketEmbedding.t :=
  let joined :=
    filter (fun te => is_Some (Session.ticket_by_id db (TicketEmbedding.ticket_id te)))
           (Session.ticket_embeddings db) in
  if truthy exclude_ticket_id
  then filter (fun te => Some (TicketEmbedding.ticket_id te) <> exclude_ticket_id) joined
  else joined.

(** The similarity loop of [find_similar_tickets]. *)
Fixpoint ticket_similarities (cfg : Settings) (query_embedding : list float)
    (ticket_embeddings : list TicketEmbedding.t) (similarities : list TicketSim.t)
    : result (list TicketSim.t) :=
  match ticket_embeddings with
  | [] => mret similarities
  | te :: rest =>
      s ← calculate_similarity query_embedding (TicketEmbedding.embedding_vector te);
      ticket_similarities cfg query_embedding rest
        (if SIMILARITY_THRESHOLD cfg <=? s
         then similarities ++
              [{| TicketSim.ticket_id := TicketEmbedding.ticket_id te;
                  TicketSim.similarity := s;
                  TicketSim.ticket_embedding := te |}]
         else similarities)
  end.

(** The loop of [find_similar_tickets] that fetches the ticket of each
    kept entry. *)
Fixpoint ticket_details (db : Session.t) (sims : list TicketSim.t)
    (similar_tickets : list TicketHit.t) : list TicketHit.t :=
  match sims with
  | [] => similar_tickets
  | sim :: rest =>
      ticket_details db rest
        (match Session.ticket_by_id db (TicketSim.ticket_id sim) with
         | Some ticket =>
             similar_tickets ++
             [{| TicketHit.ticket := ticket; TicketHit.similarity := TicketSim.similarity sim |}]
         | None => similar_tickets
         end)
  end.

(** [TicketRetriever.find_similar_tickets]. *)
Definition find_similar_tickets (cfg : Settings) (svc : EmbeddingService) (db : Session.t)
    (query : string) (limit : option Z) (exclude_ticket_id : option Z)
    : traced (list TicketHit.t) :=
  let limit := default (MAX_RETRIEVED_DOCS cfg) limit in
  try_except_traced
    (query_embedding ← generate_embedding svc query;
     let ticket_embeddings := ticket_embeddings_query db exclude_ticket_id in
     match ticket_embeddings with
     | [] => mret []
     | _ =>
         similarities ← lift (ticket_similarities cfg query_embedding ticket_embeddings []);
         let similarities := sort_desc TicketSim.similarity similarities in
         mret (ticket_details db (slice_to similarities limit) [])
     end)
    (fun _ => mret []).

(** Python truthiness of an optional string argument. *)
Definition truthy_str (x : option string) : bool :=
  match x with
  | Some s => negb (String.eqb s EmptyString)
  | None => false
  end.

(** A row of [KnowledgeEmbedding] joined with its [KnowledgeBase] row,
    when that row passes [keep]. *)
Definition joined_knowledge (db : Session.t) (keep : KnowledgeBase.t -> bool)
    (ke : KnowledgeEmbedding.t) : bool :=
  match Session.knowledge_by_id db (KnowledgeEmbedding.knowledge_id ke) with
  | Some kb => keep kb
  | None => false
  end.

(** [db.query(KnowledgeEmbedding).join(KnowledgeBase)], filtered by
    category when that argument is truthy and by
    [KnowledgeBase.is_active == True], then [.all()]. *)
Definition knowledge_embeddings_query (db : Session.t) (category : option string)
    : list KnowledgeEmbedding.t :=
  let keep :=
    if truthy_str category
    then fun kb => bool_decide (KnowledgeBase.category kb = category)
                   && KnowledgeBase.is_active kb
    else KnowledgeBase.is_active in
  filter (fun ke => joined_knowledge db keep ke = true) (Session.knowledge_embeddings db).

(** The similarity loop of [find_relevant_knowledge]. *)
Fixpoint knowledge_similarities (cfg : Settings) (query_embedding : list float)
    (kb_embeddings : list KnowledgeEmbedding.t) (similarities : list KnowledgeSim.t)
    : result (list KnowledgeSim.t) :=
  match kb_embeddings with
  | [] => mret similarities
  | ke :: rest =>
      s ← calculate_similarity query_embedding (KnowledgeEmbedding.embedding_vector ke);
      knowledge_similarities cfg query_embedding rest
        (if SIMILARITY_THRESHOLD cfg <=? s
         then similarities ++
              [{| KnowledgeSim.knowledge_id := KnowledgeEmbedding.knowledge_id ke;
                  KnowledgeSim.similarity := s;
                  KnowledgeSim.knowledge_embedding := ke |}]
         else similarities)
  end.

(** The loop of [find_relevant_knowledge] that fetches the article of each
    kept entry. *)
Fixpoint knowledge_details (db : Session.t) (sims : list KnowledgeSim.t)
    (relevant_knowledge : list KnowledgeHit.t) : list KnowledgeHit.t :=
  match sims with
  | [] => relevant_knowledge
  | sim :: rest =>
      knowledge_details db rest
        (match Session.knowledge_by_id db (KnowledgeSim.knowledge_id sim) with
         | Some knowledge =>
             relevant_knowledge ++
             [{| KnowledgeHit.knowledge := knowledge;
                 KnowledgeHit.similarity := KnowledgeSim.similarity sim |}]
         | None => relevant_knowledge
         end)
  end.

(** [TicketRetriever.find_relevant_knowledge]. *)
Definition find_relevant_knowledge (cfg : Settings) (svc : EmbeddingService) (db : Session.t)
    (query : string) (limit : option Z) (category : option string)
    : traced (list KnowledgeHit.t) :=
  let limit := default (MAX_RETRIEVED_DOCS cfg) limit in
  try_except_traced
    (query_embedding ← generate_embedding svc query;
     let kb_embeddings := knowledge_embeddings_query db category in
     match kb_embeddings with
     | [] => mret []
     | _ =>
         similarities ← lift (knowledge_similarities cfg query_embedding kb_embeddings []);
         let similarities := sort_desc KnowledgeSim.similarity similarities in
         mret (knowledge_details db (slice_to similarities limit) [])
     end)
    (fun _ => mret []).

(** The dictionary [hybrid_search] returns. *)
Record SearchResults : Type := {
  similar_tickets : list TicketHit.t;
  relevant_knowledge : list KnowledgeHit.t;
  total_results : nat
}.

(** [TicketRetriever.hybrid_search]. *)
Definition hybrid_search (cfg : Settings) (svc : EmbeddingService) (db : Session.t)
    (query : string) (limit : option Z) (exclude_ticket_id : option Z)
    : traced SearchResults :=
  let limit := default (MAX_RETRIEVED_DOCS cfg) limit in
  let ticket_limit := (limit `div` 2)%Z in
  let knowledge_limit := (limit - ticket_limit)%Z in
  similar_tickets ← find_similar_tickets cfg svc db query (Some ticket_limit) exclude_ticket_id;
  relevant_knowledge ← find_relevant_knowledge cfg svc db query (Some knowledge_limit) None;
  mret {| similar_tickets := similar_tickets;
          relevant_knowledge := relevant_knowledge;
          total_results := length similar_tickets + length relevant_knowledge |}.

(** *** Closed forms of the loops *)

Definition row_similarity (q : list float) (te : TicketEmbedding.t) : float :=
  similarity_of q (TicketEmbedding.embedding_vector te).

Definition ticket_sim (q : list float) (te : TicketEmbedding.t) : TicketSim.t :=
  {| TicketSim.ticket_id := TicketEmbedding.ticket_id te;
     TicketSim.similarity := row_similarity q te;
     TicketSim.ticket_embedding := te |}.

Definition row_meets (cfg : Settings) (q : list float) (te : TicketEmbedding.t) : Prop :=
  (SIMILARITY_THRESHOLD cfg <=? row_similarity q te) = true.

#[global] Instance row_meets_dec cfg q te : Decision (row_meets cfg q te).
Proof. unfold row_meets. apply _. Defined.

Definition ticket_hit (db : Session.t) (sim : TicketSim.t) : option TicketHit.t :=
  (fun ticket => {| TicketHit.ticket := ticket;
                    TicketHit.similarity := TicketSim.similarity sim |})
    <$> Session.ticket_by_id db (TicketSim.ticket_id sim).

Lemma ticket_similarities_eq cfg q rows acc :
  ticket_similarities cfg q rows acc =
    Ok (acc ++ (ticket_sim q <$> filter (row_meets cfg q) rows)).
Proof.
  revert acc. induction rows as [|te rows IH]; intros acc.
  - simpl. rewrite app_nil_r. reflexivity.
  - cbn [ticket_similarities]. rewrite calculate_similarity_total.
    cbn [mbind result_bind]. rewrite IH, filter_cons.
    destruct (decide (row_meets cfg q te)) as [H|H]; unfold row_meets, row_similarity in H.
    + rewrite H, <- app_assoc. reflexivity.
    + apply not_true_is_false in H. rewrite H. reflexivity.
Qed.

Lemma ticket_details_eq db sims acc :
  ticket_details db sims acc = acc ++ omap (ticket_hit db) sims.
Proof.
  revert acc. induction sims as [|sim sims IH]; intros acc.
  - simpl. rewrite app_nil_r. reflexivity.
  - cbn [ticket_details omap list_omap]. rewrite IH. unfold ticket_hit at 2.
    destruct (Session.ticket_by_id db (TicketSim.ticket_id sim)); simpl.
    + rewrite <- app_assoc. reflexivity.
    + reflexivity.
Qed.

(** What the embedding model answers for the query. *)
Definition embedding_of (svc : EmbeddingService) (query : string) : result (list float) :=
  outcome (generate_embedding svc query).

(** The tickets of the rows that meet the threshold, ranked. *)
Definition ranked_tickets (cfg : Settings) (db : Session.t) (exclude_ticket_id : option Z)
    (q : list float) : list TicketSim.t :=
  sort_desc TicketSim.similarity
    (ticket_sim q <$> filter (row_meets cfg q) (ticket_embeddings_query db exclude_ticket_id)).

(** [find_similar_tickets] makes one call to the embedding model and never
    raises: a failed embedding yields no tickets, a successful one the
    ranked tickets cut at [limit]. *)
Lemma find_similar_tickets_eq cfg svc db query limit exclude :
  find_similar_tickets cfg svc db query limit exclude =
    (Ok match embedding_of svc query with
        | Ok q => omap (ticket_hit db)
                    (slice_to (ranked_tickets cfg db exclude q)
                              (default (MAX_RETRIEVED_DOCS cfg) limit))
        | Raise _ => []
        end,
     [query]).
Proof.
  unfold find_similar_tickets, embedding_of, outcome, generate_embedding, ranked_tickets.
  cbn [fst].
  destruct (match model svc with
            | Some encode => try_except (encode query) (fun e => Raise e)
            | None => Raise ValueError
            end) as [q|e]; [|reflexivity].
  cbn [mbind traced_bind].
  destruct (ticket_embeddings_query db exclude) as [|te rows] eqn:Erows.
  - rewrite filter_nil. cbn. unfold slice_to. rewrite slice_nil. reflexivity.
  - unfold lift. rewrite ticket_similarities_eq.
    cbn [mbind traced_bind mret traced_ret try_except_traced app].
    rewrite ticket_details_eq. reflexivity.
Qed.

Definition hit_meets (cfg : Settings) (h : TicketHit.t) : Prop :=
  (SIMILARITY_THRESHOLD cfg <=? TicketHit.similarity h) = true.

Lemma ticket_by_id_id db i ticket :
  Session.ticket_by_id db i = Some ticket -> Ticket.id ticket = i.
Proof.
  unfold Session.ticket_by_id. intros H.
  apply fmap_Some in H as ([j tk] & Hfind & ->).
  apply list_find_Some in Hfind as (_ & Hid & _). exact Hid.
Qed.

Lemma ranked_tickets_elem_of cfg db exclude q sim :
  sim ∈ ranked_tickets cfg db exclude q <->
  exists te, te ∈ ticket_embeddings_query db exclude /\ row_meets cfg q te /\
             sim = ticket_sim q te.
Proof.
  unfold ranked_tickets. rewrite Ranking.sort_desc_elem_of, list_elem_of_fmap.
  split.
  - intros (te & -> & Hte). apply list_elem_of_filter in Hte as [H1 H2]. eauto.
  - intros (te & H1 & H2 & ->). exists te. split; [reflexivity|].
    apply list_elem_of_filter. auto.
Qed.

Lemma ranked_tickets_descending cfg db exclude q :
  StronglySorted (Ranking.descending TicketSim.similarity) (ranked_tickets cfg db exclude q).
Proof.
  apply Ranking.sort_desc_descending. rewrite Forall_forall. intros sim Hsim.
  apply list_elem_of_fmap in Hsim as (te & -> & Hte).
  apply list_elem_of_filter in Hte as [Hte _].
  apply FloatFacts.leb_notnan in Hte as [_ Hte]. exact Hte.
Qed.

Lemma excluded_not_queried db exclude te :
  truthy exclude = true -> te ∈ ticket_embeddings_query db exclude ->
  Some (TicketEmbedding.ticket_id te) <> exclude.
Proof.
  unfold ticket_embeddings_query. intros -> Hte.
  apply list_elem_of_filter in Hte as [Hte _]. exact Hte.
Qed.

(** The ranking contract on the retriever: [find_similar_tickets] returns
    normally; every ticket returned has a similarity of at least the
    configured threshold; similarities never increase along the result;
    a truthy [exclude_ticket_id] is the id of no ticket returned; and a
    limit that is not negative bounds the number of tickets. *)
Theorem find_similar_tickets_ranking (cfg : Settings) (svc : EmbeddingService)
    (db : Session.t) (query : string) (limit exclude_ticket_id : option Z) :
  exists out,
    find_similar_tickets cfg svc db query limit exclude_ticket_id = (Ok out, [query]) /\
    Forall (hit_meets cfg) out /\
    StronglySorted (Ranking.descending TicketHit.similarity) out /\
    (truthy exclude_ticket_id = true ->
     Forall (fun h => Some (Ticket.id (TicketHit.ticket h)) <> exclude_ticket_id) out) /\
    ((0 <= default (MAX_RETRIEVED_DOCS cfg) limit)%Z ->
     (Z.of_nat (length out) <= default (MAX_RETRIEVED_DOCS cfg) limit)%Z).
Proof.
  eexists. split; [apply find_similar_tickets_eq|].
  destruct (embedding_of svc query) as [q|e].
  2:{ repeat split; intros; try constructor. simpl. lia. }
  set (L := default (MAX_RETRIEVED_DOCS cfg) limit).
  assert (Hhit : forall h, h ∈ omap (ticket_hit db)
                                 (slice_to (ranked_tickets cfg db exclude_ticket_id q) L) ->
            exists te, te ∈ ticket_embeddings_query db exclude_ticket_id /\
                       row_meets cfg q te /\
                       TicketHit.similarity h = row_similarity q te /\
                       Ticket.id (TicketHit.ticket h) = TicketEmbedding.ticket_id te).
  { intros h Hh. apply list_elem_of_omap in Hh as (sim & Hsim & Hh).
    apply slice_elem_of, ranked_tickets_elem_of in Hsim as (te & H1 & H2 & ->).
    exists te. unfold ticket_hit in Hh. cbn [TicketSim.ticket_id ticket_sim] in Hh.
    destruct (Session.ticket_by_id db (TicketEmbedding.ticket_id te)) as [tk|] eqn:Etk;
      [|discriminate].
    injection Hh as <-. cbn. repeat split; auto.
    apply ticket_by_id_id in Etk. exact Etk. }
  repeat split.
  - rewrite Forall_forall. intros h Hh.
    apply Hhit in Hh as (te & _ & Hm & Hs & _). unfold hit_meets. rewrite Hs. exact Hm.
  - eapply Ranking.StronglySorted_omap;
      [|apply slice_StronglySorted, ranked_tickets_descending].
    intros x y a b Hxy Ha Hb. unfold ticket_hit in Ha, Hb.
    apply fmap_Some in Ha as (? & _ & ->). apply fmap_Some in Hb as (? & _ & ->).
    exact Hxy.
  - intros Hex. rewrite Forall_forall. intros h Hh.
    apply Hhit in Hh as (te & Hte & _ & _ & Hid). rewrite Hid.
    eapply excluded_not_queried; eauto.
  - intros HL. etransitivity; [apply inj_le, Ranking.length_omap|].
    rewrite slice_to_nonneg by exact HL. rewrite length_take. lia.
Qed.

(** *** [find_relevant_knowledge] and [hybrid_search] *)

Definition article_similarity (q : list float) (ke : KnowledgeEmbedding.t) : float :=
  similarity_of q (KnowledgeEmbedding.embedding_vector ke).

Definition knowledge_sim (q : list float) (ke : KnowledgeEmbedding.t) : KnowledgeSim.t :=
  {| KnowledgeSim.knowledge_id := KnowledgeEmbedding.knowledge_id ke;
     KnowledgeSim.similarity := article_similarity q ke;
     KnowledgeSim.knowledge_embedding := ke |}.

Definition article_meets (cfg : Settings) (q : list float) (ke : KnowledgeEmbedding.t) : Prop :=
  (SIMILARITY_THRESHOLD cfg <=? article_similarity q ke) = true.

#[global] Instance article_meets_dec cfg q ke : Decision (article_meets cfg q ke).
Proof. unfold article_meets. apply _. Defined.

Definition knowledge_hit (db : Session.t) (sim : KnowledgeSim.t) : option KnowledgeHit.t :=
  (fun knowledge => {| KnowledgeHit.knowledge := knowledge;
                       KnowledgeHit.similarity := KnowledgeSim.similarity sim |})
    <$> Session.knowledge_by_id db (KnowledgeSim.knowledge_id sim).

Lemma knowledge_similarities_eq cfg q rows acc :
  knowledge_similarities cfg q rows acc =
    Ok (acc ++ (knowledge_sim q <$> filter (article_meets cfg q) rows)).
Proof.
  revert acc. induction rows as [|ke rows IH]; intros acc.
  - simpl. rewrite app_nil_r. reflexivity.
  - cbn [knowledge_similarities]. rewrite calculate_similarity_total.
    cbn [mbind result_bind]. rewrite IH, filter_cons.
    destruct (decide (article_meets cfg q ke)) as [H|H];
      unfold article_meets, article_similarity in H.
    + rewrite H, <- app_assoc. reflexivity.
    + apply not_true_is_false in H. rewrite H. reflexivity.
Qed.

Lemma knowledge_details_eq db sims acc :
  knowledge_details db sims acc = acc ++ omap (knowledge_hit db) sims.
Proof.
  revert acc. induction sims as [|sim sims IH]; intros acc.
  - simpl. rewrite app_nil_r. reflexivity.
  - cbn [knowledge_details omap list_omap]. rewrite IH. unfold knowledge_hit at 2.
    destruct (Session.knowledge_by_id db (KnowledgeSim.knowledge_id sim)); simpl.
    + rewrite <- app_assoc. reflexivity.
    + reflexivity.
Qed.

Definition ranked_knowledge (cfg : Settings) (db : Session.t) (category : option string)
    (q : list float) : list KnowledgeSim.t :=
  sort_desc KnowledgeSim.similarity
    (knowledge_sim q <$> filter (article_meets cfg q) (knowledge_embeddings_query db category)).

Lemma find_relevant_knowledge_eq cfg svc db query limit category :
  find_relevant_knowledge cfg svc db query limit category =
    (Ok match embedding_of svc query with
        | Ok q => omap (knowledge_hit db)
                    (slice_to (ranked_knowledge cfg db category q)
                              (default (MAX_RETRIEVED_DOCS cfg) limit))
        | Raise _ => []
        end,
     [query]).
Proof.
  unfold find_relevant_knowledge, embedding_of, outcome, generate_embedding, ranked_knowledge.
  cbn [fst].
  destruct (match model svc with
            | Some encode => try_except (encode query) (fun e => Raise e)
            | None => Raise ValueError
            end) as [q|e]; [|reflexivity].
  cbn [mbind traced_bind].
  destruct (knowledge_embeddings_query db category) as [|ke rows] eqn:Erows.
  - rewrite filter_nil. cbn. unfold slice_to. rewrite slice_nil. reflexivity.
  - unfold lift. rewrite knowledge_similarities_eq.
    cbn [mbind traced_bind mret traced_ret try_except_traced app].
    rewrite knowledge_details_eq. reflexivity.
Qed.

Definition article_hit_meets (cfg : Settings) (h : KnowledgeHit.t) : Prop :=
  (SIMILARITY_THRESHOLD cfg <=? KnowledgeHit.similarity h) = true.

(** [find_relevant_knowledge] returns normally after one call to the
    embedding model; every article returned has a similarity of at least
    the configured threshold, and a limit that is not negative bounds
    their number. *)
Lemma find_relevant_knowledge_length cfg svc db query limit category :
  exists out,
    find_relevant_knowledge cfg svc db query limit category = (Ok out, [query]) /\
    Forall (article_hit_meets cfg) out /\
    ((0 <= default (MAX_RETRIEVED_DOCS cfg) limit)%Z ->
     (Z.of_nat (length out) <= default (MAX_RETRIEVED_DOCS cfg) limit)%Z).
Proof.
  eexists. split; [apply find_relevant_knowledge_eq|].
  destruct (embedding_of svc query) as [q|e]; [|split; [constructor|simpl; lia]].
  split.
  - rewrite Forall_forall. intros h Hh.
    apply list_elem_of_omap in Hh as (sim & Hsim & Hh).
    apply slice_elem_of in Hsim. unfold ranked_knowledge in Hsim.
    apply Ranking.sort_desc_elem_of, list_elem_of_fmap in Hsim as (ke & -> & Hke).
    apply list_elem_of_filter in Hke as [Hke _].
    unfold knowledge_hit in Hh. apply fmap_Some in Hh as (kb & _ & ->).
    exact Hke.
  - intros HL. etransitivity; [apply inj_le, Ranking.length_omap|].
    rewrite slice_to_nonneg by exact HL. rewrite length_take. lia.
Qed.

(** C7 (as the code behaves): [hybrid_search] gives the ticket query the
    budget [limit // 2] and the knowledge query the rest, runs
    [find_similar_tickets] and [find_relevant_knowledge] with these
    budgets, passes the exclude id to the ticket query only, and returns
    both lists with the sum of their lengths.  Each of the two queries
    embeds the query text itself, so the text is embedded twice.  With a
    limit that is not negative each list stays within its budget. *)
Theorem hybrid_search_budgets (cfg : Settings) (svc : EmbeddingService) (db : Session.t)
    (query : string) (limit exclude_ticket_id : option Z) :
  let total_limit := default (MAX_RETRIEVED_DOCS cfg) limit in
  let ticket_limit := (total_limit `div` 2)%Z in
  let knowledge_limit := (total_limit - ticket_limit)%Z in
  exists tickets knowledge,
    find_similar_tickets cfg svc db query (Some ticket_limit) exclude_ticket_id
      = (Ok tickets, [query]) /\
    find_relevant_knowledge cfg svc db query (Some knowledge_limit) None
      = (Ok knowledge, [query]) /\
    hybrid_search cfg svc db query limit exclude_ticket_id
      = (Ok {| similar_tickets := tickets;
               relevant_knowledge := knowledge;
               total_results := length tickets + length knowledge |},
         [query; query]) /\
    (truthy exclude_ticket_id = true ->
     Forall (fun h => Some (Ticket.id (TicketHit.ticket h)) <> exclude_ticket_id) tickets) /\
    (forall other_id, exists tickets',
       outcome (hybrid_search cfg svc db query limit other_id)
         = Ok {| similar_tickets := tickets';
                 relevant_knowledge := knowledge;
                 total_results := length tickets' + length knowledge |}) /\
    ((0 <= total_limit)%Z ->
     (Z.of_nat (length tickets) <= ticket_limit)%Z /\
     (Z.of_nat (length knowledge) <= knowledge_limit)%Z /\
     (Z.of_nat (length tickets + length knowledge) <= total_limit)%Z).
Proof.
  intros total_limit ticket_limit knowledge_limit.
  destruct (find_similar_tickets_ranking cfg svc db query (Some ticket_limit) exclude_ticket_id)
    as (tickets & Ht & _ & _ & Hex & Hlen).
  destruct (find_relevant_knowledge_length cfg svc db query (Some knowledge_limit) None)
    as (knowledge & Hk & _ & Hklen).
  exists tickets, knowledge.
  split; [exact Ht|]. split; [exact Hk|]. split; [|split; [exact Hex|split]].
  - unfold hybrid_search. fold total_limit. fold ticket_limit. fold knowledge_limit.
    rewrite Ht. cbn [mbind traced_bind]. rewrite Hk. reflexivity.
  - intros other_id.
    destruct (find_similar_tickets_ranking cfg svc db query (Some ticket_limit) other_id)
      as (tickets' & Ht' & _).
    exists tickets'. unfold hybrid_search, outcome.
    fold total_limit. fold ticket_limit. fold knowledge_limit.
    rewrite Ht'. cbn [mbind traced_bind]. rewrite Hk. reflexivity.
  - intros HL. cbn in Hlen, Hklen.
    assert (0 <= ticket_limit <= total_limit)%Z.
    { unfold ticket_limit. split; [apply Z.div_pos; lia|].
      apply Z.div_le_upper_bound; lia. }
    specialize (Hlen ltac:(lia)). specialize (Hklen ltac:(unfold knowledge_limit; lia)).
    unfold knowledge_limit in *. lia.
Qed.

(** A service whose model maps every text to the vector [[1.0, 0.0]]. *)
Definition constant_service : EmbeddingService :=
  {| model := Some (fun _ => Ok [1; 0]) |}.

Definition ticket_row (i : Z) : Ticket.t :=
  {| Ticket.id := i; Ticket.title := "title"; Ticket.description := "description" |}.

Definition embedding_row (i : Z) (v : list float) : TicketEmbedding.t :=
  {| TicketEmbedding.ticket_id := i; TicketEmbedding.embedding_vector := v |}.

(** Three tickets, each with an embedding parallel to [[1.0, 0.0]], and one
    active article. *)
Definition three_tickets : Session.t :=
  {| Session.tickets := [ticket_row 1; ticket_row 2; ticket_row 3];
     Session.knowledge_base :=
       [{| KnowledgeBase.id := 7; KnowledgeBase.title := "refunds";
           KnowledgeBase.content := "policy"; KnowledgeBase.category := None;
           KnowledgeBase.is_active := true |}];
     Session.ticket_embeddings :=
       [embedding_row 1 [1; 0]; embedding_row 2 [2; 0]; embedding_row 3 [3; 0]];
     Session.knowledge_embeddings :=
       [{| KnowledgeEmbedding.knowledge_id := 7;
           KnowledgeEmbedding.embedding_vector := [1; 0] |}] |}.

(** C7 as stated fails: one call of [hybrid_search] embeds the query text
    twice, once in each of the two queries. *)
Lemma hybrid_search_embeds_twice :
  embedded (hybrid_search settings constant_service three_tickets "refund" None None)
    = ["refund"; "refund"] /\
  length (embedded (hybrid_search settings constant_service three_tickets "refund" None None))
    <> 1%nat.
Proof. split; [reflexivity|]. vm_compute. discriminate. Qed.

(** A limit below zero is no count: [similarities[:limit]] then drops
    entries from the end.  With limit [-1] and three tickets meeting the
    threshold, two are returned. *)
Lemma negative_limit_exceeded :
  (exists out,
     outcome (find_similar_tickets settings constant_service three_tickets "refund"
                (Some (-1)%Z) None) = Ok out /\
     length out = 2%nat) /\
  (exists out,
     find_most_similar {| SIMILARITY_THRESHOLD := 0.7; MAX_RETRIEVED_DOCS := -1;
                          CONFIDENCE_THRESHOLD := 0.8; ESCALATION_THRESHOLD := 0.5 |}
       [1; 0] [[1; 0]; [2; 0]; [3; 0]] None = Ok out /\
     length out = 2%nat).
Proof.
  split; eexists; (split; [vm_compute; reflexivity|]); reflexivity.
Qed.

Lemma hybrid_search_budgets_witness :
  exists tickets knowledge,
    hybrid_search settings constant_service three_tickets "refund" None (Some 1%Z)
      = (Ok {| similar_tickets := tickets;
               relevant_knowledge := knowledge;
               total_results := length tickets + length knowledge |},
         ["refund"; "refund"]).
Proof.
  destruct (hybrid_search_budgets settings constant_service three_tickets "refund"
              None (Some 1%Z)) as (tickets & knowledge & _ & _ & H & _).
  exists tickets, knowledge. exact H.
Defined.

Close Scope float_scope.

End Retriever.

(* ===================================================================== *)
(** ** backend/app/rag/generator.py *)
(* ===================================================================== *)

Module Generator.

Import Retriever.
Open Scope float_scope.

(** The completion a chat call answers with: the [message.content] of
    each of its [choices]. *)
Record ChatCompletion : Type := { choices : list string }.

Module Source.
(** [{'type': _, 'id': _, 'title': _, 'similarity': _}]. *)
Record t : Type := { type : string; id : Z; title : string; similarity : float }.
End Source.

(** The dictionary [generate_response] returns. *)
Record Reply : Type := {
  response : string;
  confidence : float;
  sources : list Source.t;
  should_escalate : bool
}.

(** [ResponseGenerator._get_system_prompt]. *)
Definition _get_system_prompt : string :=
"You are a helpful customer support assistant. Your role is to:
        1. Provide accurate and helpful responses to customer inquiries
        2. Use the provided context from similar tickets and knowledge base
        3. Be empathetic and professional
        4. If you're unsure about something, acknowledge it and suggest escalation
        5. Keep responses concise but comprehensive
        6. Always prioritize customer satisfaction and safety".

(** [ResponseGenerator._calculate_confidence]; its third parameter,
    [response], is not used by the body and is left out. *)
Definition _calculate_confidence (similar_tickets : list TicketHit.t)
    (relevant_knowledge : list KnowledgeHit.t) : float :=
  let confidence := 0.5 in
  let confidence :=
    match similar_tickets with
    | [] => confidence
    | _ =>
        let avg_similarity :=
          Py.sum (TicketHit.similarity <$> similar_tickets)
          / float_of_len (length similar_tickets) in
        confidence + avg_similarity * 0.3
    end in
  let confidence :=
    match relevant_knowledge with
    | [] => confidence
    | _ =>
        let avg_similarity :=
          Py.sum (KnowledgeHit.similarity <$> relevant_knowledge)
          / float_of_len (length relevant_knowledge) in
        confidence + avg_similarity * 0.2
    end in
  Py.min (Py.max confidence 0) 1.

(** [ResponseGenerator._extract_sources]. *)
Definition _extract_sources (similar_tickets : list TicketHit.t)
    (relevant_knowledge : list KnowledgeHit.t) : list Source.t :=
  ((fun item =>
      {| Source.type := "ticket";
         Source.id := Ticket.id (TicketHit.ticket item);
         Source.title := Ticket.title (TicketHit.ticket item);
         Source.similarity := TicketHit.similarity item |}) <$> similar_tickets)
  ++
  ((fun item =>
      {| Source.type := "knowledge";
         Source.id := KnowledgeBase.id (KnowledgeHit.knowledge item);
         Source.title := KnowledgeBase.title (KnowledgeHit.knowledge item);
         Source.similarity := KnowledgeHit.similarity item |}) <$> relevant_knowledge).

(** The reply of the [except] clause of [generate_response]. *)
Definition fallback : Reply :=
  {| response := "I apologize, but I'm unable to generate a response at this time. Please contact a human agent for assistance.";
     confidence := 0;
     sources := [];
     should_escalate := true |}.

(** *** The confidence score *)

(** One of the two [if] blocks of [_calculate_confidence]: a non-empty
    list of similarities adds its mean, weighted, to the confidence. *)
Definition boost (similarities : list float) (weight confidence : float) : float :=
  match similarities with
  | [] => confidence
  | _ => confidence + Py.sum similarities / float_of_len (length similarities) * weight
  end.

Lemma _calculate_confidence_eq similar_tickets relevant_knowledge :
  _calculate_confidence similar_tickets relevant_knowledge =
    Py.min (Py.max (boost (KnowledgeHit.similarity <$> relevant_knowledge) 0.2
                      (boost (TicketHit.similarity <$> similar_tickets) 0.3 0.5)) 0) 1.
Proof.
  unfold _calculate_confidence, boost.
  destruct similar_tickets, relevant_knowledge; rewrite ?fmap_cons; cbn [length];
    rewrite ?length_fmap; reflexivity.
Qed.

Lemma boost_nonneg similarities weight confidence :
  Forall Rounding.nonneg similarities -> Rounding.posfin weight ->
  (Z.of_nat (length similarities) < 2 ^ 63)%Z ->
  Rounding.nonneg confidence -> Rounding.nonneg (boost similarities weight confidence).
Proof.
  intros Hs Hw Hlen Hc. unfold boost. destruct similarities as [|x l]; [exact Hc|].
  apply Rounding.add_nonneg; [exact Hc|].
  apply Rounding.mul_nonneg; [|exact Hw].
  apply Rounding.div_nonneg; [apply Rounding.sum_nonneg, Hs|].
  apply Rounding.float_of_len_posfin; [simpl; lia|exact Hlen].
Qed.

(** The confidence is NaN or lies in [[0.0, 1.0]]. *)
Definition in_unit_interval (c : float) : Prop :=
  (0 <=? c) = true /\ (c <=? 1) = true.

Lemma _calculate_confidence_nan_or_unit similar_tickets relevant_knowledge :
  is_nan (_calculate_confidence similar_tickets relevant_knowledge) = true \/
  in_unit_interval (_calculate_confidence similar_tickets relevant_knowledge).
Proof.
  rewrite _calculate_confidence_eq.
  set (raw := boost _ _ _).
  destruct (is_nan raw) eqn:E.
  - left. rewrite FloatFacts.clamp_not_nan. exact E.
  - right. apply FloatFacts.clamp_range, E.
Qed.

(** With similarities that are not negative (and so not NaN) the
    confidence lies in [[0.0, 1.0]]. *)
Lemma _calculate_confidence_unit similar_tickets relevant_knowledge :
  Forall (fun h => (0 <=? TicketHit.similarity h) = true) similar_tickets ->
  Forall (fun h => (0 <=? KnowledgeHit.similarity h) = true) relevant_knowledge ->
  (Z.of_nat (length similar_tickets) < 2 ^ 63)%Z ->
  (Z.of_nat (length relevant_knowledge) < 2 ^ 63)%Z ->
  in_unit_interval (_calculate_confidence similar_tickets relevant_knowledge).
Proof.
  intros Ht Hk Hlt Hlk. rewrite _calculate_confidence_eq.
  apply FloatFacts.clamp_range, Rounding.nonneg_not_nan.
  apply boost_nonneg; [|reflexivity|rewrite length_fmap; exact Hlk|].
  { rewrite Forall_fmap. eapply Forall_impl; [exact Hk|].
    intros h Hh. apply Rounding.leb_0_nonneg, Hh. }
  apply boost_nonneg; [|reflexivity|rewrite length_fmap; exact Hlt|reflexivity].
  rewrite Forall_fmap. eapply Forall_impl; [exact Ht|].
  intros h Hh. apply Rounding.leb_0_nonneg, Hh.
Qed.

Section ResponseGenerator.

(** [self.client.chat.completions.create], as a function of the system
    and user messages: the external completion service. *)
Variable create : string -> string -> result ChatCompletion.

(** [_build_context] and [_create_prompt] format the retrieved rows and the
    ticket into text; formatting a row with a missing attribute raises.
    The text itself plays no part below, so both are left open. *)
Variable _build_context : list TicketHit.t -> list KnowledgeHit.t -> result string.
Variable _create_prompt : Ticket.t -> string -> result string.

(** The body of the [try] block of [generate_response]. *)
Definition generate_response_try (cfg : Settings) (ticket : Ticket.t)
    (similar_tickets : list TicketHit.t) (relevant_knowledge : list KnowledgeHit.t)
    : result Reply :=
  context ← _build_context similar_tickets relevant_knowledge;
  prompt ← _create_prompt ticket context;
  response ← create _get_system_prompt prompt;
  generated_text ← match choices response with
                   | content :: _ => Ok content
                   | [] => Raise IndexError
                   end;
  let confidence := _calculate_confidence similar_tickets relevant_knowledge in
  mret {| response := generated_text;
          confidence := confidence;
          sources := _extract_sources similar_tickets relevant_knowledge;
          should_escalate := confidence <? ESCALATION_THRESHOLD cfg |}.

(** [ResponseGenerator.generate_response]. *)
Definition generate_response (cfg : Settings) (ticket : Ticket.t)
    (similar_tickets : list TicketHit.t) (relevant_knowledge : list KnowledgeHit.t)
    : result Reply :=
  try_except (generate_response_try cfg ticket similar_tickets relevant_knowledge)
             (fun _ => mret fallback).

(** The completion call for [prompt] fails: the service raises (network
    error, timeout, API error), or its answer has no choice to read. *)
Definition completion_fails (prompt : string) : Prop :=
  match create _get_system_prompt prompt with
  | Raise _ => True
  | Ok completion => choices completion = []
  end.

Lemma generate_response_returns cfg ticket similar_tickets relevant_knowledge :
  returns (generate_response cfg ticket similar_tickets relevant_knowledge).
Proof.
  unfold generate_response, try_except.
  destruct (generate_response_try _ _ _ _); eexists; reflexivity.
Qed.

Lemma generate_response_raised cfg ticket similar_tickets relevant_knowledge :
  raises (generate_response_try cfg ticket similar_tickets relevant_knowledge) ->
  generate_response cfg ticket similar_tickets relevant_knowledge = Ok fallback.
Proof. intros [e He]. unfold generate_response. rewrite He. reflexivity. Qed.

(** A reply computed by the [try] block carries the clamped confidence
    of the retrieved rows. *)
Lemma generate_response_confidence cfg ticket similar_tickets relevant_knowledge reply :
  generate_response cfg ticket similar_tickets relevant_knowledge = Ok reply ->
  confidence reply = 0 \/
  confidence reply = _calculate_confidence similar_tickets relevant_knowledge.
Proof.
  unfold generate_response, generate_response_try, try_except.
  destruct (_build_context _ _) as [context|]; cbn [mbind result_bind];
    [|intros [= <-]; left; reflexivity].
  destruct (_create_prompt _ _) as [prompt|]; cbn [mbind result_bind];
    [|intros [= <-]; left; reflexivity].
  destruct (create _ _) as [[[|content rest]]|]; cbn [mbind result_bind choices];
    intros [= <-]; [left|right|left]; reflexivity.
Qed.

(** C1 (as the code behaves, for [ResponseGenerator]): when the
    completion call for the prompt of this ticket fails, because the
    service raises or because its answer holds no choice,
    [generate_response] does not raise: it returns the fixed fallback
    reply, with confidence [0.0], no sources and the escalation flag set.
    The same holds when building the prompt raises. *)
Theorem generate_response_failure_policy (cfg : Settings) (ticket : Ticket.t)
    (similar_tickets : list TicketHit.t) (relevant_knowledge : list KnowledgeHit.t) :
  (forall context prompt,
     _build_context similar_tickets relevant_knowledge = Ok context ->
     _create_prompt ticket context = Ok prompt ->
     completion_fails prompt) ->
  generate_response cfg ticket similar_tickets relevant_knowledge = Ok fallback /\
  confidence fallback = 0 /\
  sources fallback = [] /\
  should_escalate fallback = true.
Proof.
  intros Hfail. split; [|repeat split].
  apply generate_response_raised. unfold generate_response_try.
  destruct (_build_context similar_tickets relevant_knowledge) as [context|e];
    cbn [mbind result_bind]; [|exists e; reflexivity].
  destruct (_create_prompt ticket context) as [prompt|e] eqn:Ep;
    cbn [mbind result_bind]; [|exists e; reflexivity].
  specialize (Hfail context prompt eq_refl Ep). unfold completion_fails in Hfail.
  destruct (create _get_system_prompt prompt) as [completion|e];
    cbn [mbind result_bind]; [|exists e; reflexivity].
  rewrite Hfail. exists IndexError. reflexivity.
Qed.

(** C2 (as the code behaves, for [ResponseGenerator]): a call of
    [generate_response] returns a reply whose confidence is [0.0] when the
    [try] block raised and [_calculate_confidence] of the retrieved rows
    otherwise.  That score starts from the base [0.5]; when the ticket
    results are not empty it gains the mean of their similarities times
    [0.3]; when the knowledge results are not empty it gains the mean of
    their similarities times [0.2]; and the sum is clamped by
    [min(max(_, 0.0), 1.0)].  It is [0.5] for two empty lists, it lies in
    [[0.0, 1.0]] whenever no similarity is negative or NaN, and in any
    case it lies in [[0.0, 1.0]] or is NaN. *)
Theorem generate_response_confidence_range (cfg : Settings) (ticket : Ticket.t)
    (similar_tickets : list TicketHit.t) (relevant_knowledge : list KnowledgeHit.t) :
  let mean := fun similarities : list float =>
                Py.sum similarities / float_of_len (length similarities) in
  let base := 0.5 in
  let with_tickets :=
    match similar_tickets with
    | [] => base
    | _ => base + mean (TicketHit.similarity <$> similar_tickets) * 0.3
    end in
  let with_knowledge :=
    match relevant_knowledge with
    | [] => with_tickets
    | _ => with_tickets + mean (KnowledgeHit.similarity <$> relevant_knowledge) * 0.2
    end in
  exists reply,
    generate_response cfg ticket similar_tickets relevant_knowledge = Ok reply /\
    (raises (generate_response_try cfg ticket similar_tickets relevant_knowledge) ->
     confidence reply = 0) /\
    (returns (generate_response_try cfg ticket similar_tickets relevant_knowledge) ->
     confidence reply = _calculate_confidence similar_tickets relevant_knowledge) /\
    (returns (generate_response_try cfg ticket similar_tickets relevant_knowledge) ->
     confidence reply = Py.min (Py.max with_knowledge 0) 1) /\
    _calculate_confidence similar_tickets relevant_knowledge
      = Py.min (Py.max with_knowledge 0) 1 /\
    (similar_tickets = [] -> relevant_knowledge = [] ->
     returns (generate_response_try cfg ticket similar_tickets relevant_knowledge) ->
     confidence reply = 0.5) /\
    _calculate_confidence [] [] = 0.5 /\
    (is_nan (confidence reply) = true \/ in_unit_interval (confidence reply)) /\
    (Forall (fun h => (0 <=? TicketHit.similarity h) = true) similar_tickets ->
     Forall (fun h => (0 <=? KnowledgeHit.similarity h) = true) relevant_knowledge ->
     (Z.of_nat (length similar_tickets) < 2 ^ 63)%Z ->
     (Z.of_nat (length relevant_knowledge) < 2 ^ 63)%Z ->
     in_unit_interval (confidence reply)).
Proof.
  intros mean base with_tickets with_knowledge.
  assert (Hformula : _calculate_confidence similar_tickets relevant_knowledge
                     = Py.min (Py.max with_knowledge 0) 1).
  { unfold with_knowledge, with_tickets, mean, base, _calculate_confidence.
    destruct similar_tickets, relevant_knowledge; rewrite ?fmap_cons; cbn [length];
      rewrite ?length_fmap; reflexivity. }
  destruct (generate_response_returns cfg ticket similar_tickets relevant_knowledge)
    as [reply Hreply].
  exists reply. split; [exact Hreply|].
  pose proof (generate_response_confidence _ _ _ _ _ Hreply) as Hc.
  assert (Hreturned :
            returns (generate_response_try cfg ticket similar_tickets relevant_knowledge) ->
            confidence reply = _calculate_confidence similar_tickets relevant_knowledge).
  { unfold generate_response, try_except in Hreply.
    intros [r Hr]. rewrite Hr in Hreply. injection Hreply as <-.
    revert Hr. unfold generate_response_try.
    destruct (_build_context _ _); cbn [mbind result_bind]; [|discriminate].
    destruct (_create_prompt _ _); cbn [mbind result_bind]; [|discriminate].
    destruct (create _ _) as [[[|content rest]]|]; cbn [mbind result_bind choices];
      [discriminate| |discriminate].
    intros [= <-]. reflexivity. }
  unfold generate_response, try_except in Hreply.
  split; [|split; [exact Hreturned|split; [|split; [exact Hformula|split;
    [|split; [reflexivity|split]]]]]].
  - intros [e He]. rewrite He in Hreply. injection Hreply as <-. reflexivity.
  - intros Hret. rewrite (Hreturned Hret). exact Hformula.
  - intros -> -> Hret. rewrite (Hreturned Hret). reflexivity.
  - destruct Hc as [-> | ->].
    + right. split; reflexivity.
    + apply _calculate_confidence_nan_or_unit.
  - intros Ht Hk Hlt Hlk. destruct Hc as [-> | ->].
    + split; reflexivity.
    + apply _calculate_confidence_unit; assumption.
Qed.

End ResponseGenerator.

(** X9: the rows [hybrid_search] retrieves under a threshold that is not
    negative, with a limit between 0 and 2^63, always score a confidence
    in [[0.0, 1.0]]. *)
Lemma retrieved_confidence_unit cfg svc db query limit exclude_ticket_id found calls :
  (0 <=? SIMILARITY_THRESHOLD cfg) = true ->
  (0 <= default (MAX_RETRIEVED_DOCS cfg) limit < 2 ^ 63)%Z ->
  hybrid_search cfg svc db query limit exclude_ticket_id = (Ok found, calls) ->
  in_unit_interval
    (_calculate_confidence (similar_tickets found) (relevant_knowledge found)).
Proof.
  intros Hthreshold Hlimit Hsearch.
  set (total := default (MAX_RETRIEVED_DOCS cfg) limit) in *.
  assert (Hhalf : (0 <= total `div` 2 <= total)%Z).
  { split; [apply Z.div_pos; lia|apply Z.div_le_upper_bound; lia]. }
  destruct (find_similar_tickets_ranking cfg svc db query (Some (total `div` 2)%Z)
              exclude_ticket_id) as (tickets & Ht & Htm & _ & _ & Htl).
  destruct (find_relevant_knowledge_length cfg svc db query
              (Some (total - total `div` 2)%Z) None) as (knowledge & Hk & Hkm & Hkl).
  cbn in Htl, Hkl.
  unfold hybrid_search in Hsearch. fold total in Hsearch.
  rewrite Ht in Hsearch. cbn [mbind traced_bind] in Hsearch. rewrite Hk in Hsearch.
  injection Hsearch as <- _. cbn [similar_tickets relevant_knowledge].
  apply _calculate_confidence_unit.
  - eapply Forall_impl; [exact Htm|]. intros h Hh.
    eapply FloatFacts.leb_trans; [exact Hthreshold|exact Hh].
  - eapply Forall_impl; [exact Hkm|]. intros h Hh.
    eapply FloatFacts.leb_trans; [exact Hthreshold|exact Hh].
  - specialize (Htl ltac:(lia)). lia.
  - specialize (Hkl ltac:(lia)). lia.
Qed.

(** A completion service that is unreachable. *)
Definition unreachable (system prompt : string) : result ChatCompletion :=
  Raise ConnectionError.

Lemma generate_response_failure_policy_witness :
  generate_response unreachable (fun _ _ => Ok "context") (fun _ context => Ok context)
    settings (ticket_row 1) [] [] = Ok fallback.
Proof.
  apply (generate_response_failure_policy unreachable
           (fun _ _ => Ok "context") (fun _ context => Ok context)
           settings (ticket_row 1) [] []).
  intros context prompt _ _. exact I.
Defined.

Close Scope float_scope.

End Generator.

(* ===================================================================== *)
(** ** ragpipe.py *)
(* ===================================================================== *)

Module Ragpipe.

(** *** Text and files *)

(** [len(text)] and [text[start:end]] on a [str], read as the sequence of
    its characters. *)
Definition len (text : string) : Z := Z.of_nat (length (String.list_ascii_of_string text)).

Definition str_slice (text : string) (start stop : Z) : string :=
  String.string_of_list_ascii (slice (String.list_ascii_of_string text) start stop).

(** The files the pipeline touches: each path that exists, with the lines
    of the file in order.  A line is kept without its newline. *)
Abbreviation files := (gmap string (list string)).

Definition tickets_jsonl : string := "tickets.jsonl".

(** [os.path.exists(path)]. *)
Definition path_exists (fs : files) (path : string) : bool :=
  bool_decide (is_Some (fs !! path)).

(** [open(path, "w").close()]: the file is created or emptied. *)
Definition truncate (fs : files) (path : string) : files := <[path := []]> fs.

(** [with open(path, "a") as f: f.write(line + "\n")] on a log kept as
    its complete lines: the line written becomes a line of its own.  A
    log whose last line lacks its newline is not one of these; the log
    is taken character by character, such logs included, in [Jsonl]. *)
Definition append_line (fs : files) (path : string) (line : string) : files :=
  <[path := default [] (fs !! path) ++ [line]]> fs.

(** *** [RAGPipeline.chunk_text] *)

(** The [while] loop of [chunk_text], run for at most [fuel] tests of its
    condition; [None] when the loop is still running after that. *)
Fixpoint chunk_loop (fuel : nat) (text : string) (chunk_size overlap : Z)
    (start : Z) (chunks : list string) : option (list string) :=
  match fuel with
  | O => None
  | S fuel' =>
      if (start <? len text)%Z then
        let end_ := (start + chunk_size)%Z in
        chunk_loop fuel' text chunk_size overlap
                   (start + (chunk_size - overlap))%Z
                   (chunks ++ [str_slice text start end_])
      else Some chunks
  end.

Definition chunk_text (fuel : nat) (text : string) (chunk_size overlap : Z)
    : option (list string) :=
  chunk_loop fuel text chunk_size overlap 0 [].

(** *** The ticket log *)

(** The dictionary [store_ticket] logs. *)
Record LogEntry : Type := {
  id : string;
  text : string;
  category : string;
  response : string;
  confidence : float;
  escalate : bool
}.

(** The class body of [RAGPipeline] contains, between two method
    definitions, the statements
    [if os.path.exists("tickets.jsonl"): open("tickets.jsonl", "w").close()];
    they run when the class statement is executed, that is when the module
    is imported. *)
Definition class_body (fs : files) : files :=
  if path_exists fs tickets_jsonl then truncate fs tickets_jsonl else fs.

(** What [import ragpipe] does to the files. *)
Definition import_ragpipe (fs : files) : files := class_body fs.

(** The part of [reset_support_tickets] that acts on the files. *)
Definition reset_support_tickets (fs : files) : files :=
  if path_exists fs tickets_jsonl then truncate fs tickets_jsonl else fs.

Section TicketLog.

(** [json.dumps] on a log dictionary and [json.loads] on a line. *)
Variable json_dumps : LogEntry -> string.
Variable json_loads : string -> result LogEntry.

(** The part of [store_ticket] that acts on the files. *)
Definition store_ticket (fs : files) (ticket_id text category response : string)
    (score : float) (is_confident : bool) : files :=
  let log := {| id := ticket_id; text := text; category := category;
                response := response; confidence := score;
                escalate := negb is_confident |} in
  append_line fs tickets_jsonl (json_dumps log).

(** The [for line in f] loop of [get_all_tickets]. *)
Fixpoint read_lines (lines : list string) (tickets : list LogEntry)
    : result (list LogEntry) :=
  match lines with
  | [] => mret tickets
  | line :: rest =>
      entry ← json_loads line;
      read_lines rest (tickets ++ [entry])
  end.

(** [RAGPipeline.get_all_tickets]. *)
Definition get_all_tickets (fs : files) : result (list LogEntry) :=
  tickets ← (match fs !! tickets_jsonl with
             | Some lines => read_lines lines []
             | None => mret []
             end);
  mret (reverse tickets).

End TicketLog.

(** *** [RAGPipeline.generate_response] *)

(** What a Chroma query answers: for each query embedding, the documents
    found and their distances. *)
Record QueryResult : Type := {
  documents : list (list string);
  distances : list (list float)
}.

(** The JSON body of a completion response: the [message.content] of each
    entry under ["choices"], when that key is present. *)
Record Body : Type := { choices : option (list string) }.

(** What [requests.post] returns: [.json()] decodes the body or raises. *)
Record Response : Type := { json : result Body }.

Section Pipeline.

Variable embed_text : string -> list float.
(** [self.collection.query] and [self.kb_collection.query], as functions of
    the query embedding and [n_results]. *)
Variable collection_query : list float -> Z -> QueryResult.
Variable kb_collection_query : list float -> Z -> QueryResult.
(** [requests.post] to the completion endpoint, as a function of the
    prompt. *)
Variable requests_post : string -> result Response.

Definition search_similar (query : string) (top_k : Z) : QueryResult :=
  collection_query (embed_text query) top_k.

Definition search_kb (query : string) (top_k : Z) : QueryResult :=
  kb_collection_query (embed_text query) top_k.

Definition newline : string := String "010"%char EmptyString.
Definition double_quote : string := String "034"%char EmptyString.

Definition build_prompt (query combined_context : string) : string :=
  "You are a helpful support assistant." +:+ newline +:+
  "Use the information below from past tickets and company documentation to help the user."
  +:+ newline +:+ newline +:+
  "User Question: " +:+ double_quote +:+ query +:+ double_quote +:+ newline +:+ newline +:+
  "Relevant Information:" +:+ newline +:+
  combined_context +:+ newline +:+ newline +:+
  "Helpful Response:".

(** [RAGPipeline.generate_response]. *)
Definition generate_response (query : string) (top_k : Z) (threshold : float)
    : result (string * float * bool) :=
  let ticket_results := search_similar query top_k in
  let ticket_docs := match documents ticket_results with d :: _ => d | [] => [] end in
  let distances := match distances ticket_results with d :: _ => d | [] => [] end in
  let scores := (fun d => (1 - d)%float) <$> distances in
  let avg_score :=
    match scores with
    | [] => 0%float
    | _ => (Py.sum scores / float_of_len (length scores))%float
    end in
  let kb_results := search_kb query top_k in
  let kb_docs := match documents kb_results with d :: _ => d | [] => [] end in
  let combined_context :=
    String.concat newline ((fun doc => "- " +:+ doc) <$> (ticket_docs ++ kb_docs)) in
  let prompt := build_prompt query combined_context in
  response ← requests_post prompt;
  result ← json response;
  choices ← match choices result with Some cs => Ok cs | None => Raise KeyError end;
  reply ← match choices with content :: _ => Ok content | [] => Raise IndexError end;
  let is_confident := (threshold <=? avg_score)%float in
  mret (reply, avg_score, is_confident).

End Pipeline.

(** A failure of [requests.post] leaves [generate_response] as it is:
    nothing in the method catches it. *)
Lemma generate_response_propagates embed_text collection_query kb_collection_query
    requests_post query top_k threshold e :
  (forall prompt, requests_post prompt = Raise e) ->
  generate_response embed_text collection_query kb_collection_query requests_post
    query top_k threshold = Raise e.
Proof. intros H. unfold generate_response. rewrite H. reflexivity. Qed.

(** A vector store that holds nothing. *)
Definition no_results : QueryResult := {| documents := []; distances := [] |}.

(** A vector store that finds one document, at distance 1.5. *)
Definition one_far_result : QueryResult :=
  {| documents := [["late delivery"]]; distances := [[1.5%float]] |}.

(** A completion endpoint that answers. *)
Definition answering (prompt : string) : result Response :=
  Ok {| json := Ok {| choices := Some ["We are looking into it."] |} |}.

(** C1 as stated fails for [RAGPipeline.generate_response]: when
    [requests.post] raises [ConnectionError], so does the method; no
    fallback reply is returned. *)
Lemma completion_failure_propagates :
  generate_response (fun _ => []) (fun _ _ => no_results) (fun _ _ => no_results)
    (fun _ => Raise ConnectionError) "charged twice" 3 0.7%float
    = Raise ConnectionError /\
  ~ returns (generate_response (fun _ => []) (fun _ _ => no_results) (fun _ _ => no_results)
               (fun _ => Raise ConnectionError) "charged twice" 3 0.7%float).
Proof. split; [reflexivity|]. intros [r H]. discriminate H. Qed.

(** C2 as stated fails.  The score of [RAGPipeline.generate_response] is
    the plain mean of [1 - distance] over the ticket results: with no
    results it is [0] and not [0.5]; with one result at distance [1.5] it
    is [-0.5], below [0.0].  And [_calculate_confidence] of the backend
    passes a NaN similarity through both comparisons of its clamp. *)
Lemma confidence_outside_unit_interval :
  generate_response (fun _ => []) (fun _ _ => no_results) (fun _ _ => no_results)
    answering "charged twice" 3 0.7%float
    = Ok ("We are looking into it.", 0%float, false) /\
  generate_response (fun _ => []) (fun _ _ => one_far_result) (fun _ _ => no_results)
    answering "charged twice" 3 0.7%float
    = Ok ("We are looking into it.", (-0.5)%float, false) /\
  (0 <=? -0.5)%float = false /\
  Generator._calculate_confidence
    [{| Retriever.TicketHit.ticket := Retriever.ticket_row 1;
        Retriever.TicketHit.similarity := nan |}] [] = nan /\
  (0 <=? nan)%float = false.
Proof. repeat split. Qed.

(** *** Properties of [chunk_text] *)

Open Scope Z_scope.

(** [ceil(a / b)] for a positive [b]. *)
Definition ceil_div (a b : Z) : Z := - ((- a) `div` b).

Lemma ceil_div_bounds a b :
  0 < b -> (ceil_div a b - 1) * b < a <= ceil_div a b * b.
Proof.
  intros Hb. unfold ceil_div.
  pose proof (Z.div_mod (- a) b ltac:(lia)) as Hdm.
  pose proof (Z.mod_pos_bound (- a) b Hb) as Hm. nia.
Qed.

Lemma ceil_div_nonneg a b : 0 < b -> 0 <= a -> 0 <= ceil_div a b.
Proof. intros Hb Ha. pose proof (ceil_div_bounds a b Hb). nia. Qed.

Lemma len_str_slice text start stop :
  0 <= start <= stop -> len (str_slice text start stop) <= stop - start.
Proof.
  intros H. unfold len, str_slice.
  rewrite String.list_ascii_of_string_of_list_ascii. apply slice_length_le, H.
Qed.

(** The window that starts [i] steps into the text. *)
Definition window (text : string) (chunk_size overlap : Z) (i : nat) : string :=
  str_slice text (Z.of_nat i * (chunk_size - overlap))
                 (Z.of_nat i * (chunk_size - overlap) + chunk_size).

(** More fuel does not change a result already reached. *)
Lemma chunk_loop_fuel_mono fuel fuel' text chunk_size overlap start chunks out :
  (fuel <= fuel')%nat ->
  chunk_loop fuel text chunk_size overlap start chunks = Some out ->
  chunk_loop fuel' text chunk_size overlap start chunks = Some out.
Proof.
  revert fuel' start chunks. induction fuel as [|fuel IH]; intros fuel' start chunks Hle.
  - discriminate.
  - destruct fuel' as [|fuel']; [lia|]. cbn [chunk_loop].
    destruct (start <? len text); [|auto]. apply IH. lia.
Qed.

(** With a positive step the loop leaves after the windows that start
    inside the text. *)
Lemma chunk_loop_windows text chunk_size overlap (m k : nat) fuel chunks :
  0 < chunk_size - overlap ->
  Z.of_nat (k + m) = ceil_div (len text) (chunk_size - overlap) ->
  (m < fuel)%nat ->
  chunk_loop fuel text chunk_size overlap (Z.of_nat k * (chunk_size - overlap)) chunks
    = Some (chunks ++ (window text chunk_size overlap <$> seq k m)).
Proof.
  intros Hstep. revert k fuel chunks.
  induction m as [|m IH]; intros k fuel chunks Hn Hfuel;
    (destruct fuel as [|fuel]; [lia|]); cbn [chunk_loop];
    pose proof (ceil_div_bounds (len text) _ Hstep) as Hb.
  - destruct (Z.ltb_spec (Z.of_nat k * (chunk_size - overlap)) (len text)) as [H|H].
    + exfalso. replace (k + 0)%nat with k in Hn by lia. rewrite <- Hn in Hb. lia.
    + simpl. rewrite app_nil_r. reflexivity.
  - destruct (Z.ltb_spec (Z.of_nat k * (chunk_size - overlap)) (len text)) as [H|H].
    + replace (Z.of_nat k * (chunk_size - overlap) + (chunk_size - overlap))
        with (Z.of_nat (S k) * (chunk_size - overlap)) by lia.
      rewrite IH by lia. cbn [seq fmap list_fmap]. rewrite <- app_assoc. reflexivity.
    + exfalso. rewrite <- Hn in Hb.
      assert (Z.of_nat k * (chunk_size - overlap)
              <= (Z.of_nat (k + S m) - 1) * (chunk_size - overlap)) by nia.
      lia.
Qed.

(** With a positive step the loop ends within [len(text)] iterations. *)
Lemma chunk_loop_terminates fuel text chunk_size overlap start chunks :
  0 < chunk_size - overlap ->
  (Z.to_nat (len text - start) < fuel)%nat ->
  is_Some (chunk_loop fuel text chunk_size overlap start chunks).
Proof.
  intros Hstep. revert start chunks.
  induction fuel as [|fuel IH]; intros start chunks Hfuel; [lia|].
  cbn [chunk_loop]. destruct (Z.ltb_spec start (len text)) as [H|H]; [|eauto].
  apply IH. lia.
Qed.

(** With a step that is not positive the loop never leaves once it has
    been entered. *)
Lemma chunk_loop_stuck fuel text chunk_size overlap start chunks :
  chunk_size - overlap <= 0 -> start < len text ->
  chunk_loop fuel text chunk_size overlap start chunks = None.
Proof.
  intros Hstep. revert start chunks.
  induction fuel as [|fuel IH]; intros start chunks Hstart; [reflexivity|].
  cbn [chunk_loop]. destruct (Z.ltb_spec start (len text)) as [H|H]; [|lia].
  apply IH. lia.
Qed.

(** C5 (as the code behaves): for a non-empty text and
    [0 <= overlap < chunk_size], [chunk_text] returns the windows that
    start at the multiples of [chunk_size - overlap] below [len(text)];
    there are [ceil(len(text) / (chunk_size - overlap))] of them, and none
    is longer than [chunk_size]. *)
Theorem chunk_text_windows (text : string) (chunk_size overlap : Z) :
  0 < len text -> 0 <= overlap < chunk_size ->
  let n := Z.to_nat (ceil_div (len text) (chunk_size - overlap)) in
  forall fuel, (n < fuel)%nat ->
    chunk_text fuel text chunk_size overlap
      = Some (window text chunk_size overlap <$> seq 0 n) /\
    Z.of_nat (length (window text chunk_size overlap <$> seq 0 n))
      = ceil_div (len text) (chunk_size - overlap) /\
    Forall (fun chunk => len chunk <= chunk_size)
           (window text chunk_size overlap <$> seq 0 n).
Proof.
  intros Hlen Hov n fuel Hfuel.
  assert (Hn : 0 <= ceil_div (len text) (chunk_size - overlap))
    by (apply ceil_div_nonneg; lia).
  repeat split.
  - unfold chunk_text.
    change 0 with (Z.of_nat 0 * (chunk_size - overlap)).
    rewrite (chunk_loop_windows text chunk_size overlap n 0) by (try lia; exact Hfuel).
    reflexivity.
  - rewrite length_fmap, length_seq. unfold n. lia.
  - rewrite Forall_fmap, Forall_forall. intros i _. cbn [compose]. unfold window.
    etransitivity; [apply len_str_slice; nia|]. lia.
Qed.

Lemma chunk_text_windows_witness :
  chunk_text 5 "abcdefghij" 4 1 = Some ["abcd"; "defg"; "ghij"; "j"].
Proof.
  destruct (chunk_text_windows "abcdefghij" 4 1) with (fuel := 5%nat) as [H _].
  - vm_compute. reflexivity.
  - lia.
  - vm_compute. lia.
  - exact H.
Defined.

(** A text of 1000 characters with the defaults 300 and 50 gives four
    chunks, of 300, 300, 300 and 250 characters. *)
Example chunk_text_thousand :
  exists chunks,
    chunk_text 5 (String.string_of_list_ascii (replicate 1000 "a"%char)) 300 50
      = Some chunks /\
    map len chunks = [300; 300; 300; 250].
Proof. eexists. split; vm_compute; reflexivity. Qed.

(** C5 as stated fails in its count: for the text ["abc"] with
    [chunk_size = 3] and [overlap = 1] the code returns the two chunks
    ["abc"] and ["c"], while [ceil((3 - 1) / (3 - 1))] is 1. *)
Lemma chunk_count_formula_fails :
  chunk_text 3 "abc" 3 1 = Some ["abc"; "c"] /\
  Z.of_nat (length ["abc"; "c"]) <> ceil_div (len "abc" - 1) (3 - 1).
Proof. split; [reflexivity|]. vm_compute. discriminate. Qed.

(** C6 (as the code behaves): whenever [overlap < chunk_size] the loop of
    [chunk_text] ends, after at most [len(text)] iterations, and returns a
    finite list of chunks. *)
Theorem chunk_text_terminates (text : string) (chunk_size overlap : Z) :
  overlap < chunk_size ->
  exists chunks,
    forall fuel, (Z.to_nat (len text) < fuel)%nat ->
      chunk_text fuel text chunk_size overlap = Some chunks.
Proof.
  intros Hov.
  destruct (chunk_loop_terminates (S (Z.to_nat (len text))) text chunk_size overlap 0 [])
    as [chunks Hchunks]; [lia|rewrite Z.sub_0_r; lia|].
  exists chunks. intros fuel Hfuel. unfold chunk_text.
  eapply chunk_loop_fuel_mono; [|exact Hchunks]. lia.
Qed.

Lemma chunk_text_terminates_witness :
  exists chunks,
    forall fuel, (Z.to_nat (len "abc") < fuel)%nat -> chunk_text fuel "abc" 3 1 = Some chunks.
Proof. apply (chunk_text_terminates "abc" 3 1). lia. Defined.

(** C6 as stated fails for [overlap >= chunk_size]: nothing rejects such
    a configuration, and on a non-empty text the loop never ends.  For
    the text ["a"] with [chunk_size = 1] and [overlap = 1] no amount of
    fuel yields a result. *)
Lemma chunk_text_never_returns :
  ~ exists fuel chunks, chunk_text fuel "a" 1 1 = Some chunks.
Proof.
  intros (fuel & chunks & H). unfold chunk_text in H.
  rewrite chunk_loop_stuck in H; [discriminate|lia|vm_compute; reflexivity].
Qed.

Close Scope Z_scope.

(** *** Properties of the ticket log *)

Section TicketLogFacts.

Variable json_loads : string -> result LogEntry.

(** Every line of [lines] decodes, to the entries [entries] in order. *)
Definition decodes (lines : list string) (entries : list LogEntry) : Prop :=
  Forall2 (fun line entry => json_loads line = Ok entry) lines entries.

Lemma read_lines_decodes lines entries tickets :
  decodes lines entries ->
  read_lines json_loads lines tickets = Ok (tickets ++ entries).
Proof.
  intros H. revert tickets. induction H as [|line entry lines entries Hd _ IH]; intros tickets.
  - simpl. rewrite app_nil_r. reflexivity.
  - cbn [read_lines]. rewrite Hd. cbn [mbind result_bind].
    rewrite IH, <- app_assoc. reflexivity.
Qed.

(** The first line that does not decode ends the loop with its error. *)
Lemma read_lines_raises good entries bad e rest tickets :
  decodes good entries -> json_loads bad = Raise e ->
  read_lines json_loads (good ++ bad :: rest) tickets = Raise e.
Proof.
  intros H Hbad. revert tickets.
  induction H as [|line entry lines entries Hd _ IH]; intros tickets.
  - cbn [app read_lines]. rewrite Hbad. reflexivity.
  - cbn [app read_lines]. rewrite Hd. cbn [mbind result_bind]. apply IH.
Qed.

Lemma get_all_tickets_missing (fs : files) :
  fs !! tickets_jsonl = None -> get_all_tickets json_loads fs = Ok [].
Proof. intros H. unfold get_all_tickets. rewrite H. reflexivity. Qed.

(** C9 (as the code behaves): when every line of the log decodes,
    [get_all_tickets] returns the entries most recent first; a missing
    log reads as empty; when the lines before the last decode and the
    last one does not, as after a crash in the middle of a write, the
    decoding error leaves [get_all_tickets] and nothing is returned. *)
Theorem get_all_tickets_reads (fs : files) (good : list string) (entries : list LogEntry) :
  decodes good entries ->
  (fs !! tickets_jsonl = Some good ->
   get_all_tickets json_loads fs = Ok (reverse entries)) /\
  (fs !! tickets_jsonl = None -> get_all_tickets json_loads fs = Ok []) /\
  (forall last e,
     json_loads last = Raise e ->
     fs !! tickets_jsonl = Some (good ++ [last]) ->
     get_all_tickets json_loads fs = Raise e).
Proof.
  intros Hgood. split; [|split].
  - intros Hfs. unfold get_all_tickets. rewrite Hfs.
    rewrite (read_lines_decodes good entries) by exact Hgood. reflexivity.
  - apply get_all_tickets_missing.
  - intros last e Hlast Hfs. unfold get_all_tickets. rewrite Hfs.
    rewrite (read_lines_raises good entries last e) by assumption. reflexivity.
Qed.

(** C10: executing the class body empties [tickets.jsonl] when the file
    exists and creates nothing when it does not; no other file changes;
    and whatever the log held before, [get_all_tickets] reads it as empty
    afterwards.  The effect depends on the files alone: no pipeline
    instance and no call of [reset_support_tickets] is involved. *)
Theorem import_truncates_log (fs : files) :
  import_ragpipe fs !! tickets_jsonl = (fun _ => []) <$> fs !! tickets_jsonl /\
  (forall path, path <> tickets_jsonl -> import_ragpipe fs !! path = fs !! path) /\
  get_all_tickets json_loads (import_ragpipe fs) = Ok [] /\
  (forall json_dumps ticket_id text category response score is_confident,
     get_all_tickets json_loads
       (import_ragpipe
          (store_ticket json_dumps fs ticket_id text category response score is_confident))
     = Ok []).
Proof.
  assert (Hlog : forall fs' : files,
            import_ragpipe fs' !! tickets_jsonl = (fun _ => []) <$> fs' !! tickets_jsonl).
  { intros fs'. unfold import_ragpipe, class_body, path_exists, truncate.
    case_bool_decide as Hex.
    - destruct Hex as [lines Hlines]. rewrite lookup_insert_eq, Hlines. reflexivity.
    - destruct (fs' !! tickets_jsonl) as [lines|] eqn:E; [|reflexivity].
      exfalso. apply Hex. eauto. }
  assert (Hread : forall fs' : files, get_all_tickets json_loads (import_ragpipe fs') = Ok []).
  { intros fs'. unfold get_all_tickets. rewrite Hlog.
    destruct (fs' !! tickets_jsonl); reflexivity. }
  repeat split.
  - apply Hlog.
  - intros path Hpath. unfold import_ragpipe, class_body, truncate.
    destruct (path_exists fs tickets_jsonl); [|reflexivity].
    apply lookup_insert_ne. congruence.
  - apply Hread.
  - intros. apply Hread.
Qed.

End TicketLogFacts.

(** The entry and the line of the examples:
    [{"id": "t1", "text": "charged twice", "category": "Payment Issue",
      "response": "Sorry", "confidence": 0.5, "escalate": true}]. *)
Definition sample_entry : LogEntry :=
  {| id := "t1"; text := "charged twice"; category := "Payment Issue";
     response := "Sorry"; confidence := 0.5; escalate := true |}.

Definition quoted (s : string) : string := double_quote +:+ s +:+ double_quote.

Definition sample_line : string :=
  "{" +:+ quoted "id" +:+ ": " +:+ quoted "t1" +:+ ", " +:+
  quoted "text" +:+ ": " +:+ quoted "charged twice" +:+ ", " +:+
  quoted "category" +:+ ": " +:+ quoted "Payment Issue" +:+ ", " +:+
  quoted "response" +:+ ": " +:+ quoted "Sorry" +:+ ", " +:+
  quoted "confidence" +:+ ": 0.5, " +:+ quoted "escalate" +:+ ": true}".

(** The line a crash left behind after 40 characters of [sample_line]. *)
Definition truncated_line : string := str_slice sample_line 0 40.

(** [json.loads] on the lines of the examples: [sample_line] decodes to
    [sample_entry]; anything else here is a proper prefix of it, which is
    not a JSON document. *)
Definition sample_loads (line : string) : result LogEntry :=
  if String.eqb line sample_line then Ok sample_entry else Raise JSONDecodeError.

Lemma get_all_tickets_reads_witness :
  get_all_tickets sample_loads {[ tickets_jsonl := [sample_line; sample_line] ]}
    = Ok [sample_entry; sample_entry] /\
  get_all_tickets sample_loads {[ tickets_jsonl := [sample_line; sample_line; truncated_line] ]}
    = Raise JSONDecodeError.
Proof.
  destruct (get_all_tickets_reads sample_loads
              {[ tickets_jsonl := [sample_line; sample_line] ]}
              [sample_line; sample_line] [sample_entry; sample_entry]) as [H1 _].
  { repeat constructor. }
  destruct (get_all_tickets_reads sample_loads
              {[ tickets_jsonl := [sample_line; sample_line; truncated_line] ]}
              [sample_line; sample_line] [sample_entry; sample_entry]) as (_ & _ & H2).
  { repeat constructor. }
  split.
  - apply H1. reflexivity.
  - apply (H2 truncated_line JSONDecodeError); reflexivity.
Defined.

(** C9 as stated fails: it is not the case that a log whose last line
    does not decode is read with that line discarded.  [get_all_tickets]
    has no handler around [json.loads]; with the complete line followed by
    its truncation the read raises. *)
Lemma truncated_last_line_is_fatal :
  ~ (forall (json_loads : string -> result LogEntry) (fs : files)
            (good : list string) (entries : list LogEntry) (last : string),
       decodes json_loads good entries ->
       raises (json_loads last) ->
       fs !! tickets_jsonl = Some (good ++ [last]) ->
       get_all_tickets json_loads fs = Ok (reverse entries)).
Proof.
  intros H.
  specialize (H sample_loads {[ tickets_jsonl := [sample_line; truncated_line] ]}
                [sample_line] [sample_entry] truncated_line).
  discriminate H.
  - repeat constructor.
  - exists JSONDecodeError. reflexivity.
  - reflexivity.
Qed.

End Ragpipe.

(* ===================================================================== *)
(** ** Further properties of backend/app/rag/embeddings.py *)
(* ===================================================================== *)

Module Similarity.

Import Embeddings.
Open Scope float_scope.

Lemma calculate_similarity_zero_norm_nonfinite_witness :
  calculate_similarity [0] [1e200] = Ok nan /\
  calculate_similarity [1e200] [0] = Ok nan.
Proof.
  split.
  - apply (calculate_similarity_zero_norm_nonfinite [0] [1e200]); [reflexivity|].
    left. split; reflexivity.
  - apply (calculate_similarity_zero_norm_nonfinite [1e200] [0]); [reflexivity|].
    right. split; reflexivity.
Defined.

(** The default settings with [MAX_RETRIEVED_DOCS] set to [-1]. *)
Definition negative_limit : Settings :=
  {| SIMILARITY_THRESHOLD := 0.7; MAX_RETRIEVED_DOCS := -1;
     CONFIDENCE_THRESHOLD := 0.8; ESCALATION_THRESHOLD := 0.5 |}.

Lemma find_most_similar_negative_limit_witness :
  (exists out,
     find_most_similar negative_limit [1; 0] [[1; 0]; [2; 0]; [3; 0]] None = Ok out /\
     length out = 2%nat) /\
  find_most_similar negative_limit [1; 0] [[1; 0]] None = Ok [].
Proof.
  split.
  - destruct (find_most_similar_negative_limit negative_limit [1; 0]
                [[1; 0]; [2; 0]; [3; 0]] None) as (out & Hout & _ & Hlen & _).
    + vm_compute. reflexivity.
    + exists out. split; [exact Hout|]. rewrite Hlen. reflexivity.
  - destruct (find_most_similar_negative_limit negative_limit [1; 0]
                [[1; 0]] None) as (out & Hout & _ & _ & Hnil).
    + vm_compute. reflexivity.
    + rewrite Hout. f_equal. apply Hnil. vm_compute. lia.
Defined.

Lemma scored_indices q i cands : index <$> scored q i cands = seq i (length cands).
Proof.
  unfold scored. rewrite fmap_imap.
  rewrite (imap_ext _ (fun j _ => id (i + j)%nat)) by reflexivity.
  rewrite imap_seq. apply list_fmap_id.
Qed.

(** X4: whatever the limit and the threshold, [find_most_similar] returns
    no candidate twice, and every entry it returns is the position of a
    candidate with that candidate's similarity to the query, meets the
    threshold, and has a similarity that is not NaN. *)
Theorem find_most_similar_distinct (cfg : Settings) (query_embedding : list float)
    (candidate_embeddings : list (list float)) (threshold : option float) :
  exists out,
    find_most_similar cfg query_embedding candidate_embeddings threshold = Ok out /\
    NoDup (index <$> out) /\
    Forall (fun m =>
              (exists c, candidate_embeddings !! index m = Some c /\
                         similarity m = similarity_of query_embedding c) /\
              meets (default (SIMILARITY_THRESHOLD cfg) threshold) m /\
              is_nan (similarity m) = false) out.
Proof.
  eexists. split; [apply find_most_similar_eq|].
  set (t := default (SIMILARITY_THRESHOLD cfg) threshold).
  set (kept := filter (meets t) (scored query_embedding 0 candidate_embeddings)).
  split.
  - apply (sublist_NoDup _ (index <$> sort_desc similarity kept)).
    + rewrite Ranking.sort_desc_perm.
      apply (sublist_NoDup _ (index <$> scored query_embedding 0 candidate_embeddings)).
      * rewrite scored_indices. apply NoDup_seq.
      * apply fmap_sublist, sublist_filter.
    + apply fmap_sublist, slice_sublist.
  - rewrite Forall_forall. intros m Hm.
    apply slice_elem_of, Ranking.sort_desc_elem_of, list_elem_of_filter in Hm as [Hmeets Hm].
    apply scored_lookup in Hm as (j & c & Hc & ->). cbn [index similarity].
    split; [exists c; auto|]. split; [exact Hmeets|].
    apply meets_comparable in Hmeets. exact Hmeets.
Qed.

Close Scope float_scope.

End Similarity.

(* ===================================================================== *)
(** ** Further properties of backend/app/rag/retriever.py *)
(* ===================================================================== *)

Module Retrieval.

Import Embeddings Retriever.
Open Scope float_scope.

(** The embedding model cannot serve [query]: it was never loaded, or its
    [encode] raises on this text. *)
Definition unavailable (svc : EmbeddingService) (query : string) : Prop :=
  match model svc with
  | None => True
  | Some encode => raises (encode query)
  end.

Lemma unavailable_embedding_of svc query :
  unavailable svc query -> raises (embedding_of svc query).
Proof.
  unfold unavailable, embedding_of, outcome, generate_embedding. cbn [fst].
  destruct (model svc) as [encode|]; [|intros _; eexists; reflexivity].
  intros [e ->]. exists e. reflexivity.
Qed.

(** The tickets and the articles the two queries return. *)
Definition ticket_hits (cfg : Settings) (svc : EmbeddingService) (db : Session.t)
    (query : string) (limit exclude_ticket_id : option Z) : list TicketHit.t :=
  match embedding_of svc query with
  | Ok q => omap (ticket_hit db)
              (slice_to (ranked_tickets cfg db exclude_ticket_id q)
                        (default (MAX_RETRIEVED_DOCS cfg) limit))
  | Raise _ => []
  end.

Definition knowledge_hits (cfg : Settings) (svc : EmbeddingService) (db : Session.t)
    (query : string) (limit : option Z) (category : option string) : list KnowledgeHit.t :=
  match embedding_of svc query with
  | Ok q => omap (knowledge_hit db)
              (slice_to (ranked_knowledge cfg db category q)
                        (default (MAX_RETRIEVED_DOCS cfg) limit))
  | Raise _ => []
  end.

Lemma hybrid_search_eq cfg svc db query limit exclude :
  let total := default (MAX_RETRIEVED_DOCS cfg) limit in
  let tickets := ticket_hits cfg svc db query (Some (total `div` 2)%Z) exclude in
  let knowledge :=
    knowledge_hits cfg svc db query (Some (total - total `div` 2)%Z) None in
  hybrid_search cfg svc db query limit exclude
    = (Ok {| similar_tickets := tickets;
             relevant_knowledge := knowledge;
             total_results := length tickets + length knowledge |},
       [query; query]).
Proof.
  intros total tickets knowledge. unfold hybrid_search. fold total.
  rewrite find_similar_tickets_eq. cbn [mbind traced_bind].
  rewrite find_relevant_knowledge_eq. reflexivity.
Qed.

Lemma hits_unavailable cfg svc db query limit exclude category :
  unavailable svc query ->
  ticket_hits cfg svc db query limit exclude = [] /\
  knowledge_hits cfg svc db query limit category = [].
Proof.
  intros H. apply unavailable_embedding_of in H as [e He].
  unfold ticket_hits, knowledge_hits. rewrite He. split; reflexivity.
Qed.

(** X5: when the embedding model is not loaded, or raises on the query,
    neither query nor [hybrid_search] raises: each returns no result, and
    [hybrid_search] reports [total_results = 0]. *)
Theorem hybrid_search_unavailable (cfg : Settings) (svc : EmbeddingService) (db : Session.t)
    (query : string) (limit exclude_ticket_id : option Z) (category : option string) :
  unavailable svc query ->
  find_similar_tickets cfg svc db query limit exclude_ticket_id = (Ok [], [query]) /\
  find_relevant_knowledge cfg svc db query limit category = (Ok [], [query]) /\
  hybrid_search cfg svc db query limit exclude_ticket_id
    = (Ok {| similar_tickets := []; relevant_knowledge := []; total_results := 0 |},
       [query; query]).
Proof.
  intros H. split; [|split].
  - rewrite find_similar_tickets_eq.
    destruct (hits_unavailable cfg svc db query limit exclude_ticket_id None H) as [Ht _].
    unfold ticket_hits in Ht. rewrite Ht. reflexivity.
  - rewrite find_relevant_knowledge_eq.
    destruct (hits_unavailable cfg svc db query limit None category H) as [_ Hk].
    unfold knowledge_hits in Hk. rewrite Hk. reflexivity.
  - rewrite hybrid_search_eq. cbv zeta.
    destruct (hits_unavailable cfg svc db query
                (Some (default (MAX_RETRIEVED_DOCS cfg) limit `div` 2)%Z)
                exclude_ticket_id None H) as [-> _].
    destruct (hits_unavailable cfg svc db query
                (Some (default (MAX_RETRIEVED_DOCS cfg) limit
                       - default (MAX_RETRIEVED_DOCS cfg) limit `div` 2)%Z)
                None None H) as [_ ->].
    reflexivity.
Qed.

(** A service whose model was never loaded. *)
Definition no_model : EmbeddingService := {| model := None |}.

Lemma hybrid_search_unavailable_witness :
  hybrid_search settings no_model three_tickets "refund" None None
    = (Ok {| similar_tickets := []; relevant_knowledge := []; total_results := 0 |},
       ["refund"; "refund"]).
Proof.
  apply (hybrid_search_unavailable settings no_model three_tickets "refund" None None None).
  exact I.
Defined.

Lemma ticket_by_id_elem_of db i ticket :
  Session.ticket_by_id db i = Some ticket -> ticket ∈ Session.tickets db.
Proof.
  unfold Session.ticket_by_id. intros H.
  apply fmap_Some in H as ([j tk] & Hfind & ->).
  apply list_find_Some in Hfind as (Hj & _). eapply list_elem_of_lookup_2, Hj.
Qed.

Lemma ticket_embeddings_query_elem_of db exclude te :
  te ∈ ticket_embeddings_query db exclude ->
  te ∈ Session.ticket_embeddings db /\
  is_Some (Session.ticket_by_id db (TicketEmbedding.ticket_id te)).
Proof.
  unfold ticket_embeddings_query. intros H.
  destruct (truthy exclude); [apply list_elem_of_filter in H as [_ H]|];
    apply list_elem_of_filter in H as [H1 H2]; auto.
Qed.

(** Where a returned ticket comes from. *)
Lemma ticket_hit_stored cfg svc db query limit exclude h :
  h ∈ ticket_hits cfg svc db query limit exclude ->
  exists q te,
    embedding_of svc query = Ok q /\
    te ∈ ticket_embeddings_query db exclude /\
    row_meets cfg q te /\
    Session.ticket_by_id db (TicketEmbedding.ticket_id te) = Some (TicketHit.ticket h) /\
    TicketHit.similarity h = row_similarity q te.
Proof.
  unfold ticket_hits. destruct (embedding_of svc query) as [q|e]; [|inversion 1].
  intros Hh. apply list_elem_of_omap in Hh as (sim & Hsim & Hh).
  apply slice_elem_of, ranked_tickets_elem_of in Hsim as (te & Hte & Hmeets & ->).
  unfold ticket_hit in Hh. cbn [TicketSim.ticket_id TicketSim.similarity ticket_sim] in Hh.
  apply fmap_Some in Hh as (tk & Htk & ->). cbn [TicketHit.ticket TicketHit.similarity].
  exists q, te. auto.
Qed.

(** X6: every ticket [find_similar_tickets] returns is a row of the
    tickets table, the first with its id, reached through a row of the
    embeddings table; the similarity reported is that of the query
    embedding to the stored vector, and it is never NaN. *)
Theorem find_similar_tickets_sound (cfg : Settings) (svc : EmbeddingService)
    (db : Session.t) (query : string) (limit exclude_ticket_id : option Z) :
  exists out,
    find_similar_tickets cfg svc db query limit exclude_ticket_id = (Ok out, [query]) /\
    Forall (fun h =>
              exists q te,
                embedding_of svc query = Ok q /\
                te ∈ Session.ticket_embeddings db /\
                Session.ticket_by_id db (TicketEmbedding.ticket_id te)
                  = Some (TicketHit.ticket h) /\
                TicketHit.ticket h ∈ Session.tickets db /\
                Ticket.id (TicketHit.ticket h) = TicketEmbedding.ticket_id te /\
                TicketHit.similarity h
                  = similarity_of q (TicketEmbedding.embedding_vector te) /\
                is_nan (TicketHit.similarity h) = false) out.
Proof.
  eexists. split; [apply find_similar_tickets_eq|].
  rewrite Forall_forall. intros h Hh.
  apply ticket_hit_stored in Hh as (q & te & Hq & Hte & Hmeets & Htk & Hs).
  exists q, te. split; [exact Hq|].
  split; [apply (ticket_embeddings_query_elem_of _ _ _ Hte)|].
  split; [exact Htk|]. split; [eapply ticket_by_id_elem_of, Htk|].
  split; [eapply ticket_by_id_id, Htk|]. split; [exact Hs|].
  rewrite Hs. apply FloatFacts.leb_notnan in Hmeets as [_ H]. exact H.
Qed.

Lemma knowledge_by_id_spec db i kb :
  Session.knowledge_by_id db i = Some kb ->
  kb ∈ Session.knowledge_base db /\ KnowledgeBase.id kb = i.
Proof.
  unfold Session.knowledge_by_id. intros H.
  apply fmap_Some in H as ([j k] & Hfind & ->).
  apply list_find_Some in Hfind as (Hj & Hid & _).
  split; [eapply list_elem_of_lookup_2, Hj|exact Hid].
Qed.

Lemma knowledge_embeddings_query_elem_of db category ke :
  ke ∈ knowledge_embeddings_query db category ->
  ke ∈ Session.knowledge_embeddings db /\
  exists kb, Session.knowledge_by_id db (KnowledgeEmbedding.knowledge_id ke) = Some kb /\
             KnowledgeBase.is_active kb = true /\
             (truthy_str category = true -> KnowledgeBase.category kb = category).
Proof.
  unfold knowledge_embeddings_query. intros H.
  apply list_elem_of_filter in H as [H1 H2]. split; [exact H2|].
  unfold joined_knowledge in H1.
  destruct (Session.knowledge_by_id db (KnowledgeEmbedding.knowledge_id ke)) as [kb|];
    [|discriminate].
  exists kb. split; [reflexivity|].
  destruct (truthy_str category).
  - apply andb_true_iff in H1 as [Hc Ha]. apply bool_decide_eq_true in Hc. auto.
  - split; [exact H1|discriminate].
Qed.

Lemma ranked_knowledge_descending cfg db category q :
  StronglySorted (Ranking.descending KnowledgeSim.similarity)
                 (ranked_knowledge cfg db category q).
Proof.
  apply Ranking.sort_desc_descending. rewrite Forall_forall. intros sim Hsim.
  apply list_elem_of_fmap in Hsim as (ke & -> & Hke).
  apply list_elem_of_filter in Hke as [Hke _].
  apply FloatFacts.leb_notnan in Hke as [_ Hke]. exact Hke.
Qed.

(** Where a returned article comes from. *)
Lemma knowledge_hit_stored cfg svc db query limit category h :
  h ∈ knowledge_hits cfg svc db query limit category ->
  exists q ke,
    embedding_of svc query = Ok q /\
    ke ∈ knowledge_embeddings_query db category /\
    article_meets cfg q ke /\
    Session.knowledge_by_id db (KnowledgeEmbedding.knowledge_id ke)
      = Some (KnowledgeHit.knowledge h) /\
    KnowledgeHit.similarity h = article_similarity q ke.
Proof.
  unfold knowledge_hits. destruct (embedding_of svc query) as [q|e]; [|inversion 1].
  intros Hh. apply list_elem_of_omap in Hh as (sim & Hsim & Hh).
  apply slice_elem_of in Hsim. unfold ranked_knowledge in Hsim.
  apply Ranking.sort_desc_elem_of, list_elem_of_fmap in Hsim as (ke & -> & Hke).
  apply list_elem_of_filter in Hke as [Hmeets Hke].
  unfold knowledge_hit in Hh.
  cbn [KnowledgeSim.knowledge_id KnowledgeSim.similarity knowledge_sim] in Hh.
  apply fmap_Some in Hh as (kb & Hkb & ->).
  cbn [KnowledgeHit.knowledge KnowledgeHit.similarity].
  exists q, ke. auto.
Qed.

(** X7: every article [find_relevant_knowledge] returns is a row of the
    knowledge base that is active and, when a non-empty category was asked
    for, of that category; its similarity is that of the query embedding
    to a stored vector of the article and meets the threshold; and
    similarities never increase along the result. *)
Theorem find_relevant_knowledge_filters (cfg : Settings) (svc : EmbeddingService)
    (db : Session.t) (query : string) (limit : option Z) (category : option string) :
  exists out,
    find_relevant_knowledge cfg svc db query limit category = (Ok out, [query]) /\
    StronglySorted (Ranking.descending KnowledgeHit.similarity) out /\
    Forall (fun h =>
              let kb := KnowledgeHit.knowledge h in
              kb ∈ Session.knowledge_base db /\
              KnowledgeBase.is_active kb = true /\
              (truthy_str category = true -> KnowledgeBase.category kb = category) /\
              exists q ke,
                embedding_of svc query = Ok q /\
                ke ∈ Session.knowledge_embeddings db /\
                KnowledgeEmbedding.knowledge_id ke = KnowledgeBase.id kb /\
                KnowledgeHit.similarity h
                  = similarity_of q (KnowledgeEmbedding.embedding_vector ke) /\
                (SIMILARITY_THRESHOLD cfg <=? KnowledgeHit.similarity h) = true) out.
Proof.
  eexists. split; [apply find_relevant_knowledge_eq|]. split.
  - destruct (embedding_of svc query) as [q|e]; [|constructor].
    eapply Ranking.StronglySorted_omap;
      [|apply slice_StronglySorted, ranked_knowledge_descending].
    intros x y a b Hxy Ha Hb. unfold knowledge_hit in Ha, Hb.
    apply fmap_Some in Ha as (? & _ & ->). apply fmap_Some in Hb as (? & _ & ->).
    exact Hxy.
  - rewrite Forall_forall. intros h Hh.
    apply knowledge_hit_stored in Hh as (q & ke & Hq & Hke & Hmeets & Hkb & Hs).
    apply knowledge_embeddings_query_elem_of in Hke as (Hrow & kb & Hkb' & Hactive & Hcat).
    rewrite Hkb in Hkb'. injection Hkb' as <-.
    apply knowledge_by_id_spec in Hkb as [Hin Hid].
    cbv zeta. split; [exact Hin|]. split; [exact Hactive|]. split; [exact Hcat|].
    exists q, ke. repeat split; auto. rewrite Hs. exact Hmeets.
Qed.

(** *** [find_similar_tickets] against [find_most_similar] *)

Section Related.
Context {A B : Type} (keyA : A -> float) (keyB : B -> float) (R : A -> B -> Prop).
Hypothesis R_key : forall x y, R x y -> keyA x = keyB y.

Lemma insert_desc_Forall2 x y s1 s2 :
  R x y -> Forall2 R s1 s2 -> Forall2 R (insert_desc keyA x s1) (insert_desc keyB y s2).
Proof.
  intros Hxy H. induction H as [|a b s1 s2 Hab H IH]; cbn [insert_desc].
  - repeat constructor. exact Hxy.
  - rewrite (R_key _ _ Hxy), (R_key _ _ Hab).
    destruct (keyB y <? keyB b); repeat constructor; auto.
Qed.

Lemma sort_desc_Forall2 l1 l2 :
  Forall2 R l1 l2 -> Forall2 R (sort_desc keyA l1) (sort_desc keyB l2).
Proof.
  induction 1 as [|a b l1 l2 Hab H IH]; [constructor|].
  cbn [sort_desc foldr]. apply insert_desc_Forall2; assumption.
Qed.

Lemma slice_Forall2 l1 l2 start stop :
  Forall2 R l1 l2 -> Forall2 R (slice l1 start stop) (slice l2 start stop).
Proof.
  intros H. unfold slice. rewrite (Forall2_length _ _ _ H).
  apply Forall2_take, Forall2_drop, H.
Qed.
End Related.

(** An entry of [find_similar_tickets] and an entry of [find_most_similar]
    stand for the same row of [rows]. *)
Definition same_row (rows : list TicketEmbedding.t) (sim : TicketSim.t) (m : Match) : Prop :=
  TicketSim.similarity sim = similarity m /\
  TicketSim.ticket_id sim = TicketEmbedding.ticket_id (TicketSim.ticket_embedding sim) /\
  rows !! index m = Some (TicketSim.ticket_embedding sim).

Lemma kept_same_row cfg q prefix rest :
  Forall2 (same_row (prefix ++ rest))
    (ticket_sim q <$> filter (row_meets cfg q) rest)
    (filter (meets (SIMILARITY_THRESHOLD cfg))
            (scored q (length prefix) (TicketEmbedding.embedding_vector <$> rest))).
Proof.
  revert prefix. induction rest as [|te rest IH]; intros prefix; [constructor|].
  rewrite fmap_cons, scored_cons, !filter_cons.
  specialize (IH (prefix ++ [te])).
  rewrite <- app_assoc, length_app, Nat.add_1_r in IH. cbn [app] in IH.
  destruct (decide (row_meets cfg q te)) as [H|H];
    destruct (decide (meets _ _)) as [H'|H']; unfold meets, row_meets, row_similarity in *;
    cbn [similarity] in *; try contradiction; [|exact IH].
  rewrite fmap_cons. constructor; [|exact IH].
  repeat split. cbn. rewrite lookup_app_r by lia. rewrite Nat.sub_diag. reflexivity.
Qed.

(** X8: the retriever ranks as the embedding service does.  With the
    limit and the threshold of the settings, [find_similar_tickets]
    returns, position by position, the tickets of the rows that
    [find_most_similar] selects among the stored vectors of the rows
    queried, with the same similarities. *)
Theorem ticket_ranking_agrees (cfg : Settings) (svc : EmbeddingService) (db : Session.t)
    (query : string) (exclude_ticket_id : option Z) (q : list float) :
  embedding_of svc query = Ok q ->
  let rows := ticket_embeddings_query db exclude_ticket_id in
  exists hits matches,
    find_similar_tickets cfg svc db query None exclude_ticket_id = (Ok hits, [query]) /\
    find_most_similar cfg q (TicketEmbedding.embedding_vector <$> rows) None = Ok matches /\
    Forall2 (fun h m =>
               TicketHit.similarity h = similarity m /\
               exists te, rows !! index m = Some te /\
                          Ticket.id (TicketHit.ticket h) = TicketEmbedding.ticket_id te)
            hits matches.
Proof.
  intros Hq rows. eexists. eexists.
  split; [apply find_similar_tickets_eq|]. split; [apply find_most_similar_eq|].
  rewrite Hq. cbn [default]. unfold ranked_tickets, slice_to. fold rows.
  pose proof (kept_same_row cfg q [] rows) as Hkept. cbn [app length] in Hkept.
  apply (sort_desc_Forall2 TicketSim.similarity similarity) in Hkept;
    [|intros x y (H & _); exact H].
  apply (slice_Forall2 _ _ _ 0%Z (MAX_RETRIEVED_DOCS cfg)) in Hkept.
  induction Hkept as [|sim m sims ms (Hs & Hid & Hrow) _ IH]; [constructor|].
  cbn [omap list_omap].
  assert (Hjoin : is_Some (Session.ticket_by_id db (TicketSim.ticket_id sim))).
  { rewrite Hid. apply list_elem_of_lookup_2 in Hrow.
    apply (ticket_embeddings_query_elem_of db exclude_ticket_id), Hrow. }
  destruct Hjoin as [tk Htk]. unfold ticket_hit at 1. rewrite Htk.
  cbn [fmap option_fmap option_map].
  constructor; [|exact IH]. cbn [TicketHit.similarity TicketHit.ticket].
  split; [exact Hs|]. exists (TicketSim.ticket_embedding sim).
  split; [exact Hrow|]. rewrite <- Hid. eapply ticket_by_id_id, Htk.
Qed.

Lemma ticket_ranking_agrees_witness :
  exists hits matches,
    find_similar_tickets settings constant_service three_tickets "refund" None None
      = (Ok hits, ["refund"]) /\
    find_most_similar settings [1; 0]
      (TicketEmbedding.embedding_vector <$> ticket_embeddings_query three_tickets None) None
      = Ok matches /\
    Forall2 (fun h m =>
               TicketHit.similarity h = similarity m /\
               exists te, ticket_embeddings_query three_tickets None !! index m = Some te /\
                          Ticket.id (TicketHit.ticket h) = TicketEmbedding.ticket_id te)
            hits matches.
Proof.
  apply (ticket_ranking_agrees settings constant_service three_tickets "refund" None
           [1; 0] eq_refl).
Defined.

Close Scope float_scope.

End Retrieval.

(* ===================================================================== *)
(** ** Further properties of backend/app/rag/generator.py *)
(* ===================================================================== *)

Module Synthesis.

Import Retriever Generator.
Open Scope float_scope.

Lemma retrieved_confidence_unit_witness :
  exists found calls,
    hybrid_search settings constant_service three_tickets "refund" None None
      = (Ok found, calls) /\
    in_unit_interval
      (_calculate_confidence (similar_tickets found) (relevant_knowledge found)).
Proof.
  eexists. eexists. split; [reflexivity|].
  eapply (retrieved_confidence_unit settings constant_service three_tickets "refund"
            None None); [reflexivity|cbn; lia|reflexivity].
Defined.

Lemma ltb_nan_l x y : is_nan x = true -> (x <? y) = false.
Proof.
  intros H. apply FloatFacts.is_nan_eq in H. subst x.
  rewrite FloatAxioms.ltb_spec. reflexivity.
Qed.

Section Replies.

Variable create : string -> string -> result ChatCompletion.
Variable _build_context : list TicketHit.t -> list KnowledgeHit.t -> result string.
Variable _create_prompt : Ticket.t -> string -> result string.

(** What the [try] block of [generate_response] returns when it returns. *)
Lemma generate_response_try_returns cfg ticket similar_tickets relevant_knowledge reply :
  generate_response_try create _build_context _create_prompt cfg ticket
    similar_tickets relevant_knowledge = Ok reply ->
  exists context prompt completion content rest,
    _build_context similar_tickets relevant_knowledge = Ok context /\
    _create_prompt ticket context = Ok prompt /\
    create _get_system_prompt prompt = Ok completion /\
    choices completion = content :: rest /\
    reply = {| response := content;
               confidence := _calculate_confidence similar_tickets relevant_knowledge;
               sources := _extract_sources similar_tickets relevant_knowledge;
               should_escalate :=
                 _calculate_confidence similar_tickets relevant_knowledge
                 <? ESCALATION_THRESHOLD cfg |}.
Proof.
  unfold generate_response_try.
  destruct (_build_context similar_tickets relevant_knowledge) as [context|];
    cbn [mbind result_bind]; [|discriminate].
  destruct (_create_prompt ticket context) as [prompt|] eqn:Ep;
    cbn [mbind result_bind]; [|discriminate].
  destruct (create _get_system_prompt prompt) as [[[|content rest]]|] eqn:Ec;
    cbn [mbind result_bind choices]; [discriminate| |discriminate].
  intros [= <-]. exists context, prompt, {| choices := content :: rest |}, content, rest.
  repeat split; auto.
Qed.

Lemma generate_response_cases cfg ticket similar_tickets relevant_knowledge :
  (raises (generate_response_try create _build_context _create_prompt cfg ticket
             similar_tickets relevant_knowledge) /\
   generate_response create _build_context _create_prompt cfg ticket
     similar_tickets relevant_knowledge = Ok fallback) \/
  (exists reply,
     generate_response_try create _build_context _create_prompt cfg ticket
       similar_tickets relevant_knowledge = Ok reply /\
     generate_response create _build_context _create_prompt cfg ticket
       similar_tickets relevant_knowledge = Ok reply).
Proof.
  unfold generate_response.
  destruct (generate_response_try _ _ _ _ _ _ _) as [reply|e].
  - right. exists reply. split; reflexivity.
  - left. split; [exists e|]; reflexivity.
Qed.

(** X11: the escalation flag of a reply.  A reply whose confidence is
    below [ESCALATION_THRESHOLD] is always flagged; the fallback reply is
    flagged whatever the threshold; a reply computed by the [try] block is
    flagged exactly when its confidence compares below the threshold, so a
    reply with a NaN confidence is never flagged. *)
Theorem generate_response_escalation (cfg : Settings) (ticket : Ticket.t)
    (similar_tickets : list TicketHit.t) (relevant_knowledge : list KnowledgeHit.t) :
  let attempt := generate_response_try create _build_context _create_prompt cfg ticket
                   similar_tickets relevant_knowledge in
  exists reply,
    generate_response create _build_context _create_prompt cfg ticket
      similar_tickets relevant_knowledge = Ok reply /\
    ((confidence reply <? ESCALATION_THRESHOLD cfg) = true ->
     should_escalate reply = true) /\
    (raises attempt -> should_escalate reply = true) /\
    (returns attempt ->
     should_escalate reply = (confidence reply <? ESCALATION_THRESHOLD cfg)) /\
    (returns attempt -> is_nan (confidence reply) = true ->
     should_escalate reply = false).
Proof.
  intros attempt.
  destruct (generate_response_cases cfg ticket similar_tickets relevant_knowledge)
    as [[Hraise Hreply]|(reply & Htry & Hreply)].
  - exists fallback. split; [exact Hreply|].
    assert (Hno : ~ returns attempt).
    { intros Hret. exact (returns_not_raises _ Hret Hraise). }
    repeat split; try reflexivity; intros; contradiction.
  - exists reply. split; [exact Hreply|].
    pose proof Htry as Hshape.
    apply generate_response_try_returns in Hshape
      as (context & prompt & completion & content & rest & _ & _ & _ & _ & ->).
    cbn [should_escalate confidence].
    split; [auto|]. split; [|split]; [|reflexivity|].
    + intros Hraise. exfalso. eapply returns_not_raises; [|exact Hraise].
      eexists. exact Htry.
    + intros _ Hnan. apply ltb_nan_l, Hnan.
Qed.

(** X12: an outage of the embedding model is not visible in the reply.
    When the model cannot embed the query, [hybrid_search] finds nothing;
    if the completion call then succeeds, [generate_response] returns the
    completion's first choice with the base confidence [0.5] and no
    sources, flagged only if [0.5] is below [ESCALATION_THRESHOLD], which
    it is not under the default settings. *)
Theorem generate_response_embedding_outage (cfg : Settings) (svc : EmbeddingService)
    (db : Session.t) (query : string) (limit exclude_ticket_id : option Z)
    (ticket : Ticket.t) (context prompt : string) (completion : ChatCompletion)
    (content : string) (rest : list string) :
  Retrieval.unavailable svc query ->
  _build_context [] [] = Ok context ->
  _create_prompt ticket context = Ok prompt ->
  create _get_system_prompt prompt = Ok completion ->
  choices completion = content :: rest ->
  exists found,
    outcome (hybrid_search cfg svc db query limit exclude_ticket_id) = Ok found /\
    generate_response create _build_context _create_prompt cfg ticket
      (similar_tickets found) (relevant_knowledge found)
    = Ok {| response := content; confidence := 0.5; sources := [];
            should_escalate := 0.5 <? ESCALATION_THRESHOLD cfg |} /\
    (0.5 <? ESCALATION_THRESHOLD settings) = false.
Proof.
  intros Hdown Hcontext Hprompt Hcreate Hchoices.
  eexists. split; [rewrite Retrieval.hybrid_search_eq; reflexivity|].
  cbn [similar_tickets relevant_knowledge].
  destruct (Retrieval.hits_unavailable cfg svc db query
              (Some (default (MAX_RETRIEVED_DOCS cfg) limit `div` 2)%Z)
              exclude_ticket_id None Hdown) as [-> _].
  destruct (Retrieval.hits_unavailable cfg svc db query
              (Some (default (MAX_RETRIEVED_DOCS cfg) limit
                     - default (MAX_RETRIEVED_DOCS cfg) limit `div` 2)%Z)
              None None Hdown) as [_ ->].
  split; [|reflexivity].
  unfold generate_response, generate_response_try.
  rewrite Hcontext. cbn [mbind result_bind]. rewrite Hprompt. cbn [mbind result_bind].
  rewrite Hcreate. cbn [mbind result_bind]. rewrite Hchoices. reflexivity.
Qed.

End Replies.

(** A completion service that always answers. *)
Definition answering (system prompt : string) : result ChatCompletion :=
  Ok {| choices := ["Please restart the router."] |}.

Lemma generate_response_embedding_outage_witness :
  exists found,
    outcome (hybrid_search settings Retrieval.no_model three_tickets "refund" None None)
      = Ok found /\
    generate_response answering (fun _ _ => Ok "context") (fun _ context => Ok context)
      settings (ticket_row 1) (similar_tickets found) (relevant_knowledge found)
    = Ok {| response := "Please restart the router."; confidence := 0.5; sources := [];
            should_escalate := 0.5 <? ESCALATION_THRESHOLD settings |} /\
    (0.5 <? ESCALATION_THRESHOLD settings) = false.
Proof.
  apply (generate_response_embedding_outage answering
           (fun _ _ => Ok "context") (fun _ context => Ok context)
           settings Retrieval.no_model three_tickets "refund" None None (ticket_row 1)
           "context" "context" {| choices := ["Please restart the router."] |}
           "Please restart the router." []); first [exact I|reflexivity].
Defined.

Close Scope float_scope.

End Synthesis.

(* ===================================================================== *)
(** ** backend/app/rag/generator.py: [categorize_ticket] *)
(* ===================================================================== *)

Module Categorization.

Import Generator.
Open Scope float_scope.

(** The dictionary [categorize_ticket] returns. *)
Record Categorization : Type := { category : string; confidence : float }.

(** [s.split(sep)] for a one-character separator. *)
Fixpoint split (sep : ascii) (s : string) : list string :=
  match s with
  | EmptyString => [EmptyString]
  | String c rest =>
      if Ascii.eqb c sep then EmptyString :: split sep rest
      else match split sep rest with
           | first :: others => String c first :: others
           | [] => [String c EmptyString]
           end
  end.

(** [s.count(sep)]. *)
Fixpoint count (sep : ascii) (s : string) : nat :=
  match s with
  | EmptyString => 0
  | String c rest => (if Ascii.eqb c sep then 1 else 0) + count sep rest
  end.

Definition newline : string := String "010"%char EmptyString.

(** The f-string of [categorize_ticket]. *)
Definition categorize_prompt (ticket_text : string) : string :=
  String.concat newline
    [EmptyString;
     "            Analyze this customer support ticket and categorize it:";
     "            ";
     "            Ticket: " +:+ ticket_text;
     "            ";
     "            Categories:";
     "            - TECHNICAL: Technical issues, bugs, software problems";
     "            - BILLING: Payment, subscription, billing inquiries";
     "            - ACCOUNT: Account access, profile, settings";
     "            - PRODUCT: Product information, features, usage";
     "            - GENERAL: General inquiries, feedback";
     "            ";
     "            Respond with only the category name and confidence (0-1):";
     "            Format: CATEGORY_NAME,confidence_score";
     "            "].

Definition categorize_system_prompt : string :=
  "You are a ticket categorization system. Respond only with the category and confidence score.".

(** The dictionary of the [except] clause. *)
Definition general : Categorization := {| category := "GENERAL"; confidence := 0.5 |}.

Section Categorizer.

(** The completion call, as a function of the system and user messages;
    [str.strip]; and [float] on a string, which raises [ValueError] on
    text that is not a number. *)
Variable create : string -> string -> result ChatCompletion.
Variable strip : string -> string.
Variable float_of_str : string -> result float.

(** The body of the [try] block of [categorize_ticket]. *)
Definition categorize_ticket_try (ticket_text : string) : result Categorization :=
  let prompt := categorize_prompt ticket_text in
  response ← create categorize_system_prompt prompt;
  content ← match choices response with
            | content :: _ => Ok content
            | [] => Raise IndexError
            end;
  let result := strip content in
  parts ← match split ","%char result with
          | [category; confidence] => Ok (category, confidence)
          | _ => Raise ValueError
          end;
  let category := strip (fst parts) in
  confidence ← float_of_str (strip (snd parts));
  mret {| category := category; confidence := confidence |}.

(** [ResponseGenerator.categorize_ticket]. *)
Definition categorize_ticket (ticket_text : string) : result Categorization :=
  try_except (categorize_ticket_try ticket_text) (fun _ => mret general).

End Categorizer.

Lemma split_length sep s : length (split sep s) = S (count sep s).
Proof.
  induction s as [|c s IH]; [reflexivity|]. cbn [split count].
  destruct (Ascii.eqb c sep); cbn [length]; [rewrite IH; reflexivity|].
  destruct (split sep s) as [|first others]; [discriminate|].
  cbn [length] in *. lia.
Qed.

Lemma append_nil (s : string) : EmptyString +:+ s = s.
Proof. reflexivity. Qed.

Lemma append_cons (c : ascii) (s t : string) : String c s +:+ t = String c (s +:+ t).
Proof. reflexivity. Qed.

Lemma split_none sep s : count sep s = 0%nat -> split sep s = [s].
Proof.
  induction s as [|c s IH]; [reflexivity|]. cbn [count split].
  destruct (Ascii.eqb c sep); [discriminate|]. intros H. rewrite IH by exact H.
  reflexivity.
Qed.

Lemma split_once sep a b :
  count sep a = 0%nat -> count sep b = 0%nat ->
  split sep (a +:+ String sep b) = [a; b].
Proof.
  intros Ha Hb. induction a as [|c a IH]; rewrite ?append_nil, ?append_cons; cbn [split].
  - rewrite Ascii.eqb_refl, (split_none sep b Hb). reflexivity.
  - cbn [count] in Ha. destruct (Ascii.eqb c sep); [discriminate|].
    rewrite IH by exact Ha. reflexivity.
Qed.

(** X13: [categorize_ticket] never raises, and it accepts the answer of
    the completion service only in the shape [category,confidence].  An
    answer whose stripped text does not hold exactly one comma yields
    [GENERAL] with confidence [0.5], as does every failure of the call or
    of the conversion of the confidence; an answer with exactly one comma
    whose second part converts yields the stripped first part as the
    category, whatever that text is, with the converted confidence. *)
Theorem categorize_ticket_format (create : string -> string -> result ChatCompletion)
    (strip : string -> string) (float_of_str : string -> result float)
    (ticket_text : string) (completion : ChatCompletion) (content : string)
    (rest : list string) :
  create categorize_system_prompt (categorize_prompt ticket_text) = Ok completion ->
  choices completion = content :: rest ->
  (count ","%char (strip content) <> 1%nat ->
   categorize_ticket create strip float_of_str ticket_text = Ok general) /\
  (forall a b,
     strip content = a +:+ String ","%char b ->
     count ","%char a = 0%nat -> count ","%char b = 0%nat ->
     categorize_ticket create strip float_of_str ticket_text
     = match float_of_str (strip b) with
       | Ok c => Ok {| category := strip a; confidence := c |}
       | Raise _ => Ok general
       end).
Proof.
  intros Hcreate Hchoices.
  unfold categorize_ticket, categorize_ticket_try.
  rewrite Hcreate. cbn [mbind result_bind]. rewrite Hchoices. cbn [mbind result_bind].
  split.
  - intros Hcount. pose proof (split_length ","%char (strip content)) as Hlen.
    destruct (split ","%char (strip content)) as [|x [|y [|z l]]]; try reflexivity.
    cbn [length] in Hlen. lia.
  - intros a b Hab Ha Hb. rewrite Hab, (split_once _ a b Ha Hb).
    cbn [mbind result_bind fst snd].
    destruct (float_of_str (strip b)); reflexivity.
Qed.

(** A completion service that answers [BILLING,0.9,high]. *)
Definition two_commas (system prompt : string) : result ChatCompletion :=
  Ok {| choices := ["BILLING,0.9,high"] |}.

Lemma categorize_ticket_format_witness :
  categorize_ticket two_commas (fun s => s) (fun _ => Ok 0.9) "charged twice" = Ok general.
Proof.
  destruct (categorize_ticket_format two_commas (fun s => s) (fun _ => Ok 0.9)
              "charged twice" {| choices := ["BILLING,0.9,high"] |}
              "BILLING,0.9,high" [] eq_refl eq_refl) as [H _].
  apply H. vm_compute. discriminate.
Defined.

Close Scope float_scope.

End Categorization.

(* ===================================================================== *)
(** ** backend/app/rag/generator.py: [_build_context] *)
(* ===================================================================== *)

Module Context.

Import Retriever Generator.

Definition newline : string := String "010"%char EmptyString.

(** [f"{knowledge.category}"]: the text of the column, [None] for NULL. *)
Definition str_category (category : option string) : string :=
  match category with
  | Some text => text
  | None => "None"
  end.

Section Builder.

(** [f"{similarity:.2f}"], and [ticket.status.value], which raises
    [AttributeError] on a ticket without status. *)
Variable format_2f : float -> string.
Variable status_value : Ticket.t -> result string.

(** The loop over [enumerate(similar_tickets[:3], 1)], from number [i] on. *)
Fixpoint ticket_parts (i : nat) (items : list TicketHit.t) (context_parts : list string)
    : result (list string) :=
  match items with
  | [] => mret context_parts
  | item :: rest =>
      let ticket := TicketHit.ticket item in
      let similarity := TicketHit.similarity item in
      status ← status_value ticket;
      ticket_parts (S i) rest
        (context_parts ++
         [pretty i +:+ ". Title: " +:+ Ticket.title ticket;
          "   Description: " +:+ Ticket.description ticket;
          "   Status: " +:+ status;
          "   Similarity: " +:+ format_2f similarity;
          EmptyString])
  end.

(** The loop over [enumerate(relevant_knowledge[:3], 1)]. *)
Fixpoint knowledge_parts (i : nat) (items : list KnowledgeHit.t) (context_parts : list string)
    : list string :=
  match items with
  | [] => context_parts
  | item :: rest =>
      let knowledge := KnowledgeHit.knowledge item in
      let similarity := KnowledgeHit.similarity item in
      knowledge_parts (S i) rest
        (context_parts ++
         [pretty i +:+ ". Title: " +:+ KnowledgeBase.title knowledge;
          "   Content: " +:+ KnowledgeBase.content knowledge;
          "   Category: " +:+ str_category (KnowledgeBase.category knowledge);
          "   Similarity: " +:+ format_2f similarity;
          EmptyString])
  end.

(** [ResponseGenerator._build_context]. *)
Definition _build_context (similar_tickets : list TicketHit.t)
    (relevant_knowledge : list KnowledgeHit.t) : result string :=
  let context_parts := [] in
  context_parts ←
    match similar_tickets with
    | [] => mret context_parts
    | _ => ticket_parts 1 (slice_to similar_tickets 3)
             (context_parts ++ ["Similar resolved tickets:"])
    end;
  let context_parts :=
    match relevant_knowledge with
    | [] => context_parts
    | _ => knowledge_parts 1 (slice_to relevant_knowledge 3)
             (context_parts ++ ["Relevant knowledge base articles:"])
    end in
  mret (String.concat newline context_parts).



Variable create : string -> string -> result ChatCompletion.
Variable _create_prompt : Ticket.t -> string -> result string.


End Builder.



End Context.

(* ===================================================================== *)
(** ** backend/app/api/routes/tickets.py: retrieval and generation *)
(* ===================================================================== *)

Module Routes.

Import Embeddings Retriever Generator.
Open Scope float_scope.

(** [f"{ticket.title} {ticket.description}"]. *)
Definition search_query (ticket : Ticket.t) : string :=
  Ticket.title ticket +:+ " " +:+ Ticket.description ticket.

Section GenerateResponse.

Variable create : string -> string -> result ChatCompletion.
Variable _build_context : list TicketHit.t -> list KnowledgeHit.t -> result string.
Variable _create_prompt : Ticket.t -> string -> result string.

(** The value of [response_data] in [generate_ai_response]: the search
    for the ticket's own text, excluding the ticket, then the reply
    generated from what was found. *)
Definition response_data (cfg : Settings) (svc : EmbeddingService) (db : Session.t)
    (ticket : Ticket.t) : traced Reply :=
  let ticket_id := Ticket.id ticket in
  search_results ← hybrid_search cfg svc db (search_query ticket) None (Some ticket_id);
  lift (generate_response create _build_context _create_prompt cfg ticket
          (similar_tickets search_results) (relevant_knowledge search_results)).

(** What a source of a reply to [ticket] stands for. *)
Definition cites_stored (cfg : Settings) (db : Session.t) (ticket : Ticket.t)
    (s : Source.t) : Prop :=
  (SIMILARITY_THRESHOLD cfg <=? Source.similarity s) = true /\
  ((Source.type s = "ticket" /\
    (Ticket.id ticket <> 0%Z -> Source.id s <> Ticket.id ticket) /\
    exists tk, tk ∈ Session.tickets db /\
               Ticket.id tk = Source.id s /\ Ticket.title tk = Source.title s) \/
   (Source.type s = "knowledge" /\
    exists kb, kb ∈ Session.knowledge_base db /\
               KnowledgeBase.is_active kb = true /\
               KnowledgeBase.id kb = Source.id s /\
               KnowledgeBase.title kb = Source.title s)).

Lemma length_ticket_hits cfg svc db query L exclude :
  (0 <= L)%Z ->
  (Z.of_nat (length (Retrieval.ticket_hits cfg svc db query (Some L) exclude)) <= L)%Z.
Proof.
  intros HL. unfold Retrieval.ticket_hits.
  destruct (embedding_of svc query) as [q|e]; [|exact HL].
  change (default (MAX_RETRIEVED_DOCS cfg) (Some L)) with L.
  etransitivity; [apply inj_le, Ranking.length_omap|].
  rewrite slice_to_nonneg by exact HL. rewrite length_take. lia.
Qed.

Lemma length_knowledge_hits cfg svc db query L category :
  (0 <= L)%Z ->
  (Z.of_nat (length (Retrieval.knowledge_hits cfg svc db query (Some L) category)) <= L)%Z.
Proof.
  intros HL. unfold Retrieval.knowledge_hits.
  destruct (embedding_of svc query) as [q|e]; [|exact HL].
  change (default (MAX_RETRIEVED_DOCS cfg) (Some L)) with L.
  etransitivity; [apply inj_le, Ranking.length_omap|].
  rewrite slice_to_nonneg by exact HL. rewrite length_take. lia.
Qed.

(** X10: what a generated reply cites.  The route embeds the ticket's
    text twice and never fails in retrieval or generation.  Every source
    of the reply has a similarity of at least the threshold and is either
    a stored ticket, other than the ticket answered (when its id is not
    0), or an active article of the knowledge base, cited with its id and
    title; and with a limit that is not negative there are at most
    [MAX_RETRIEVED_DOCS] sources. *)
Theorem response_data_sources (cfg : Settings) (svc : EmbeddingService) (db : Session.t)
    (ticket : Ticket.t) :
  exists reply,
    response_data cfg svc db ticket
      = (Ok reply, [search_query ticket; search_query ticket]) /\
    Forall (cites_stored cfg db ticket) (sources reply) /\
    ((0 <= MAX_RETRIEVED_DOCS cfg)%Z ->
     (Z.of_nat (length (sources reply)) <= MAX_RETRIEVED_DOCS cfg)%Z).
Proof.
  unfold response_data. rewrite Retrieval.hybrid_search_eq. cbv zeta. cbn [default].
  set (L := MAX_RETRIEVED_DOCS cfg).
  set (tickets := Retrieval.ticket_hits cfg svc db (search_query ticket)
                    (Some (L `div` 2)%Z) (Some (Ticket.id ticket))).
  set (knowledge := Retrieval.knowledge_hits cfg svc db (search_query ticket)
                      (Some (L - L `div` 2)%Z) None).
  cbn [mbind traced_bind similar_tickets relevant_knowledge lift app].
  destruct (Synthesis.generate_response_cases create _build_context _create_prompt
              cfg ticket tickets knowledge) as [[_ Hreply]|(reply & Htry & Hreply)];
    rewrite Hreply.
  { exists fallback. split; [reflexivity|]. split; [constructor|].
    intros HL. cbn [sources fallback length]. exact HL. }
  exists reply. split; [reflexivity|].
  apply Synthesis.generate_response_try_returns in Htry
    as (context & prompt & completion & content & rest & _ & _ & _ & _ & ->).
  cbn [sources]. unfold _extract_sources. split.
  - rewrite Forall_app, !Forall_fmap. split; rewrite Forall_forall; intros h Hh;
      cbn [compose]; unfold cites_stored;
      cbn [Source.type Source.id Source.title Source.similarity].
    + apply Retrieval.ticket_hit_stored in Hh as (q & te & _ & Hte & Hmeets & Htk & Hs).
      split; [rewrite Hs; exact Hmeets|]. left. split; [reflexivity|]. split.
      * intros Hid Heq.
        assert (Hex : truthy (Some (Ticket.id ticket)) = true).
        { cbn [truthy]. apply negb_true_iff, Z.eqb_neq, Hid. }
        apply (excluded_not_queried _ _ _ Hex Hte).
        rewrite <- (ticket_by_id_id _ _ _ Htk), Heq. reflexivity.
      * exists (TicketHit.ticket h). split; [eapply Retrieval.ticket_by_id_elem_of, Htk|].
        split; reflexivity.
    + apply Retrieval.knowledge_hit_stored in Hh as (q & ke & _ & Hke & Hmeets & Hkb & Hs).
      split; [rewrite Hs; exact Hmeets|]. right. split; [reflexivity|].
      apply Retrieval.knowledge_embeddings_query_elem_of in Hke
        as (_ & kb & Hkb' & Hactive & _).
      rewrite Hkb in Hkb'. injection Hkb' as <-.
      exists (KnowledgeHit.knowledge h).
      split; [apply (Retrieval.knowledge_by_id_spec _ _ _ Hkb)|]. auto.
  - intros HL. rewrite length_app, !length_fmap.
    assert (0 <= L `div` 2 <= L)%Z.
    { split; [apply Z.div_pos; lia|apply Z.div_le_upper_bound; lia]. }
    pose proof (length_ticket_hits cfg svc db (search_query ticket) (L `div` 2)%Z
                  (Some (Ticket.id ticket)) ltac:(lia)).
    pose proof (length_knowledge_hits cfg svc db (search_query ticket)
                  (L - L `div` 2)%Z None ltac:(lia)).
    fold tickets in H0. fold knowledge in H1. lia.
Qed.

End GenerateResponse.

Close Scope float_scope.

End Routes.

(* ===================================================================== *)
(** ** Further properties of ragpipe.py *)
(* ===================================================================== *)

Module Pipeline.

Import Ragpipe.

(** *** The ticket log: [reset_support_tickets] *)

(** X16: [reset_support_tickets] leaves a log that reads as empty,
    whatever it held, lines that do not decode included; it creates no
    log where none exists; a second reset changes nothing; and no other
    file is touched. *)
Theorem reset_support_tickets_clears (json_loads : string -> result LogEntry) (fs : files) :
  get_all_tickets json_loads (reset_support_tickets fs) = Ok [] /\
  reset_support_tickets fs !! tickets_jsonl = (fun _ => []) <$> fs !! tickets_jsonl /\
  reset_support_tickets (reset_support_tickets fs) = reset_support_tickets fs /\
  (forall path, path <> tickets_jsonl -> reset_support_tickets fs !! path = fs !! path).
Proof.
  assert (Hlog : reset_support_tickets fs !! tickets_jsonl
                 = (fun _ => []) <$> fs !! tickets_jsonl).
  { unfold reset_support_tickets, path_exists, truncate.
    case_bool_decide as Hex.
    - destruct Hex as [lines Hlines]. rewrite lookup_insert_eq, Hlines. reflexivity.
    - destruct (fs !! tickets_jsonl) as [lines|] eqn:E; [|reflexivity].
      exfalso. apply Hex. eauto. }
  split; [|split; [exact Hlog|split]].
  - unfold get_all_tickets. rewrite Hlog. destruct (fs !! tickets_jsonl); reflexivity.
  - destruct (path_exists fs tickets_jsonl) eqn:Hex.
    + assert (Hreset : reset_support_tickets fs = truncate fs tickets_jsonl)
        by (unfold reset_support_tickets; rewrite Hex; reflexivity).
      rewrite Hreset. unfold reset_support_tickets.
      destruct (path_exists (truncate fs tickets_jsonl) tickets_jsonl); [|reflexivity].
      apply insert_insert_eq.
    + assert (Hreset : reset_support_tickets fs = fs)
        by (unfold reset_support_tickets; rewrite Hex; reflexivity).
      rewrite Hreset. exact Hreset.
  - intros path Hpath. unfold reset_support_tickets, truncate.
    destruct (path_exists fs tickets_jsonl); [|reflexivity].
    apply lookup_insert_ne. congruence.
Qed.

(** *** [chunk_text]: nothing is lost *)

Open Scope Z_scope.

(** [str.join] with the empty separator. *)
Definition join (parts : list string) : string := foldr String.append EmptyString parts.

Lemma slice_nonneg {A} (l : list A) (start stop : Z) :
  0 <= start <= stop ->
  slice l start stop = take (Z.to_nat (stop - start)) (drop (Z.to_nat start) l).
Proof.
  intros H. unfold slice, clip_index.
  destruct (Z.ltb_spec start 0); [lia|]. destruct (Z.ltb_spec stop 0); [lia|].
  destruct (Z.le_gt_cases (Z.of_nat (length l)) start) as [Hge|Hlt].
  - rewrite !(drop_ge l) by lia. rewrite !take_nil. reflexivity.
  - rewrite (Z.min_l start) by lia.
    destruct (Z.le_gt_cases stop (Z.of_nat (length l))).
    + rewrite Z.min_l by lia. reflexivity.
    + rewrite Z.min_r by lia. rewrite !take_ge; [reflexivity| |];
        rewrite length_drop; lia.
Qed.

Lemma string_of_list_ascii_app (a b : list ascii) :
  String.string_of_list_ascii (a ++ b)
  = String.string_of_list_ascii a +:+ String.string_of_list_ascii b.
Proof. induction a as [|c a IH]; [reflexivity|]. cbn. rewrite IH. reflexivity. Qed.

Lemma append_nil_r (s : string) : s +:+ EmptyString = s.
Proof.
  induction s as [|c s IH]; [reflexivity|].
  change (String c (s +:+ EmptyString) = String c s). rewrite IH. reflexivity.
Qed.

Lemma append_assoc (a b c : string) : (a +:+ b) +:+ c = a +:+ (b +:+ c).
Proof.
  induction a as [|x a IH]; [reflexivity|].
  change (String x ((a +:+ b) +:+ c) = String x (a +:+ (b +:+ c))). rewrite IH. reflexivity.
Qed.

Lemma join_snoc parts last : join (parts ++ [last]) = join parts +:+ last.
Proof.
  unfold join. induction parts as [|p parts IH]; cbn [app foldr].
  - apply append_nil_r.
  - rewrite IH, append_assoc. reflexivity.
Qed.

(** The first [step] characters of the window that starts [i] steps into
    the text. *)
Lemma window_head text chunk_size overlap (i : nat) :
  0 <= overlap < chunk_size ->
  str_slice (window text chunk_size overlap i) 0 (chunk_size - overlap)
  = String.string_of_list_ascii
      (take (Z.to_nat (chunk_size - overlap))
            (drop (i * Z.to_nat (chunk_size - overlap))
                  (String.list_ascii_of_string text))).
Proof.
  intros H. unfold str_slice, window, str_slice.
  rewrite String.list_ascii_of_string_of_list_ascii.
  rewrite !slice_nonneg by nia. rewrite drop_0, take_take. f_equal.
  f_equal; [|f_equal]; nia.
Qed.

Lemma heads_join text chunk_size overlap (n : nat) :
  0 <= overlap < chunk_size ->
  join ((fun chunk => str_slice chunk 0 (chunk_size - overlap))
          <$> (window text chunk_size overlap <$> seq 0 n))
  = String.string_of_list_ascii
      (take (n * Z.to_nat (chunk_size - overlap)) (String.list_ascii_of_string text)).
Proof.
  intros H. induction n as [|n IH]; [reflexivity|].
  rewrite seq_S, !fmap_app, !list_fmap_singleton, join_snoc, IH.
  rewrite window_head by exact H.
  rewrite <- string_of_list_ascii_app, take_take_drop. f_equal. f_equal. lia.
Qed.

(** X21: with [0 <= overlap < chunk_size] chunking loses no character.
    [chunk_text] returns, and the first [chunk_size - overlap] characters
    of its chunks, joined in order, are the text. *)
Theorem chunk_text_covers (text : string) (chunk_size overlap : Z) :
  0 <= overlap < chunk_size ->
  exists chunks,
    (forall fuel, (Z.to_nat (len text) < fuel)%nat ->
       chunk_text fuel text chunk_size overlap = Some chunks) /\
    join ((fun chunk => str_slice chunk 0 (chunk_size - overlap)) <$> chunks) = text.
Proof.
  intros H.
  set (n := Z.to_nat (ceil_div (len text) (chunk_size - overlap))).
  assert (Hlen : 0 <= len text) by (unfold len; lia).
  assert (Hn : 0 <= ceil_div (len text) (chunk_size - overlap))
    by (apply ceil_div_nonneg; lia).
  pose proof (ceil_div_bounds (len text) (chunk_size - overlap) ltac:(lia)) as Hb.
  exists (window text chunk_size overlap <$> seq 0 n). split.
  - intros fuel Hfuel. unfold chunk_text.
    change 0 with (Z.of_nat 0 * (chunk_size - overlap)).
    rewrite (chunk_loop_windows text chunk_size overlap n 0); [reflexivity|lia|lia|].
    unfold n. nia.
  - rewrite heads_join by exact H. rewrite take_ge.
    + apply String.string_of_list_ascii_of_string.
    + unfold len in *. unfold n. nia.
Qed.

Lemma chunk_text_covers_witness :
  exists chunks,
    (forall fuel, (Z.to_nat (len "abcdefghij") < fuel)%nat ->
       chunk_text fuel "abcdefghij" 4 1 = Some chunks) /\
    join ((fun chunk => str_slice chunk 0 (4 - 1)) <$> chunks) = "abcdefghij".
Proof. apply (chunk_text_covers "abcdefghij" 4 1). lia. Defined.

(** The characters two consecutive windows share. *)
Lemma window_overlap text chunk_size overlap (i : nat) :
  0 <= overlap < chunk_size ->
  str_slice (window text chunk_size overlap i) (chunk_size - overlap) chunk_size
  = str_slice (window text chunk_size overlap (S i)) 0 overlap.
Proof.
  intros H. unfold str_slice, window, str_slice.
  rewrite !String.list_ascii_of_string_of_list_ascii. f_equal.
  rewrite !slice_nonneg by nia. rewrite drop_0.
  set (l := String.list_ascii_of_string text).
  set (step := Z.to_nat (chunk_size - overlap)).
  replace (Z.to_nat (chunk_size - (chunk_size - overlap))) with (Z.to_nat overlap) by lia.
  replace (Z.to_nat (Z.of_nat i * (chunk_size - overlap) + chunk_size
                     - Z.of_nat i * (chunk_size - overlap)))
    with (step + Z.to_nat overlap)%nat by (unfold step; lia).
  replace (Z.to_nat (Z.of_nat (S i) * (chunk_size - overlap) + chunk_size
                     - Z.of_nat (S i) * (chunk_size - overlap)))
    with (step + Z.to_nat overlap)%nat by (unfold step; lia).
  replace (Z.to_nat (overlap - 0)) with (Z.to_nat overlap) by lia.
  replace (Z.to_nat (Z.of_nat (S i) * (chunk_size - overlap)))
    with (Z.to_nat (Z.of_nat i * (chunk_size - overlap)) + step)%nat by (unfold step; nia).
  rewrite <- take_drop_commute, drop_drop, !take_take. f_equal. lia.
Qed.

(** X23: with [0 <= overlap < chunk_size] consecutive chunks overlap as
    the parameter says: what a chunk holds from position
    [chunk_size - overlap] on is what the next chunk holds in its first
    [overlap] positions. *)
Theorem chunk_text_overlap (text : string) (chunk_size overlap : Z) :
  0 <= overlap < chunk_size ->
  exists chunks,
    (forall fuel, (Z.to_nat (len text) < fuel)%nat ->
       chunk_text fuel text chunk_size overlap = Some chunks) /\
    (forall (i : nat) (chunk next : string),
       chunks !! i = Some chunk -> chunks !! S i = Some next ->
       str_slice chunk (chunk_size - overlap) chunk_size = str_slice next 0 overlap).
Proof.
  intros H.
  set (n := Z.to_nat (ceil_div (len text) (chunk_size - overlap))).
  assert (Hlen : 0 <= len text) by (unfold len; lia).
  assert (Hn : 0 <= ceil_div (len text) (chunk_size - overlap))
    by (apply ceil_div_nonneg; lia).
  pose proof (ceil_div_bounds (len text) (chunk_size - overlap) ltac:(lia)) as Hb.
  exists (window text chunk_size overlap <$> seq 0 n). split.
  - intros fuel Hfuel. unfold chunk_text.
    change 0 with (Z.of_nat 0 * (chunk_size - overlap)).
    rewrite (chunk_loop_windows text chunk_size overlap n 0); [reflexivity|lia|lia|].
    unfold n. nia.
  - intros i chunk next Hi Hnext.
    rewrite list_lookup_fmap in Hi, Hnext.
    apply fmap_Some in Hi as (j & Hj & ->). apply fmap_Some in Hnext as (k & Hk & ->).
    apply lookup_seq in Hj as [-> _]. apply lookup_seq in Hk as [-> _].
    apply window_overlap, H.
Qed.

Lemma chunk_text_overlap_witness :
  exists chunks,
    (forall fuel, (Z.to_nat (len "abcdefghij") < fuel)%nat ->
       chunk_text fuel "abcdefghij" 4 1 = Some chunks) /\
    (forall (i : nat) (chunk next : string),
       chunks !! i = Some chunk -> chunks !! S i = Some next ->
       str_slice chunk (4 - 1) 4 = str_slice next 0 1).
Proof. apply (chunk_text_overlap "abcdefghij" 4 1). lia. Defined.

(** *** [index_uploaded_kb] *)

Module Add.
(** The keyword arguments of [kb_collection.add]. *)
Record t : Type := {
  documents : list string;
  metadatas : list string;
  ids : list string;
  embeddings : list (list float)
}.
End Add.

(** [f"{source_name}_{i}"]. *)
Definition chunk_id (source_name : string) (i : nat) : string :=
  source_name +:+ "_" +:+ pretty i.

Section Upload.

Variable embed_text : string -> list float.

(** [RAGPipeline.index_uploaded_kb], up to the call of
    [kb_collection.add]: the arguments of that call.  Each metadata
    dictionary [{"source": source_name}] is kept as its one value. *)
Definition index_uploaded_kb (fuel : nat) (text source_name : string) : option Add.t :=
  chunks ← chunk_text fuel text 300 50;
  let embeddings := embed_text <$> chunks in
  let ids := chunk_id source_name <$> seq 0 (length chunks) in
  let metadatas := (fun _ => source_name) <$> chunks in
  Some {| Add.documents := chunks; Add.metadatas := metadatas;
          Add.ids := ids; Add.embeddings := embeddings |}.

End Upload.

(** The number of chunks of a text under the defaults 300 and 50. *)
Definition chunk_count (text : string) : nat := Z.to_nat (ceil_div (len text) 250).

Lemma chunk_text_default fuel text chunks :
  chunk_text fuel text 300 50 = Some chunks ->
  chunks = window text 300 50 <$> seq 0 (chunk_count text).
Proof.
  intros H. unfold chunk_text in H.
  assert (Hlen : 0 <= len text) by (unfold len; lia).
  pose proof (ceil_div_nonneg (len text) 250 ltac:(lia) Hlen) as Hn.
  apply (chunk_loop_fuel_mono fuel (fuel + S (chunk_count text))) in H; [|lia].
  change 0 with (Z.of_nat 0 * (300 - 50)) in H.
  rewrite (chunk_loop_windows text 300 50 (chunk_count text) 0) in H.
  - injection H as <-. reflexivity.
  - lia.
  - unfold chunk_count. change (300 - 50) with 250. lia.
  - lia.
Qed.

Lemma chunk_text_default_returns fuel text :
  (chunk_count text < fuel)%nat ->
  chunk_text fuel text 300 50 = Some (window text 300 50 <$> seq 0 (chunk_count text)).
Proof.
  intros Hfuel. unfold chunk_text.
  assert (Hlen : 0 <= len text) by (unfold len; lia).
  pose proof (ceil_div_nonneg (len text) 250 ltac:(lia) Hlen) as Hn.
  change 0 with (Z.of_nat 0 * (300 - 50)).
  rewrite (chunk_loop_windows text 300 50 (chunk_count text) 0); [reflexivity|lia| |exact Hfuel].
  unfold chunk_count. change (300 - 50) with 250. lia.
Qed.

(** No decimal numeral holds an underscore. *)
Fixpoint occurs (c : ascii) (s : string) : bool :=
  match s with
  | EmptyString => false
  | String c' rest => Ascii.eqb c' c || occurs c rest
  end.

Lemma pretty_N_go_no_underscore (x : N) (s : string) :
  occurs "_" s = false -> occurs "_" (pretty_N_go x s) = false.
Proof.
  revert s. induction (N.lt_wf_0 x) as [x _ IH]. intros s Hs.
  destruct (decide (0 < x)%N) as [Hx|Hx].
  - rewrite pretty_N_go_step by exact Hx. apply IH; [apply N.div_lt; lia|].
    cbn [occurs]. rewrite Hs, orb_false_r.
    unfold pretty_N_char. repeat case_match; reflexivity.
  - assert (x = 0%N) as -> by lia. rewrite pretty_N_go_0. exact Hs.
Qed.

Lemma pretty_nat_no_underscore (i : nat) : occurs "_" (pretty i) = false.
Proof.
  unfold pretty, pretty_nat, pretty, pretty_N.
  case_decide; [reflexivity|]. apply pretty_N_go_no_underscore. reflexivity.
Qed.

Lemma occurs_append c a b : occurs c (a +:+ String c b) = true.
Proof.
  induction a as [|x a IH].
  - change (occurs c (String c b) = true).
    cbn [occurs]. rewrite Ascii.eqb_refl. reflexivity.
  - change (occurs c (String x (a +:+ String c b)) = true).
    cbn [occurs]. rewrite IH. apply orb_true_r.
Qed.

Lemma last_underscore a1 d1 a2 d2 :
  occurs "_" d1 = false -> occurs "_" d2 = false ->
  a1 +:+ String "_" d1 = a2 +:+ String "_" d2 -> a1 = a2 /\ d1 = d2.
Proof.
  intros H1 H2. revert a2. induction a1 as [|c a1 IH]; intros [|c' a2] H.
  - injection H as ->. auto.
  - change (String "_" d1 = String c' (a2 +:+ String "_" d2)) in H.
    injection H as _ ->. rewrite occurs_append in H1. discriminate.
  - change (String c (a1 +:+ String "_" d1) = String "_" d2) in H.
    injection H as _ <-. rewrite occurs_append in H2. discriminate.
  - change (String c (a1 +:+ String "_" d1) = String c' (a2 +:+ String "_" d2)) in H.
    injection H as -> H. apply IH in H as [-> ->]. auto.
Qed.

Lemma chunk_id_inj source1 source2 i1 i2 :
  chunk_id source1 i1 = chunk_id source2 i2 -> source1 = source2 /\ i1 = i2.
Proof.
  unfold chunk_id. intros H.
  apply last_underscore in H as [-> H]; try apply pretty_nat_no_underscore.
  split; [reflexivity|]. apply (inj pretty), H.
Qed.

(** X17: what [index_uploaded_kb] hands to the knowledge collection.  A
    text of [n] characters gives [ceil(n / 250)] chunks, the windows of
    300 characters that start at the multiples of 250; the chunk at
    position [i] gets the id [source_name_i]; the ids of one upload are
    pairwise distinct; and ids, metadata, embeddings and documents are of
    one length. *)
Theorem index_uploaded_kb_batch (embed_text : string -> list float)
    (text source_name : string) (fuel : nat) :
  (chunk_count text < fuel)%nat ->
  exists batch,
    index_uploaded_kb embed_text fuel text source_name = Some batch /\
    Add.documents batch = window text 300 50 <$> seq 0 (chunk_count text) /\
    Add.ids batch = chunk_id source_name <$> seq 0 (chunk_count text) /\
    Add.embeddings batch = embed_text <$> Add.documents batch /\
    Forall (fun source => source = source_name) (Add.metadatas batch) /\
    NoDup (Add.ids batch) /\
    length (Add.documents batch) = chunk_count text /\
    length (Add.ids batch) = chunk_count text /\
    length (Add.metadatas batch) = chunk_count text /\
    length (Add.embeddings batch) = chunk_count text.
Proof.
  intros Hfuel. unfold index_uploaded_kb.
  rewrite (chunk_text_default_returns fuel text Hfuel). cbn [mbind option_bind].
  eexists. split; [reflexivity|].
  cbn [Add.documents Add.ids Add.embeddings Add.metadatas].
  rewrite !length_fmap, !length_seq.
  repeat split.
  - rewrite Forall_fmap. apply Forall_true. reflexivity.
  - apply NoDup_fmap_2_strong; [|apply NoDup_seq].
    intros i j _ _ H. apply chunk_id_inj in H as [_ H]. exact H.
Qed.

Lemma index_uploaded_kb_batch_witness :
  exists batch,
    index_uploaded_kb (fun _ => []) 2 "refunds take five days" "policy.txt" = Some batch /\
    Add.ids batch = ["policy.txt_0"].
Proof.
  destruct (index_uploaded_kb_batch (fun _ => []) "refunds take five days" "policy.txt" 2)
    as (batch & H1 & _ & H2 & _).
  - vm_compute. lia.
  - exists batch. split; [exact H1|]. rewrite H2. reflexivity.
Defined.

Lemma index_uploaded_kb_ids embed_text fuel text source_name batch :
  index_uploaded_kb embed_text fuel text source_name = Some batch ->
  Add.ids batch = chunk_id source_name <$> seq 0 (chunk_count text).
Proof.
  unfold index_uploaded_kb. intros H.
  destruct (chunk_text fuel text 300 50) as [chunks|] eqn:E; [|discriminate].
  apply chunk_text_default in E. subst chunks. cbn [mbind option_bind] in H.
  injection H as <-. cbn [Add.ids]. rewrite length_fmap, length_seq. reflexivity.
Qed.

(** X18: how the ids of two uploads relate.  Uploads under different
    source names share no id, whatever the names and the texts; uploads
    under one name reuse ids: the ids of the shorter text are the first
    ids of the longer one. *)
Theorem index_uploaded_kb_collisions (embed_text : string -> list float)
    (fuel1 fuel2 : nat) (text1 text2 source1 source2 : string) (batch1 batch2 : Add.t) :
  index_uploaded_kb embed_text fuel1 text1 source1 = Some batch1 ->
  index_uploaded_kb embed_text fuel2 text2 source2 = Some batch2 ->
  (source1 <> source2 -> forall id, id ∈ Add.ids batch1 -> id ∉ Add.ids batch2) /\
  (source1 = source2 -> len text1 <= len text2 ->
   Add.ids batch1 = take (length (Add.ids batch1)) (Add.ids batch2)).
Proof.
  intros H1 H2. apply index_uploaded_kb_ids in H1, H2. rewrite H1, H2. split.
  - intros Hne id Hid1 Hid2.
    apply list_elem_of_fmap in Hid1 as (i1 & -> & _).
    apply list_elem_of_fmap in Hid2 as (i2 & Heq & _).
    apply chunk_id_inj in Heq as [Heq _]. contradiction.
  - intros -> Hlen. rewrite length_fmap, length_seq, <- fmap_take. f_equal.
    assert (Hle : (chunk_count text1 <= chunk_count text2)%nat).
    { unfold chunk_count.
      pose proof (ceil_div_bounds (len text1) 250 ltac:(lia)).
      pose proof (ceil_div_bounds (len text2) 250 ltac:(lia)).
      apply Z2Nat.inj_le; try (apply ceil_div_nonneg; unfold len; lia). lia. }
    replace (chunk_count text2) with (chunk_count text1 + (chunk_count text2 - chunk_count text1))%nat
      by lia.
    rewrite seq_app, take_app_length'; [reflexivity|]. rewrite length_seq. reflexivity.
Qed.

Lemma index_uploaded_kb_collisions_witness :
  ["policy.txt_0"] = take (length ["policy.txt_0"]) ["policy.txt_0"].
Proof.
  destruct (index_uploaded_kb_collisions (fun _ => []) 2 2 "refunds take five days"
              "refunds take five days, returns ten" "policy.txt" "policy.txt"
              {| Add.documents := ["refunds take five days"]; Add.metadatas := ["policy.txt"];
                 Add.ids := ["policy.txt_0"]; Add.embeddings := [[]] |}
              {| Add.documents := ["refunds take five days, returns ten"];
                 Add.metadatas := ["policy.txt"];
                 Add.ids := ["policy.txt_0"]; Add.embeddings := [[]] |}
              eq_refl eq_refl) as [_ H].
  apply H; [reflexivity|vm_compute; discriminate].
Defined.

Close Scope Z_scope.

(** *** [generate_response] *)

Section Responses.

Variable embed_text : string -> list float.
Variable collection_query : list float -> Z -> QueryResult.

(** The score [generate_response] computes from the ticket results. *)
Definition avg_score (query : string) (top_k : Z) : float :=
  let ticket_results := search_similar embed_text collection_query query top_k in
  let distances := match distances ticket_results with d :: _ => d | [] => [] end in
  let scores := (fun d => (1 - d)%float) <$> distances in
  match scores with
  | [] => 0%float
  | _ => (Py.sum scores / float_of_len (length scores))%float
  end.

Lemma generate_response_Ok kb_collection_query requests_post query top_k threshold
    reply score is_confident :
  generate_response embed_text collection_query kb_collection_query requests_post
    query top_k threshold = Ok (reply, score, is_confident) ->
  score = avg_score query top_k /\
  is_confident = (threshold <=? avg_score query top_k)%float /\
  exists prompt response body rest,
    requests_post prompt = Ok response /\ json response = Ok body /\
    choices body = Some (reply :: rest).
Proof.
  unfold generate_response, avg_score.
  set (prompt := build_prompt _ _).
  destruct (requests_post prompt) as [response|] eqn:Hpost;
    cbn [mbind result_bind]; [|discriminate].
  destruct (json response) as [body|] eqn:Hjson; cbn [mbind result_bind]; [|discriminate].
  destruct (choices body) as [[|content rest]|] eqn:Hchoices;
    cbn [mbind result_bind]; try discriminate.
  intros [= <- <- <-]. split; [reflexivity|]. split; [reflexivity|].
  exists prompt, response, body, rest. auto.
Qed.

(** X20: the score of a reply depends on the ticket results alone.  Two
    calls that differ only in the knowledge collection and in what the
    completion endpoint answers return the same score and the same
    [is_confident], which is [score >= threshold]; and when the ticket
    collection finds nothing the score is [0.0]. *)
Theorem generate_response_score (kb1 kb2 : list float -> Z -> QueryResult)
    (post1 post2 : string -> result Response) (query : string) (top_k : Z)
    (threshold : float) (reply1 reply2 : string) (score1 score2 : float)
    (confident1 confident2 : bool) :
  generate_response embed_text collection_query kb1 post1 query top_k threshold
    = Ok (reply1, score1, confident1) ->
  generate_response embed_text collection_query kb2 post2 query top_k threshold
    = Ok (reply2, score2, confident2) ->
  score1 = score2 /\ confident1 = confident2 /\
  confident1 = (threshold <=? score1)%float /\
  (distances (collection_query (embed_text query) top_k) = [] \/
   distances (collection_query (embed_text query) top_k) = [[]] ->
   score1 = 0%float).
Proof.
  intros H1 H2.
  apply generate_response_Ok in H1 as (-> & -> & _), H2 as (-> & -> & _).
  repeat split. unfold avg_score, search_similar. intros [-> | ->]; reflexivity.
Qed.

(** X19: nothing in [generate_response] handles a failure of the
    completion call.  An exception of [requests.post] or of
    [response.json()] leaves the method as it is; a body without
    ["choices"] raises [KeyError], one with no choice [IndexError]; and
    the method returns only when the endpoint answered with a body that
    holds a choice, whose first content is the reply. *)
Theorem generate_response_unguarded (kb_collection_query : list float -> Z -> QueryResult)
    (requests_post : string -> result Response) (query : string) (top_k : Z)
    (threshold : float) :
  let call := generate_response embed_text collection_query kb_collection_query
                requests_post query top_k threshold in
  (forall e, (forall prompt, requests_post prompt = Raise e) -> call = Raise e) /\
  (forall e, (forall prompt, exists response,
                requests_post prompt = Ok response /\ json response = Raise e) ->
             call = Raise e) /\
  ((forall prompt, exists response body,
      requests_post prompt = Ok response /\ json response = Ok body /\
      choices body = None) ->
   call = Raise KeyError) /\
  ((forall prompt, exists response body,
      requests_post prompt = Ok response /\ json response = Ok body /\
      choices body = Some []) ->
   call = Raise IndexError) /\
  (forall reply score is_confident,
     call = Ok (reply, score, is_confident) ->
     exists prompt response body rest,
       requests_post prompt = Ok response /\ json response = Ok body /\
       choices body = Some (reply :: rest)).
Proof.
  intros call. unfold call, generate_response. set (prompt := build_prompt _ _).
  repeat split.
  - intros e H. rewrite H. reflexivity.
  - intros e H. destruct (H prompt) as (response & -> & Hjson).
    cbn [mbind result_bind]. rewrite Hjson. reflexivity.
  - intros H. destruct (H prompt) as (response & body & -> & Hjson & Hchoices).
    cbn [mbind result_bind]. rewrite Hjson. cbn [mbind result_bind].
    rewrite Hchoices. reflexivity.
  - intros H. destruct (H prompt) as (response & body & -> & Hjson & Hchoices).
    cbn [mbind result_bind]. rewrite Hjson. cbn [mbind result_bind].
    rewrite Hchoices. reflexivity.
  - intros reply score is_confident H.
    apply (generate_response_Ok kb_collection_query requests_post query top_k threshold
             reply score is_confident) in H as (_ & _ & H).
    exact H.
Qed.

End Responses.

Lemma generate_response_score_witness :
  generate_response (fun _ => []) (fun _ _ => no_results) (fun _ _ => no_results)
    answering "charged twice" 3 0.7%float
    = Ok ("We are looking into it.", 0%float, false) /\
  generate_response (fun _ => []) (fun _ _ => no_results) (fun _ _ => one_far_result)
    answering "charged twice" 3 0.7%float
    = Ok ("We are looking into it.", 0%float, false) /\
  false = (0.7 <=? 0)%float.
Proof.
  split; [reflexivity|]. split; [reflexivity|].
  destruct (generate_response_score (fun _ => []) (fun _ _ => no_results)
              (fun _ _ => no_results) (fun _ _ => one_far_result) answering answering
              "charged twice" 3 0.7%float
              "We are looking into it." "We are looking into it." 0%float 0%float
              false false eq_refl eq_refl) as (_ & _ & H & _).
  exact H.
Defined.

End Pipeline.

(* ===================================================================== *)
(** ** ragpipe.py: the ticket log, character by character *)
(* ===================================================================== *)

Module Jsonl.

Import Ragpipe.

(** The files, each with its content character by character. *)
Abbreviation disk := (gmap string string).

Definition LF : ascii := "010"%char.
Definition CR : ascii := "013"%char.

(** [for line in f] on a file opened for reading in text mode.  A line
    ends at [\n], at [\r] or at [\r\n], and is handed on with the one
    character [\n] in its place; what follows the last line end is handed
    on as it is.  [line] holds the characters of the current line read so
    far. *)
Fixpoint readlines (content line : string) : list string :=
  match content with
  | EmptyString =>
      match line with
      | EmptyString => []
      | _ => [line]
      end
  | String c rest =>
      if Ascii.eqb c LF then (line +:+ newline) :: readlines rest EmptyString
      else if Ascii.eqb c CR then
        match rest with
        | String c' rest' =>
            if Ascii.eqb c' LF then (line +:+ newline) :: readlines rest' EmptyString
            else (line +:+ newline) :: readlines rest EmptyString
        | EmptyString => [line +:+ newline]
        end
      else readlines rest (line +:+ String c EmptyString)
  end.

(** [with open(path, "a") as f: f.write(data)], on a system whose line
    separator is [\n]: the file is created when missing. *)
Definition write_append (fs : disk) (path data : string) : disk :=
  <[path := default EmptyString (fs !! path) +:+ data]> fs.

Section Log.

Variable json_dumps : LogEntry -> string.
Variable json_loads : string -> result LogEntry.

(** The part of [store_ticket] that acts on the files. *)
Definition store_ticket (fs : disk) (ticket_id text category response : string)
    (score : float) (is_confident : bool) : disk :=
  let log := {| id := ticket_id; text := text; category := category;
                response := response; confidence := score;
                escalate := negb is_confident |} in
  write_append fs tickets_jsonl (json_dumps log +:+ newline).

(** [RAGPipeline.get_all_tickets]. *)
Definition get_all_tickets (fs : disk) : result (list LogEntry) :=
  tickets ← (match fs !! tickets_jsonl with
             | Some content => read_lines json_loads (readlines content EmptyString) []
             | None => mret []
             end);
  mret (reverse tickets).

End Log.

(** A text without line end, and a content that is empty or ends in [\n]. *)
Fixpoint plain (s : string) : bool :=
  match s with
  | EmptyString => true
  | String c rest => negb (Ascii.eqb c LF) && negb (Ascii.eqb c CR) && plain rest
  end.

Definition terminated (content : string) : Prop :=
  content = EmptyString \/ exists body, content = body +:+ newline.

(** A text without line end, then [\n], continues the current line and
    ends it. *)
Lemma readlines_plain data line tail :
  plain data = true ->
  readlines (data +:+ newline +:+ tail) line
  = (line +:+ data +:+ newline) :: readlines tail EmptyString.
Proof.
  revert line. induction data as [|c data IH]; intros line Hplain.
  - reflexivity.
  - cbn [plain] in Hplain. apply andb_true_iff in Hplain as [Hc Hplain].
    apply andb_true_iff in Hc as [Hlf Hcr].
    apply negb_true_iff in Hlf, Hcr.
    rewrite Categorization.append_cons. cbn [readlines]. rewrite Hlf, Hcr.
    rewrite IH by exact Hplain. rewrite Pipeline.append_assoc. reflexivity.
Qed.

(** What follows a line end is read as a file of its own. *)
Lemma readlines_terminated body tail line :
  readlines ((body +:+ newline) +:+ tail) line
  = readlines (body +:+ newline) line ++ readlines tail EmptyString.
Proof.
  enough (H : (forall line, readlines ((body +:+ newline) +:+ tail) line
                 = readlines (body +:+ newline) line ++ readlines tail EmptyString) /\
              (forall c rest, body = String c rest ->
               forall line, readlines ((rest +:+ newline) +:+ tail) line
                 = readlines (rest +:+ newline) line ++ readlines tail EmptyString))
    by apply H.
  clear line. induction body as [|c body [IH1 IH2]].
  - split; [|discriminate]. intros line. reflexivity.
  - split; [|intros c' rest [= -> ->]; exact IH1].
    intros line. rewrite !Categorization.append_cons. cbn [readlines].
    destruct (Ascii.eqb c LF); [rewrite IH1; reflexivity|].
    destruct (Ascii.eqb c CR); [|apply IH1].
    destruct body as [|c' body'].
    + reflexivity.
    + rewrite !Categorization.append_cons. destruct (Ascii.eqb c' LF).
      * rewrite (IH2 c' body' eq_refl). reflexivity.
      * rewrite <- !Categorization.append_cons. rewrite IH1. reflexivity.
Qed.

Lemma readlines_append content data :
  terminated content -> plain data = true ->
  readlines (content +:+ data +:+ newline) EmptyString
  = readlines content EmptyString ++ [data +:+ newline].
Proof.
  intros [->|[body ->]] Hplain.
  - rewrite <- (Pipeline.append_nil_r (data +:+ newline)) at 1. rewrite Pipeline.append_assoc.
    change (EmptyString +:+ ?x) with x.
    rewrite readlines_plain by exact Hplain. reflexivity.
  - rewrite readlines_terminated. f_equal.
    rewrite <- (Pipeline.append_nil_r (data +:+ newline)) at 1. rewrite Pipeline.append_assoc.
    rewrite readlines_plain by exact Hplain. reflexivity.
Qed.


Lemma get_all_tickets_decodes json_loads (fs : disk) entries :
  decodes json_loads (readlines (default EmptyString (fs !! tickets_jsonl)) EmptyString)
          entries ->
  get_all_tickets json_loads fs = Ok (reverse entries).
Proof.
  unfold get_all_tickets. intros H.
  destruct (fs !! tickets_jsonl) as [content|]; cbn [default] in H.
  - rewrite (read_lines_decodes json_loads _ entries) by exact H. reflexivity.
  - inversion H. reflexivity.
Qed.

Lemma get_all_tickets_content json_loads (fs : disk) content entries :
  fs !! tickets_jsonl = Some content ->
  decodes json_loads (readlines content EmptyString) entries ->
  get_all_tickets json_loads fs = Ok (reverse entries).
Proof.
  unfold get_all_tickets. intros -> H.
  rewrite (read_lines_decodes json_loads _ entries) by exact H. reflexivity.
Qed.

(** X15: a stored ticket is read back first.  [store_ticket] appends the
    text of [json.dumps] and a newline to the characters of the log,
    creating it when missing, and changes no other file.  When the log is
    empty or ends in a newline, the text written holds no line end,
    [json.loads] inverts [json.dumps] on the line written, and the lines
    already in the log decode, [get_all_tickets] then returns the new
    entry, with the texts as passed and [escalate = not is_confident],
    followed by what it returned before. *)
Theorem store_ticket_get_all_tickets (json_dumps : LogEntry -> string)
    (json_loads : string -> result LogEntry) (fs : disk) (entries : list LogEntry)
    (ticket_id text category response : string) (score : float) (is_confident : bool) :
  let entry := {| id := ticket_id; text := text; category := category;
                  response := response; confidence := score;
                  escalate := negb is_confident |} in
  let content := default EmptyString (fs !! tickets_jsonl) in
  let fs' := store_ticket json_dumps fs ticket_id text category response score is_confident in
  terminated content ->
  plain (json_dumps entry) = true ->
  json_loads (json_dumps entry +:+ newline) = Ok entry ->
  decodes json_loads (readlines content EmptyString) entries ->
  fs' !! tickets_jsonl = Some (content +:+ json_dumps entry +:+ newline) /\
  (forall path, path <> tickets_jsonl -> fs' !! path = fs !! path) /\
  get_all_tickets json_loads fs = Ok (reverse entries) /\
  get_all_tickets json_loads fs' = Ok (entry :: reverse entries).
Proof.
  intros entry content fs' Hterminated Hplain Hround Hlines.
  assert (Hlog : fs' !! tickets_jsonl = Some (content +:+ json_dumps entry +:+ newline)).
  { unfold fs', store_ticket, write_append. rewrite lookup_insert_eq. reflexivity. }
  split; [exact Hlog|]. split; [|split].
  - intros path Hpath. unfold fs', store_ticket, write_append.
    apply lookup_insert_ne. congruence.
  - apply get_all_tickets_decodes, Hlines.
  - rewrite (get_all_tickets_content json_loads fs' _ (entries ++ [entry]) Hlog).
    + rewrite reverse_app. reflexivity.
    + rewrite (readlines_append content _ Hterminated Hplain).
      apply Forall2_app; [exact Hlines|]. repeat constructor. exact Hround.
Qed.

Lemma plain_append a b : plain a = true -> plain b = true -> plain (a +:+ b) = true.
Proof.
  intros Ha Hb. induction a as [|c a IH]; [exact Hb|].
  rewrite Categorization.append_cons. cbn [plain] in *.
  apply andb_true_iff in Ha as [Hc Ha]. rewrite Hc, (IH Ha). reflexivity.
Qed.

(** A last line without line end is handed on as it is. *)
Lemma readlines_last last line :
  last <> EmptyString -> plain last = true -> readlines last line = [line +:+ last].
Proof.
  revert line. induction last as [|c l IH]; intros line Hne Hplain; [contradiction|].
  cbn [plain] in Hplain. apply andb_true_iff in Hplain as [Hc Hl].
  apply andb_true_iff in Hc as [Hlf Hcr]. apply negb_true_iff in Hlf, Hcr.
  cbn [readlines]. rewrite Hlf, Hcr.
  destruct l as [|c' l'].
  - cbn [readlines]. destruct (line +:+ String c EmptyString) eqn:E; [|reflexivity].
    destruct line; discriminate E.
  - rewrite IH by (try discriminate; exact Hl). rewrite Pipeline.append_assoc. reflexivity.
Qed.

(** X25: a log that does not end in a newline swallows the next entry.
    When the log ends in a line without line end, [store_ticket] writes
    onto that line: the lines before it are read as before, and the last
    line read is the old last line, the text of [json.dumps] and a
    newline in one; [get_all_tickets] returns only if [json.loads] accepts
    that line. *)
Theorem store_ticket_unterminated (json_dumps : LogEntry -> string)
    (json_loads : string -> result LogEntry) (fs : disk) (body last : string)
    (ticket_id text category response : string) (score : float) (is_confident : bool) :
  let entry := {| id := ticket_id; text := text; category := category;
                  response := response; confidence := score;
                  escalate := negb is_confident |} in
  let fs' := store_ticket json_dumps fs ticket_id text category response score is_confident in
  let merged := last +:+ json_dumps entry +:+ newline in
  fs !! tickets_jsonl = Some (body +:+ last) ->
  terminated body -> last <> EmptyString -> plain last = true ->
  plain (json_dumps entry) = true ->
  fs' !! tickets_jsonl = Some (body +:+ merged) /\
  readlines (body +:+ last) EmptyString = readlines body EmptyString ++ [last] /\
  readlines (body +:+ merged) EmptyString = readlines body EmptyString ++ [merged] /\
  (forall e, json_loads merged = Raise e ->
     Forall (fun line => returns (json_loads line)) (readlines body EmptyString) ->
     get_all_tickets json_loads fs' = Raise e).
Proof.
  intros entry fs' merged Hfs Hbody Hlast Hplain Hdumps.
  assert (Hlog : fs' !! tickets_jsonl = Some (body +:+ merged)).
  { unfold fs', store_ticket, write_append. rewrite lookup_insert_eq, Hfs.
    change (default EmptyString (Some (body +:+ last))) with (body +:+ last).
    rewrite Pipeline.append_assoc. reflexivity. }
  assert (Hmerged : readlines (body +:+ merged) EmptyString
                    = readlines body EmptyString ++ [merged]).
  { replace merged with ((last +:+ json_dumps entry) +:+ newline)
      by apply Pipeline.append_assoc.
    apply (readlines_append body _ Hbody (plain_append _ _ Hplain Hdumps)). }
  split; [exact Hlog|]. split; [|split; [exact Hmerged|]].
  - destruct Hbody as [->|[body' ->]].
    + apply (readlines_last last EmptyString Hlast Hplain).
    + rewrite readlines_terminated, (readlines_last last EmptyString Hlast Hplain).
      reflexivity.
  - intros e Hraise Hgood. unfold get_all_tickets. rewrite Hlog, Hmerged.
    assert (Hdec : exists entries, decodes json_loads (readlines body EmptyString) entries).
    { clear -Hgood. induction Hgood as [|line lines [entry Hentry] _ [entries IH]].
      - exists []. constructor.
      - exists (entry :: entries). constructor; assumption. }
    destruct Hdec as [entries Hdec].
    rewrite (read_lines_raises json_loads _ entries merged e [] [] Hdec Hraise).
    reflexivity.
Qed.

(** [json.dumps] and [json.loads] on the lines of the examples. *)
Definition line_dumps (entry : LogEntry) : string := sample_line.

Definition line_loads (line : string) : result LogEntry :=
  if String.eqb line (sample_line +:+ newline) then Ok sample_entry
  else Raise JSONDecodeError.

Lemma store_ticket_get_all_tickets_witness :
  get_all_tickets line_loads
    (store_ticket line_dumps {[ tickets_jsonl := sample_line +:+ newline ]}
       "t1" "charged twice" "Payment Issue" "Sorry" 0.5%float false)
  = Ok [sample_entry; sample_entry].
Proof.
  destruct (store_ticket_get_all_tickets line_dumps line_loads
              {[ tickets_jsonl := sample_line +:+ newline ]} [sample_entry]
              "t1" "charged twice" "Payment Issue" "Sorry" 0.5%float false)
    as (_ & _ & _ & H).
  - right. exists sample_line. reflexivity.
  - reflexivity.
  - reflexivity.
  - repeat constructor.
  - exact H.
Defined.

Lemma store_ticket_unterminated_witness :
  get_all_tickets line_loads
    (store_ticket line_dumps {[ tickets_jsonl := sample_line ]}
       "t1" "charged twice" "Payment Issue" "Sorry" 0.5%float false)
  = Raise JSONDecodeError.
Proof.
  destruct (store_ticket_unterminated line_dumps line_loads
              {[ tickets_jsonl := sample_line ]} EmptyString sample_line
              "t1" "charged twice" "Payment Issue" "Sorry" 0.5%float false)
    as (_ & _ & _ & H).
  - reflexivity.
  - left. reflexivity.
  - discriminate.
  - reflexivity.
  - reflexivity.
  - apply H; [reflexivity|constructor].
Defined.

End Jsonl.

(* ===================================================================== *)
(** ** app.py *)
(* ===================================================================== *)

Module App.

Import Ragpipe.

(** [needle in haystack] on strings. *)
Fixpoint contains (needle haystack : string) : bool :=
  String.prefix needle haystack ||
  match haystack with
  | EmptyString => false
  | String _ rest => contains needle rest
  end.

(** [keyword] occurs in [text]. *)
Definition mentions (keyword text : string) : Prop :=
  exists before after, text = before +:+ keyword +:+ after.

Lemma prefix_append p s :
  String.prefix p s = true <-> exists rest, s = p +:+ rest.
Proof.
  revert s. induction p as [|c p IH]; intros s.
  - split; [intros _; exists s; reflexivity|intros _; destruct s; reflexivity].
  - destruct s as [|c' s]; cbn [String.prefix].
    + split; [discriminate|intros [rest H]; discriminate H].
    + destruct (ascii_dec c c') as [->|Hne].
      * rewrite IH. split; intros [rest H]; exists rest.
        -- rewrite H. reflexivity.
        -- change (String c' s = String c' (p +:+ rest)) in H. congruence.
      * split; [discriminate|intros [rest H]].
        change (String c' s = String c (p +:+ rest)) in H. congruence.
Qed.

Lemma contains_mentions keyword text :
  contains keyword text = true <-> mentions keyword text.
Proof.
  unfold mentions. induction text as [|c text IH]; cbn [contains].
  - rewrite orb_false_r, prefix_append. split.
    + intros [rest H]. exists EmptyString, rest. exact H.
    + intros ([|c before] & after & H); [exists after; exact H|discriminate H].
  - rewrite orb_true_iff, prefix_append, IH. split.
    + intros [[rest H]|(before & after & H)].
      * exists EmptyString, rest. exact H.
      * exists (String c before), after. rewrite H. reflexivity.
    + intros ([|c' before] & after & H).
      * left. exists after. exact H.
      * right. exists before, after.
        change (String c text = String c' (before +:+ keyword +:+ after)) in H. congruence.
Qed.

Section Script.

(** [str.lower] and [str.strip]. *)
Variable lower : string -> string.
Variable strip : string -> string.

(** [categorize_ticket]. *)
Definition categorize_ticket (text : string) : string :=
  let text := lower text in
  if contains "payment" text || contains "deducted" text then "💳 Payment Issue"
  else if contains "return" text then "🔁 Return Request"
  else if contains "refund" text then "📉 Refund Issue"
  else if contains "shipping" text || contains "order" text || contains "delivered" text
  then "📦 Shipping Issue"
  else "❓ General Query".

(** X24: the keywords of [categorize_ticket] are looked for anywhere in
    the lowercased text, inside longer words too, and in a fixed order of
    precedence: ["payment"] or ["deducted"] decides first, then
    ["return"], then ["refund"], then ["shipping"], ["order"] or
    ["delivered"]; a text with ["return"] in it is never a refund issue,
    and a text with none of the seven keywords is a general query. *)
Theorem categorize_ticket_precedence (text : string) :
  let has := fun keyword => mentions keyword (lower text) in
  (has "payment" \/ has "deducted" ->
   categorize_ticket text = "💳 Payment Issue") /\
  (~ has "payment" -> ~ has "deducted" -> has "return" ->
   categorize_ticket text = "🔁 Return Request") /\
  (~ has "payment" -> ~ has "deducted" -> ~ has "return" -> has "refund" ->
   categorize_ticket text = "📉 Refund Issue") /\
  (~ has "payment" -> ~ has "deducted" -> ~ has "return" -> ~ has "refund" ->
   has "shipping" \/ has "order" \/ has "delivered" ->
   categorize_ticket text = "📦 Shipping Issue") /\
  (~ has "payment" -> ~ has "deducted" -> ~ has "return" -> ~ has "refund" ->
   ~ has "shipping" -> ~ has "order" -> ~ has "delivered" ->
   categorize_ticket text = "❓ General Query").
Proof.
  intros has. unfold has, categorize_ticket.
  repeat match goal with
  | |- context [contains ?k ?t] =>
      let H := fresh "H" in
      destruct (contains k t) eqn:H;
      [apply contains_mentions in H
      |apply not_true_iff_false in H; rewrite contains_mentions in H]
  end; cbn [orb]; repeat split; intros; try reflexivity; tauto.
Qed.

Variable embed_text : string -> list float.
Variable collection_query : list float -> Z -> QueryResult.
Variable kb_collection_query : list float -> Z -> QueryResult.
Variable requests_post : string -> result Response.
Variable json_dumps : LogEntry -> string.

(** The body of [if st.button("Submit Ticket")], as it acts on the files:
    the files afterwards, and whether the run ended in an exception.
    [ticket_id] is the fresh [str(uuid.uuid4())]. *)
Definition submit_ticket (fs : Jsonl.disk) (ticket_id ticket_text : string)
    : Jsonl.disk * result unit :=
  if String.eqb (strip ticket_text) EmptyString then (fs, Ok tt)
  else
    let category := categorize_ticket ticket_text in
    match generate_response embed_text collection_query kb_collection_query
            requests_post ticket_text 3 0.7%float with
    | Raise e => (fs, Raise e)
    | Ok (response, score, is_confident) =>
        (Jsonl.store_ticket json_dumps fs ticket_id ticket_text category response
           score is_confident,
         Ok tt)
    end.

(** X22: what submitting a ticket does to the log.  A blank ticket
    changes nothing.  When the completion call fails the run ends in its
    exception and the ticket is not logged.  Otherwise one line is
    appended to the log; when the log was empty or ended in a newline,
    the text of [json.dumps] holds no line end and is inverted by
    [json.loads], and the earlier lines decode, [get_all_tickets] then
    returns first the new entry: the text as typed, the category of
    [categorize_ticket], the reply, the score, and [escalate] set exactly
    when the score is not at least [0.7]. *)
Theorem submit_ticket_logged (json_loads : string -> result LogEntry) (fs : Jsonl.disk)
    (entries : list LogEntry) (ticket_id ticket_text : string) :
  let call := generate_response embed_text collection_query kb_collection_query
                requests_post ticket_text 3 0.7%float in
  let content := default EmptyString (fs !! tickets_jsonl) in
  (strip ticket_text = EmptyString ->
   submit_ticket fs ticket_id ticket_text = (fs, Ok tt)) /\
  (forall e, call = Raise e ->
     fst (submit_ticket fs ticket_id ticket_text) = fs /\
     (strip ticket_text <> EmptyString ->
      snd (submit_ticket fs ticket_id ticket_text) = Raise e)) /\
  (forall response score is_confident,
     strip ticket_text <> EmptyString ->
     call = Ok (response, score, is_confident) ->
     let entry := {| id := ticket_id; text := ticket_text;
                     category := categorize_ticket ticket_text;
                     response := response; confidence := score;
                     escalate := negb (0.7 <=? score)%float |} in
     snd (submit_ticket fs ticket_id ticket_text) = Ok tt /\
     fst (submit_ticket fs ticket_id ticket_text) !! tickets_jsonl
       = Some (content +:+ json_dumps entry +:+ newline) /\
     (Jsonl.terminated content ->
      Jsonl.plain (json_dumps entry) = true ->
      json_loads (json_dumps entry +:+ newline) = Ok entry ->
      decodes json_loads (Jsonl.readlines content EmptyString) entries ->
      Jsonl.get_all_tickets json_loads (fst (submit_ticket fs ticket_id ticket_text))
        = Ok (entry :: reverse entries))).
Proof.
  intros call content. unfold submit_ticket. fold call. split; [|split].
  - intros ->. reflexivity.
  - intros e ->. destruct (String.eqb_spec (strip ticket_text) EmptyString) as [E|E].
    + split; [reflexivity|]. intros H. contradiction.
    + split; reflexivity.
  - intros response score is_confident Hblank Hcall.
    set (entry := {| id := ticket_id; escalate := negb (0.7 <=? score)%float |}).
    destruct (String.eqb_spec (strip ticket_text) EmptyString) as [E|_]; [contradiction|].
    rewrite Hcall. cbn [fst snd]. split; [reflexivity|].
    apply (Pipeline.generate_response_Ok embed_text collection_query) in Hcall
      as (Hscore & Hconf & _).
    rewrite Hconf, <- Hscore.
    assert (Hlog : Jsonl.store_ticket json_dumps fs ticket_id ticket_text
                     (categorize_ticket ticket_text) response score
                     (0.7 <=? score)%float !! tickets_jsonl
                   = Some (content +:+ json_dumps entry +:+ newline)).
    { unfold Jsonl.store_ticket, Jsonl.write_append. rewrite lookup_insert_eq. reflexivity. }
    split; [exact Hlog|].
    intros Hterminated Hplain Hround Hlines.
    rewrite (Jsonl.get_all_tickets_content json_loads _ _ (entries ++ [entry]) Hlog).
    + rewrite reverse_app. reflexivity.
    + rewrite (Jsonl.readlines_append content _ Hterminated Hplain).
      apply Forall2_app; [exact Hlines|]. repeat constructor. exact Hround.
Qed.

End Script.

End App.
